(** * a2disk: an Apple ][ DOS 3.3 disk image reader, and its Applesoft
    de-tokenizer.

    A shallow embedding of [a2disk.py] and [applesoft.py].  Python integers
    are [Z]; a [bytes] object is a list of [byte] whose items read as
    integers in 0..255; a [str] is a [string].  Exceptions and mutable state
    (the position of the open image file, standard output, the buffer of a
    file handler) are threaded through a state-and-exception monad in which
    the state survives a raised exception, as it does in Python. *)

From Stdlib Require Import ZArith List String Ascii Bool Lia.
From Stdlib Require Import Strings.Byte DecimalString.
Import ListNotations.
Local Open Scope Z_scope.

(* ================================================================= *)
(** * Part I: the model *)
(* ================================================================= *)

(** ** Exceptions and results *)

Inductive exn : Type :=
| SeekOutOfRange          (* Exception("seek out of range") *)
| NotDOS33                (* Exception("not an Apple DOS 3.3 disk") *)
| ExceededCatalogHops     (* Exception("exceeded catalog hops") *)
| ExceededTSListHops      (* Exception("exceeded track/sector list hops") *)
| FileNotFound            (* Exception("file not found") *)
| IndexError              (* subscript past the end of a sequence *)
| ValueError              (* unpacking a slice that has not two items *)
| OSError                 (* seek to a negative offset *)
| KeyError (key : Z).     (* dict lookup of an absent key *)

(** [OutOfFuel] is no Python outcome: it marks a loop of the model that was
    given too small an iteration budget. *)
Inductive result (A : Type) : Type :=
| Ok (a : A)
| Raise (e : exn)
| OutOfFuel.

Arguments Ok {A} a.
Arguments Raise {A} e.
Arguments OutOfFuel {A}.

Definition rbind {A B : Type} (r : result A) (k : A -> result B) : result B :=
  match r with
  | Ok a => k a
  | Raise e => Raise e
  | OutOfFuel => OutOfFuel
  end.

Notation "'let!' x ':=' r 'in' k" := (rbind r (fun x => k))
  (at level 10, x name, r at level 100, k at level 200).

(** ** The state-and-exception monad *)

Definition M (S A : Type) : Type := S -> result A * S.

Definition ret {S A : Type} (a : A) : M S A := fun s => (Ok a, s).

Definition raise {S A : Type} (e : exn) : M S A := fun s => (Raise e, s).

Definition out_of_fuel {S A : Type} : M S A := fun s => (OutOfFuel, s).

Definition lift {S A : Type} (r : result A) : M S A := fun s => (r, s).

Definition bind {S A B : Type} (m : M S A) (k : A -> M S B) : M S B :=
  fun s =>
    match m s with
    | (Ok a, s') => k a s'
    | (Raise e, s') => (Raise e, s')
    | (OutOfFuel, s') => (OutOfFuel, s')
    end.

Notation "x <- m ;; k" := (bind m (fun x => k))
  (at level 61, m at next level, right associativity).
Notation "m ;;; k" := (bind m (fun _ => k))
  (at level 61, right associativity).

(** ** Python sequences *)

Definition bytes : Type := list byte.

Definition len {A : Type} (l : list A) : Z := Z.of_nat (List.length l).

Definition byte_val (b : byte) : Z := Z.of_N (Byte.to_N b).

(** [buff[i]]: a negative subscript counts from the end. *)
Definition getitem (buff : bytes) (i : Z) : result Z :=
  let j := if i <? 0 then i + len buff else i in
  if j <? 0 then Raise IndexError
  else match nth_error buff (Z.to_nat j) with
       | Some b => Ok (byte_val b)
       | None => Raise IndexError
       end.

(** [buff[i:]] and [buff[i:j]], for the subscripts 0 <= i <= j the program
    uses. *)
Definition slice_from (buff : bytes) (i : Z) : bytes := skipn (Z.to_nat i) buff.

Definition slice (buff : bytes) (i j : Z) : bytes :=
  firstn (Z.to_nat (j - i)) (skipn (Z.to_nat i) buff).

(** [range(start, stop, step)] for a positive step. *)
Definition range (start stop step : Z) : list Z :=
  map (fun k => start + step * Z.of_nat k)
      (seq 0 (Z.to_nat ((stop - start + step - 1) / step))).

Definition sum (l : list Z) : Z := fold_right Z.add 0 l.

(** [chr(d)] for a code below 256. *)
Definition chr (d : Z) : ascii := ascii_of_N (Z.to_N d).

(** ** a2disk.py: helpers *)

Definition MAX_HOPS : Z := 560.

(** counts the number of on-bits in given 16-bit word *)
Definition bit_count (word : Z) : Z :=
  sum (map (fun j => if negb (Z.land word (Z.shiftl 1 j) =? 0) then 1 else 0)
           (range 0 0x10 1)).

Definition read_word_bigendian (buff : bytes) (offset : Z) : result Z :=
  let! hi := getitem buff offset in
  let! lo := getitem buff (offset + 1) in
  Ok (hi * 0x100 + lo).

Definition read_word_littleendian (buff : bytes) (offset : Z) : result Z :=
  let! lo := getitem buff offset in
  let! hi := getitem buff (offset + 1) in
  Ok (lo + hi * 0x100).

(** ** class Disk *)

Module Disk.

Definition TRACKS_PER_DISK : Z := 0x23.
Definition SECTORS_PER_TRACK : Z := 0x10.
Definition SECTOR_SIZE : Z := 0x100.

(** What the open image file is asked to do, in order. *)
Inductive io_event : Type :=
| EvSeek (offset : Z)
| EvRead (size : Z).

(** The mutable state of a session: the position of [disk_image], the
    calls made on it so far, and the state the callbacks own. *)
Record world (U : Type) : Type := World {
  position : Z;
  oplog : list io_event;
  user : U
}.

Arguments World {U} position oplog user.
Arguments position {U} w.
Arguments oplog {U} w.
Arguments user {U} w.

Section WithImage.

(** The content of the image file, opened read-only. *)
Variable image : bytes.
Context {U : Type}.

(** [disk_image.seek(offset)]: the file is asked to seek whatever the
    offset; below zero it refuses, and stays where it was. *)
Definition file_seek (offset : Z) : M (world U) Z :=
  fun w =>
    if offset <? 0
    then (Raise OSError, World (position w) (oplog w ++ [EvSeek offset]) (user w))
    else (Ok offset, World offset (oplog w ++ [EvSeek offset]) (user w)).

(** [disk_image.read(size)]: what is left of the file when it is shorter. *)
Definition file_read (size : Z) : M (world U) bytes :=
  fun w =>
    let data := firstn (Z.to_nat size) (skipn (Z.to_nat (position w)) image) in
    (Ok data, World (position w + len data) (oplog w ++ [EvRead size]) (user w)).

Definition seek_sect (track sector : Z) : M (world U) Z :=
  if (track >=? TRACKS_PER_DISK) || (sector >=? SECTORS_PER_TRACK)
  then raise SeekOutOfRange
  else file_seek ((track * SECTORS_PER_TRACK + sector) * SECTOR_SIZE).

Definition read_sect (track sector : Z) : M (world U) bytes :=
  seek_sect track sector ;;;
  file_read SECTOR_SIZE.

End WithImage.

(** A callback that touches only its own state. *)
Definition on_user {U A : Type} (f : M U A) : M (world U) A :=
  fun w =>
    let (r, u) := f (user w) in
    (r, World (position w) (oplog w) u).

End Disk.

(** ** class VTOC *)

Module VTOC.

Definition TRACK : Z := 0x11.
Definition SECTOR : Z := 0x00.

Definition CATALOG_TRACK_OFFSET : Z := 0x01.
Definition CATALOG_SECTOR_OFFSET : Z := 0x02.
Definition VOLUME_NUMBER_OFFSET : Z := 0x06.
Definition TRACK_MAP_OFFSET : Z := 0x38.

Definition TRACK_MAP_SIZE : Z := 0x04.

(** offset, value pairs for validating DOS 3.3 VTOC *)
Definition VALIDATION : list (Z * Z) :=
  [ (0x03, 0x03);
    (0x27, 0x7A);
    (0x34, Disk.TRACKS_PER_DISK);
    (0x35, Disk.SECTORS_PER_TRACK);
    (0x36, Disk.SECTOR_SIZE mod 0x100);
    (0x37, Disk.SECTOR_SIZE / 0x100) ].

Fixpoint validate_loop (vtoc_buffer : bytes) (checks : list (Z * Z)) : result unit :=
  match checks with
  | [] => Ok tt
  | (offset, value) :: rest =>
      let! b := getitem vtoc_buffer offset in
      if negb (b =? value) then Raise NotDOS33
      else validate_loop vtoc_buffer rest
  end.

Definition validate (vtoc_buffer : bytes) : result unit :=
  validate_loop vtoc_buffer VALIDATION.

(** [VTOC(disk)]: the object is its buffer. *)
Definition init {U : Type} (image : bytes) : M (Disk.world U) bytes :=
  vtoc_buffer <- Disk.read_sect image TRACK SECTOR ;;
  lift (validate vtoc_buffer) ;;;
  ret vtoc_buffer.

Definition track_map (vtoc_buffer : bytes) (track : Z) : result Z :=
  let track_map_offset := TRACK_MAP_OFFSET + track * TRACK_MAP_SIZE in
  read_word_bigendian vtoc_buffer track_map_offset.

Definition disk_volume (vtoc_buffer : bytes) : result Z :=
  getitem vtoc_buffer VOLUME_NUMBER_OFFSET.

Fixpoint free_sectors_list (vtoc_buffer : bytes) (tracks : list Z) : result (list Z) :=
  match tracks with
  | [] => Ok []
  | track_number :: rest =>
      let! word := track_map vtoc_buffer track_number in
      let! counts := free_sectors_list vtoc_buffer rest in
      Ok (bit_count word :: counts)
  end.

Definition free_sectors (vtoc_buffer : bytes) : result Z :=
  let! counts := free_sectors_list vtoc_buffer (range 0 Disk.TRACKS_PER_DISK 1) in
  Ok (sum counts).

Definition catalog_track_sector (vtoc_buffer : bytes) : result (Z * Z) :=
  let! track := getitem vtoc_buffer CATALOG_TRACK_OFFSET in
  let! sector := getitem vtoc_buffer CATALOG_SECTOR_OFFSET in
  Ok (track, sector).

End VTOC.

(** ** class Catalog *)

Module Catalog.

Definition NEXT_TRACK_OFFSET : Z := 0x01.
Definition NEXT_SECTOR_OFFSET : Z := 0x02.

Definition ENTRY_OFFSET : Z := 0x0B.
Definition ENTRY_SIZE : Z := 0x23.

(** The six arguments a callback is given. *)
Record entry : Type := Entry {
  ts_list_start_track : Z;
  ts_list_start_sector : Z;
  locked : Z;
  file_type : Z;
  size : Z;
  name : string
}.

(** The [join] of the characters [chr(buff[j] & 0x7F)], for j in a range. *)
Fixpoint join_chars (buff : bytes) (js : list Z) : result string :=
  match js with
  | [] => Ok EmptyString
  | j :: rest =>
      let! b := getitem buff j in
      let! s := join_chars buff rest in
      Ok (String (chr (Z.land b 0x7F)) s)
  end.

(** The body of the [if] of [walk_entries], up to the call. *)
Definition decode (buff : bytes) : result entry :=
  let! ts_list_start_track := getitem buff 0x00 in
  let! ts_list_start_sector := getitem buff 0x01 in
  let! b2 := getitem buff 0x02 in
  let locked := Z.land b2 0x80 in
  let! b2' := getitem buff 0x02 in
  let file_type := Z.land b2' 0x7F in
  let! size := read_word_littleendian buff 0x21 in
  let! name := join_chars buff (range 0x03 0x21 1) in
  Ok (Entry ts_list_start_track ts_list_start_sector locked file_type size name).

(** [buff[0x00] != 0xFF and buff[0x03] != 0x00] *)
Definition entry_test (buff : bytes) : result bool :=
  let! b0 := getitem buff 0x00 in
  if negb (b0 =? 0xFF)
  then let! b3 := getitem buff 0x03 in Ok (negb (b3 =? 0x00))
  else Ok false.

Section Walk.

Variable image : bytes.
Context {U R : Type}.

(** The callback answers [Some v] for a true value [v], [None] for a false
    one. *)
Variable callback : entry -> M (Disk.world U) (option R).

(** The [for] loop over the slots of one sector: [Some v] when the callback
    made [walk_entries] return [v]. *)
Fixpoint scan_entries (catalog_sector : bytes) (slots : list Z)
  : M (Disk.world U) (option R) :=
  match slots with
  | [] => ret None
  | i :: rest =>
      let buff := slice_from catalog_sector i in
      test <- lift (entry_test buff) ;;
      if (test : bool) then
        e <- lift (decode buff) ;;
        result <- callback e ;;
        match result with
        | Some v => ret (Some v)
        | None => scan_entries catalog_sector rest
        end
      else scan_entries catalog_sector rest
  end.

(** The [while] loop; one unit of [fuel] per test of its condition. *)
Fixpoint walk_entries_loop (fuel : nat) (hop track sector : Z)
  : M (Disk.world U) (option R) :=
  match fuel with
  | O => out_of_fuel
  | S fuel' =>
      if negb (track =? 0x00) then
        let hop := hop + 1 in
        if hop >=? MAX_HOPS then raise ExceededCatalogHops
        else
          catalog_sector <- Disk.read_sect image track sector ;;
          result <- scan_entries catalog_sector (range ENTRY_OFFSET 0xFF ENTRY_SIZE) ;;
          match result with
          | Some v => ret (Some v)
          | None =>
              track <- lift (getitem catalog_sector NEXT_TRACK_OFFSET) ;;
              sector <- lift (getitem catalog_sector NEXT_SECTOR_OFFSET) ;;
              walk_entries_loop fuel' hop track sector
          end
      else ret None
  end.

Definition walk_entries (vtoc_buffer : bytes) : M (Disk.world U) (option R) :=
  ts <- lift (VTOC.catalog_track_sector vtoc_buffer) ;;
  walk_entries_loop (Z.to_nat MAX_HOPS) 0 (fst ts) (snd ts).

End Walk.

End Catalog.

(** ** class Files *)

Module Files.

Section Walk.

Variable image : bytes.
Context {U : Type}.
Variable callback : bytes -> M (Disk.world U) unit.

(** The [for] loop over the pairs of one track/sector list sector. *)
Fixpoint scan_pairs (track_sector_list_sector : bytes) (slots : list Z)
  : M (Disk.world U) unit :=
  match slots with
  | [] => ret tt
  | i :: rest =>
      match slice track_sector_list_sector i (i + 2) with
      | [t; s] =>
          let file_track := byte_val t in
          let file_sector := byte_val s in
          if (file_track =? 0x00) && (file_sector =? 0x00) then ret tt
          else
            data <- Disk.read_sect image file_track file_sector ;;
            callback data ;;;
            scan_pairs track_sector_list_sector rest
      | _ => raise ValueError
      end
  end.

Fixpoint walk_sectors_loop (fuel : nat) (hop track sector : Z)
  : M (Disk.world U) unit :=
  match fuel with
  | O => out_of_fuel
  | S fuel' =>
      if negb (track =? 0x00) then
        let hop := hop + 1 in
        if hop >=? MAX_HOPS then raise ExceededTSListHops
        else
          track_sector_list_sector <- Disk.read_sect image track sector ;;
          scan_pairs track_sector_list_sector (range 0x0C 0xFF 0x02) ;;;
          track <- lift (getitem track_sector_list_sector 0x01) ;;
          sector <- lift (getitem track_sector_list_sector 0x02) ;;
          walk_sectors_loop fuel' hop track sector
      else ret tt
  end.

Definition walk_sectors (start_track start_sector : Z) : M (Disk.world U) unit :=
  walk_sectors_loop (Z.to_nat MAX_HOPS) 0 start_track start_sector.

End Walk.

End Files.

(** ** applesoft.py *)

Module Applesoft.

Definition TOKENS : list (Z * string) :=
  [ (0x80, "END"); (0x81, "FOR"); (0x82, "NEXT"); (0x83, "DATA");
    (0x84, "INPUT"); (0x86, "DIM"); (0x87, "READ"); (0x89, "TEXT");
    (0x8A, "PR #"); (0x8B, "IN #"); (0x8C, "CALL"); (0x91, "HGR");
    (0x92, "HCOLOR="); (0x93, "HPLOT"); (0x96, "HTAB"); (0x97, "HOME");
    (0x9D, "NORMAL"); (0x9E, "INVERSE"); (0xA2, "VTAB"); (0xA3, "HIMEM:");
    (0xA5, "ONERR"); (0xAB, "GOTO"); (0xAD, "IF"); (0xB0, "GOSUB");
    (0xB1, "RETURN"); (0xB2, "REM"); (0xB4, "ON"); (0xB9, "POKE");
    (0xBA, "PRINT"); (0xBD, "CLEAR"); (0xBE, "GET"); (0xC0, "TAB");
    (0xC1, "TO"); (0xC3, "SPC("); (0xC4, "THEN"); (0xC7, "STEP");
    (0xC8, "+"); (0xC9, "-"); (0xCA, "*"); (0xCB, "/"); (0xCC, ";");
    (0xCD, "AND"); (0xCE, "OR"); (0xCF, ">"); (0xD0, "="); (0xD1, "<");
    (0xD2, "SGN"); (0xD3, "INT"); (0xD4, "ABS"); (0xD6, "FRE");
    (0xDA, "SQR"); (0xDB, "RND"); (0xE1, "ATN"); (0xE2, "PEEK");
    (0xE3, "LEN"); (0xE4, "STR$"); (0xE5, "VAL"); (0xE7, "CHR$") ]%string.

Fixpoint lookup (d : Z) (table : list (Z * string)) : option string :=
  match table with
  | [] => None
  | (k, v) :: rest => if k =? d then Some v else lookup d rest
  end.

Definition token (d : Z) : result string :=
  match lookup d TOKENS with
  | Some keyword => Ok keyword
  | None => Raise (KeyError d)
  end.

(** A [Detokenize] object, and the text written to standard output. *)
Record detok : Type := Detok {
  data : bytes;
  index : Z;
  stdout : string
}.

Definition write (s : string) : M detok unit :=
  fun st => (Ok tt, Detok (data st) (index st) (stdout st ++ s)).

Definition newline : string := String (chr 10) EmptyString.

Definition read_byte : M detok Z :=
  fun st =>
    match getitem (data st) (index st) with
    | Ok d => (Ok d, Detok (data st) (index st + 1) (stdout st))
    | Raise e => (Raise e, st)
    | OutOfFuel => (OutOfFuel, st)
    end.

Definition read_word : M detok Z :=
  lo <- read_byte ;;
  hi <- read_byte ;;
  ret (lo + 0x100 * hi).

Definition get_index : M detok Z := fun st => (Ok (index st), st).

(** ["{}".format(n)] for an integer. *)
Definition format_int (n : Z) : string := NilZero.string_of_int (Z.to_int n).

(** The inner [while True] loop: the bytes of one line. *)
Fixpoint line_loop (fuel : nat) : M detok unit :=
  match fuel with
  | O => out_of_fuel
  | S fuel' =>
      d <- read_byte ;;
      if d =? 0x00 then write newline
      else if d <=? 0x7F then
        write (String (chr d) EmptyString) ;;;
        line_loop fuel'
      else
        keyword <- lift (token d) ;;
        write (" " ++ keyword ++ " ") ;;;
        line_loop fuel'
  end.

(** The outer loop, [while self.index < length]. *)
Fixpoint lines_loop (fuel : nat) (length : Z) : M detok unit :=
  match fuel with
  | O => out_of_fuel
  | S fuel' =>
      i <- get_index ;;
      if i <? length then
        memory <- read_word ;;
        line_number <- read_word ;;
        write (format_int line_number ++ " ") ;;;
        line_loop fuel ;;;
        lines_loop fuel' length
      else ret tt
  end.

(** Every turn of either loop reads a byte, so neither takes more turns
    than the buffer has bytes, and one more. *)
Definition detokenize_from (fuel : nat) : M detok unit :=
  length <- read_word ;;
  lines_loop fuel length.

Definition detokenize (buffer : bytes) (out : string) : result unit * string :=
  let (r, st) := detokenize_from (S (List.length buffer)) (Detok buffer 0 out) in
  (r, stdout st).

End Applesoft.

(** ** a2disk.py: file handlers and the command [dump] *)

Module Dump.

(** Standard output, and the [data] list of an [ApplesoftHandler]. *)
Record session : Type := Session {
  stdout : string;
  data : bytes
}.

Definition write (s : string) : M session unit :=
  fun u => (Ok tt, Session (stdout u ++ s) (data u)).

Fixpoint for_each {S A : Type} (l : list A) (body : A -> M S unit) : M S unit :=
  match l with
  | [] => ret tt
  | x :: rest => body x ;;; for_each rest body
  end.

Definition hex_digit (n : Z) : ascii :=
  if n <? 10 then chr (48 + n) else chr (55 + n).

(** ["{:02X} ".format(d)] for a byte. *)
Definition format_02X (d : Z) : string :=
  String (hex_digit (d / 16)) (String (hex_digit (d mod 16)) " ").

Definition hexdump (data : bytes) : M session unit :=
  for_each (range 0 0x10 1) (fun i =>
    for_each (range 0 0x10 1) (fun j =>
      d <- lift (getitem data (0x10 * i + j)) ;;
      write (format_02X d)) ;;;
    for_each (range 0 0x10 1) (fun j =>
      d <- lift (getitem data (0x10 * i + j)) ;;
      if (0x20 <=? Z.land d 0x7F) && (Z.land d 0x7F <? 0x7F)
      then write (String (chr (Z.land d 0x7F)) EmptyString)
      else write ".") ;;;
    write Applesoft.newline).

Inductive handler : Type := TextHandler | ApplesoftHandler | DefaultHandler.

(** [FILE_HANDLERS.get(file_type, DefaultHandler)] *)
Definition FILE_HANDLERS_get (file_type : Z) : handler :=
  if file_type =? 0 then TextHandler
  else if file_type =? 2 then ApplesoftHandler
  else DefaultHandler.

(** [handler()] *)
Definition handler_init (h : handler) : M session unit :=
  match h with
  | ApplesoftHandler => fun u => (Ok tt, Session (stdout u) [])
  | _ => ret tt
  end.

Definition receive_sector_data (h : handler) (sector_data : bytes) : M session unit :=
  match h with
  | TextHandler =>
      for_each sector_data (fun b =>
        let d := byte_val b in
        if d =? 0x8D then write Applesoft.newline
        else write (String (chr (Z.land d 0x7F)) EmptyString))
  | ApplesoftHandler =>
      fun u => (Ok tt, Session (stdout u) (data u ++ sector_data))
  | DefaultHandler => hexdump sector_data
  end.

(** [__exit__] *)
Definition handler_exit (h : handler) : M session unit :=
  match h with
  | ApplesoftHandler =>
      fun u =>
        let (r, out) := Applesoft.detokenize (data u) (stdout u) in
        (r, Session out (data u))
  | _ => ret tt
  end.

(** [with handler() as callback: body]: [__exit__] runs on every way out
    of the body, and what it raises replaces what the body raised. *)
Definition with_handler (h : handler)
  (body : M (Disk.world session) unit) : M (Disk.world session) unit :=
  fun w =>
    let (r, w1) := (Disk.on_user (handler_init h) ;;; body) w in
    let (r2, w2) := Disk.on_user (handler_exit h) w1 in
    match r2 with
    | Ok _ => (r, w2)
    | _ => (r2, w2)
    end.

(** ["{:30s}".format(find_name)]: spaces are added up to width 30, and
    nothing is cut. *)
Definition format_30s (find_name : string) : string :=
  find_name ++ string_of_list_ascii (repeat " "%char (30 - String.length find_name)).

Definition find_entry (find_name : string)
  : Catalog.entry -> option (Z * Z * Z) :=
  let find_name := format_30s find_name in
  fun e =>
    if String.eqb (Catalog.name e) find_name
    then Some (Catalog.ts_list_start_track e, Catalog.ts_list_start_sector e,
               Catalog.file_type e)
    else None.

Definition dump (image : bytes) (file_name : string) : M (Disk.world session) unit :=
  vtoc_buffer <- VTOC.init image ;;
  result <- Catalog.walk_entries image
              (fun e => ret (find_entry file_name e)) vtoc_buffer ;;
  match result with
  | Some (track, sector, file_type) =>
      let h := FILE_HANDLERS_get file_type in
      with_handler h
        (Files.walk_sectors image
           (fun sector_data => Disk.on_user (receive_sector_data h sector_data))
           track sector)
  | None => raise FileNotFound
  end.

End Dump.

(** ** a2disk.py: the command [catalog] *)

Module Command.

(** [Catalog.FILE_TYPES] *)
Definition FILE_TYPES : list (Z * string) :=
  [ (0x00, "T"); (0x01, "I"); (0x02, "A"); (0x04, "B");
    (0x08, "S"); (0x10, "R"); (0x20, "a"); (0x40, "b") ]%string.

(** [Catalog.FILE_TYPES[file_type]] *)
Definition file_type_code (file_type : Z) : result string :=
  match Applesoft.lookup file_type FILE_TYPES with
  | Some code => Ok code
  | None => Raise (KeyError file_type)
  end.

(** ["{:03}".format(n)] for an integer that is not negative: zeros are
    added in front up to three digits. *)
Definition format_03 (n : Z) : string :=
  let digits := Applesoft.format_int n in
  string_of_list_ascii (repeat "0"%char (3 - String.length digits)) ++ digits.

(** [print(s)] *)
Definition print (s : string) : M Dump.session unit :=
  Dump.write (s ++ Applesoft.newline).

(** The callback of [catalog]; it returns nothing, which is false. *)
Definition print_entry (e : Catalog.entry) : M Dump.session (option unit) :=
  let lock := if negb (Catalog.locked e =? 0) then "*"%string else " "%string in
  code <- lift (file_type_code (Catalog.file_type e)) ;;
  print (" " ++ lock ++ code ++ " " ++ format_03 (Catalog.size e) ++ " "
           ++ Catalog.name e) ;;;
  ret None.

Definition catalog (image : bytes) : M (Disk.world Dump.session) unit :=
  vtoc_buffer <- VTOC.init image ;;
  Disk.on_user (print EmptyString) ;;;
  disk_volume <- lift (VTOC.disk_volume vtoc_buffer) ;;
  free_sectors <- lift (VTOC.free_sectors vtoc_buffer) ;;
  Disk.on_user (print ("Disk Volume " ++ Applesoft.format_int disk_volume
                         ++ ", Free Blocks: " ++ Applesoft.format_int free_sectors)) ;;;
  Disk.on_user (print EmptyString) ;;;
  Catalog.walk_entries image (fun e => Disk.on_user (print_entry e)) vtoc_buffer ;;;
  Disk.on_user (print EmptyString).

End Command.

(* ================================================================= *)
(** * Part II: what the properties are stated with *)
(* ================================================================= *)

(** The integer at a subscript, 0 past the end: the value [buff[i]] has
    wherever it has one. *)
Definition byte_at (buff : bytes) (i : Z) : Z :=
  byte_val (nth (Z.to_nat i) buff x00).

(** Where sector [(track, sector)] starts in the image, and the 256 bytes
    stored there. *)
Definition sector_offset (track sector : Z) : Z :=
  (track * 16 + sector) * 256.

Definition sector_at (image : bytes) (track sector : Z) : bytes :=
  slice image (sector_offset track sector) (sector_offset track sector + 256).

(** The size of an image of 35 tracks of 16 sectors of 256 bytes. *)
Definition FULL_GEOMETRY : Z := 143360.

(** How many of the low [width] bits of [n] are set. *)
Definition popcount (width n : Z) : Z :=
  len (filter (Z.testbit n) (range 0 width 1)).

(** The set bits of the first [nbytes] bytes of the free-sector bitmap of
    a track. *)
Definition bitmap_bits (nbytes : Z) (vtoc_buffer : bytes) (track : Z) : Z :=
  sum (map (fun k => popcount 8 (byte_at vtoc_buffer (0x38 + 4 * track + k)))
           (range 0 nbytes 1)).

Definition bitmap_total (nbytes : Z) (vtoc_buffer : bytes) : Z :=
  sum (map (bitmap_bits nbytes vtoc_buffer) (range 0 35 1)).

(** The image with the bytes from [offset] on replaced by [new]. *)
Definition poke (image : bytes) (offset : Z) (new : bytes) : bytes :=
  firstn (Z.to_nat offset) image ++ new
    ++ skipn (Z.to_nat offset + List.length new) image.

(** The six pairs of [VTOC.VALIDATION] all match a buffer. *)
Definition checks_match (vtoc_buffer : bytes) : Prop :=
  Forall (fun c => getitem vtoc_buffer (fst c) = Ok (snd c)) VTOC.VALIDATION.

(** Calling back on each item in turn, until an answer is true. *)
Fixpoint call_until {S A R : Type} (callback : A -> M S (option R)) (items : list A)
  : M S (option R) :=
  match items with
  | [] => ret None
  | x :: rest =>
      result <- callback x ;;
      match result with
      | Some v => ret (Some v)
      | None => call_until callback rest
      end
  end.

(** A callback that keeps what it is given and answers false. *)
Definition record_entry {R : Type} (e : Catalog.entry)
  : M (Disk.world (list Catalog.entry)) (option R) :=
  Disk.on_user (fun seen => (Ok None, seen ++ [e])).

(** The seven slots of a catalog sector. *)
Definition catalog_slots : list Z := [0x0B; 0x2E; 0x51; 0x74; 0x97; 0xBA; 0xDD].

(** The slot at [i] is in use: its first byte is not 0xFF and its fourth
    byte, the first of the name, is not zero. *)
Definition slot_live (catalog_sector : bytes) (i : Z) : bool :=
  negb (byte_at catalog_sector i =? 0xFF)
  && negb (byte_at catalog_sector (i + 3) =? 0x00).

(** The same with the third byte, which holds the lock flag and the file
    type, in place of the fourth. *)
Definition slot_live_by_type (catalog_sector : bytes) (i : Z) : bool :=
  negb (byte_at catalog_sector i =? 0xFF)
  && negb (byte_at catalog_sector (i + 2) =? 0x00).

(** The entry stored in the slot at [i]. *)
Definition slot_entry (catalog_sector : bytes) (i : Z) : Catalog.entry :=
  Catalog.Entry
    (byte_at catalog_sector i)
    (byte_at catalog_sector (i + 1))
    (Z.land (byte_at catalog_sector (i + 2)) 0x80)
    (Z.land (byte_at catalog_sector (i + 2)) 0x7F)
    (byte_at catalog_sector (i + 0x21) + byte_at catalog_sector (i + 0x22) * 0x100)
    (string_of_list_ascii
       (map (fun j => chr (Z.land (byte_at catalog_sector (i + j)) 0x7F))
            (range 0x03 0x21 1))).

(** A Python callback: given its argument and its own state it returns a
    value or raises, and it leaves the image file alone. *)
Definition python_callback {U A B : Type} (f : A -> U -> (B + exn) * U)
  : A -> M (Disk.world U) B :=
  fun a => Disk.on_user (fun u =>
    match f a u with
    | (inl b, u') => (Ok b, u')
    | (inr e, u') => (Raise e, u')
    end).

(** The same callback, keeping count of its calls beside its state. *)
Definition counting {U A B : Type} (f : A -> U -> (B + exn) * U)
  : A -> U * Z -> (B + exn) * (U * Z) :=
  fun a un => let (r, u') := f a (fst un) in (r, (u', snd un + 1)).

(** A consumer of sector payloads that returns nothing and never raises. *)
Definition consumer {U : Type} (f : bytes -> U -> U) : bytes -> M (Disk.world U) unit :=
  fun sector_data => Disk.on_user (fun u => (Ok tt, f sector_data u)).

(** How many reads a log of file operations holds. *)
Definition reads (log : list Disk.io_event) : Z :=
  len (filter (fun ev => match ev with Disk.EvRead _ => true | _ => false end) log).

(** A computation that needs no more iterations than it was given. *)
Definition terminates {S A : Type} (m : M S A) : Prop :=
  forall s, fst (m s) <> OutOfFuel.

Definition in_geometry (ts : Z * Z) : bool :=
  (0 <=? fst ts) && (fst ts <? 35) && (0 <=? snd ts) && (snd ts <? 16).

(** The session after sector [(track, sector)] of a full image was read. *)
Definition after_read {U : Type} (w : Disk.world U) (track sector : Z) : Disk.world U :=
  Disk.World (sector_offset track sector + 256)
    (Disk.oplog w ++ [Disk.EvSeek (sector_offset track sector); Disk.EvRead 256])
    (Disk.user w).

(** The first [n] sectors of the chain that starts at [(track, sector)]:
    bytes 1 and 2 of a sector point at the next one, and the chain ends
    at the first pointer whose track is 0. *)
Fixpoint chain (image : bytes) (n : nat) (track sector : Z) : list (Z * Z) :=
  match n with
  | O => []
  | S n' =>
      if track =? 0 then []
      else (track, sector)
             :: chain image n' (byte_at (sector_at image track sector) 1)
                               (byte_at (sector_at image track sector) 2)
  end.

(** The pairs of a track/sector list sector, from offset 0x0C on, up to
    the first pair (0, 0). *)
Definition pair_at (tsl : bytes) (i : Z) : Z * Z :=
  (byte_at tsl i, byte_at tsl (i + 1)).

Fixpoint before_zero (pairs : list (Z * Z)) : list (Z * Z) :=
  match pairs with
  | [] => []
  | p :: rest =>
      if (fst p =? 0) && (snd p =? 0) then [] else p :: before_zero rest
  end.

Definition data_pointers (tsl : bytes) : list (Z * Z) :=
  before_zero (map (pair_at tsl) (range 0x0C 0xFF 0x02)).

(** The data sectors a file refers to, in the order of its chain of
    track/sector list sectors and, within each, of its pairs. *)
Definition file_pointers (image : bytes) (n : nat) (track sector : Z) : list (Z * Z) :=
  flat_map (fun ts => data_pointers (sector_at image (fst ts) (snd ts)))
           (chain image n track sector).

(** A computation that asks nothing of the image file. *)
Definition keeps_log {U A : Type} (m : M (Disk.world U) A) : Prop :=
  forall w, Disk.oplog (snd (m w)) = Disk.oplog w.

(** Sector reads that were not followed by a counted call. *)
Definition uncounted_reads {U : Type} (w : Disk.world (U * Z)) : Z :=
  reads (Disk.oplog w) - snd (Disk.user w).

(** The sectors pointed at, and handing them one after the other to a
    consumer. *)
Definition payloads (image : bytes) (pointers : list (Z * Z)) : list bytes :=
  map (fun p => sector_at image (fst p) (snd p)) pointers.

Definition deliver {U : Type} (f : bytes -> U -> U) (sectors : list bytes) (u : U) : U :=
  fold_left (fun u d => f d u) sectors u.

(** The most sectors of a chain a walk can read. *)
Definition HOP_LIMIT : nat := 559.

(** The offsets a log of file operations seeks to. *)
Definition seeks (log : list Disk.io_event) : list Z :=
  flat_map (fun ev => match ev with Disk.EvSeek offset => [offset] | _ => [] end) log.

(** A [Detokenize] object whose index lies within its data, and the bytes
    it has still to read: the variant of its two loops. *)
Definition within (st : Applesoft.detok) : Prop :=
  0 <= Applesoft.index st <= len (Applesoft.data st).

Definition remaining (st : Applesoft.detok) : Z :=
  len (Applesoft.data st) - Applesoft.index st.

(** The entries a catalog sector holds, in slot order, and those of the
    first [n] sectors of the catalog chain from [(track, sector)]. *)
Definition sector_entries (catalog_sector : bytes) : list Catalog.entry :=
  map (slot_entry catalog_sector) (filter (slot_live catalog_sector) catalog_slots).

Definition catalog_entries (image : bytes) (n : nat) (track sector : Z)
  : list Catalog.entry :=
  flat_map (fun ts => sector_entries (sector_at image (fst ts) (snd ts)))
           (chain image n track sector).

(** What the callback of [dump] answers for an entry that matches. *)
Definition found (e : Catalog.entry) : Z * Z * Z :=
  (Catalog.ts_list_start_track e, Catalog.ts_list_start_sector e, Catalog.file_type e).

(** The first two steps of [dump]: the VTOC, then the walk of the catalog
    for the name. *)
Definition lookup (image : bytes) (file_name : string)
  : M (Disk.world Dump.session) (option (Z * Z * Z)) :=
  vtoc_buffer <- VTOC.init image ;;
  Catalog.walk_entries image (fun e => ret (Dump.find_entry file_name e)) vtoc_buffer.

(** A computation that leaves the state of the callbacks alone. *)
Definition keeps_user {U A : Type} (m : M (Disk.world U) A) : Prop :=
  forall w, Disk.user (snd (m w)) = Disk.user w.

(** A log made of reads of whole sectors: a seek to each offset, each
    followed by a read of 256 bytes. *)
Definition sector_reads (offsets : list Z) : list Disk.io_event :=
  flat_map (fun offset => [Disk.EvSeek offset; Disk.EvRead 256]) offsets.

(** An offset at which a sector of the geometry starts. *)
Definition on_a_sector (offset : Z) : bool :=
  (offset mod 256 =? 0) && (0 <=? offset) && (offset <? FULL_GEOMETRY).

(** A computation that asks of the image file reads of whole sectors only. *)
Definition reads_sectors {U A : Type} (m : M (Disk.world U) A) : Prop :=
  forall w, exists offsets,
    Disk.oplog (snd (m w)) = Disk.oplog w ++ sector_reads offsets
    /\ forallb on_a_sector offsets = true.

(** The text the text handler writes for a run of bytes: a line break
    for 0x8D, and for any other byte the character of its low seven bits. *)
Fixpoint text_of (sector_data : bytes) : string :=
  match sector_data with
  | [] => EmptyString
  | b :: rest =>
      (if byte_val b =? 0x8D then Applesoft.newline
       else String (chr (Z.land (byte_val b) 0x7F)) EmptyString)
      ++ text_of rest
  end.

(** A computation that returns having written [k] more characters and
    touched nothing else; and one that returns or raises IndexError. *)
Definition appends (k : nat) (m : M Dump.session unit) : Prop :=
  forall u, exists text,
    m u = (Ok tt, Dump.Session (Dump.stdout u ++ text) (Dump.data u))
    /\ String.length text = k.

Definition index_error_only {S : Type} (m : M S unit) : Prop :=
  forall s, fst (m s) = Ok tt \/ fst (m s) = Raise IndexError.

(** A line of a tokenized program as it lies in a file: the two bytes of
    the pointer to the next line, the two bytes of the line number, the
    bytes of the line; a zero byte ends it. *)
Record basic_line : Type := BasicLine {
  line_memory_lo : byte;
  line_memory_hi : byte;
  line_number_lo : byte;
  line_number_hi : byte;
  line_body : bytes
}.

Definition encode_line (l : basic_line) : bytes :=
  [line_memory_lo l; line_memory_hi l; line_number_lo l; line_number_hi l] ++ line_body l ++ [x00].

Definition encode_lines (lines : list basic_line) : bytes :=
  List.concat (map encode_line lines).

(** A byte the loop over a line writes something for: one that is not
    zero, and is a character code up to 0x7F or a key of the token table. *)
Definition listable (b : byte) : bool :=
  negb (byte_val b =? 0)
  && ((byte_val b <=? 0x7F)
      || match Applesoft.lookup (byte_val b) Applesoft.TOKENS with
         | Some _ => true
         | None => false
         end).

(** The text of a listable byte, of a run of them, of a line and of a
    program. *)
Definition byte_listing (b : byte) : string :=
  if byte_val b <=? 0x7F then String (chr (byte_val b)) EmptyString
  else match Applesoft.lookup (byte_val b) Applesoft.TOKENS with
       | Some keyword => " " ++ keyword ++ " "
       | None => EmptyString
       end.

Fixpoint body_listing (body : bytes) : string :=
  match body with
  | [] => EmptyString
  | b :: rest => byte_listing b ++ body_listing rest
  end.

Definition number_of_line (l : basic_line) : Z :=
  byte_val (line_number_lo l) + 0x100 * byte_val (line_number_hi l).

Definition line_heading (l : basic_line) : string :=
  Applesoft.format_int (number_of_line l) ++ " ".

Definition line_listing (l : basic_line) : string :=
  line_heading l ++ body_listing (line_body l) ++ Applesoft.newline.

Fixpoint program_listing (lines : list basic_line) : string :=
  match lines with
  | [] => EmptyString
  | l :: rest => line_listing l ++ program_listing rest
  end.

(** The subscripts at which the lines of a program start, when the first
    starts at [p]. *)
Fixpoint line_starts (p : Z) (lines : list basic_line) : list Z :=
  match lines with
  | [] => []
  | l :: rest => p :: line_starts (p + len (encode_line l)) rest
  end.

(** How a line ends at the first byte that is not listable: with the zero
    byte and a line break; with a byte that is no key, and KeyError; or
    with the end of the data, and IndexError. *)
Definition line_end (tail : bytes) : result unit * Z * string :=
  match tail with
  | [] => (Raise IndexError, 0, EmptyString)
  | b :: _ =>
      if byte_val b =? 0 then (Ok tt, 1, Applesoft.newline)
      else (Raise (KeyError (byte_val b)), 1, EmptyString)
  end.

Definition ends_run (tail : bytes) : bool :=
  match tail with
  | [] => true
  | b :: _ => negb (listable b)
  end.

(** The line [catalog] prints for an entry whose type has a letter. *)
Definition entry_line (e : Catalog.entry) : option string :=
  let lock := if negb (Catalog.locked e =? 0) then "*"%string else " "%string in
  match Applesoft.lookup (Catalog.file_type e) Command.FILE_TYPES with
  | Some code =>
      Some ((" " ++ lock ++ code ++ " " ++ Command.format_03 (Catalog.size e)
               ++ " " ++ Catalog.name e) ++ Applesoft.newline)%string
  | None => None
  end.

(** The lines for the entries that come before the first whose type has
    no letter, and the type of that one. *)
Fixpoint catalog_lines (entries : list Catalog.entry) : string * option Z :=
  match entries with
  | [] => (EmptyString, None)
  | e :: rest =>
      match entry_line e with
      | Some line => let (text, stop) := catalog_lines rest in ((line ++ text)%string, stop)
      | None => (EmptyString, Some (Catalog.file_type e))
      end
  end.

(** The three lines [catalog] prints first. *)
Definition catalog_heading (vtoc_buffer : bytes) : string :=
  (Applesoft.newline
   ++ ("Disk Volume " ++ Applesoft.format_int (byte_at vtoc_buffer 6)
         ++ ", Free Blocks: " ++ Applesoft.format_int (bitmap_total 2 vtoc_buffer))
   ++ Applesoft.newline ++ Applesoft.newline)%string.

(** The log of reads of whole sectors, one for each pointer in turn. *)
Definition sector_log (pointers : list (Z * Z)) : list Disk.io_event :=
  sector_reads (map (fun p => sector_offset (fst p) (snd p)) pointers).

(** The sectors a walk of a file reads along the first [n] sectors of its
    chain: each track/sector list sector, then the data sectors it points
    at, then the next. *)
Definition file_sectors (image : bytes) (n : nat) (track sector : Z) : list (Z * Z) :=
  flat_map (fun ts => ts :: data_pointers (sector_at image (fst ts) (snd ts)))
           (chain image n track sector).

(** The ways a walk of the catalog can end, for a callback [f]: at a
    pointer whose track is zero, with nothing; on a true answer of the
    callback, with that answer; or on an error, which is the hop error,
    that of a sector read the file refused, that of a sector too short for
    the subscript, or one the callback raised. *)
Definition walk_entries_end {U R : Type}
  (f : Catalog.entry -> U -> (option R + exn) * U) (r : result (option R)) : Prop :=
  match r with
  | Ok None => True
  | Ok (Some v) => exists e u, fst (f e u) = inl (Some v)
  | Raise x =>
      In x [ExceededCatalogHops; SeekOutOfRange; OSError; IndexError]
      \/ exists e u, fst (f e u) = inr x
  | OutOfFuel => False
  end.

(** The same for a walk of a file; a track/sector list sector too short
    for a pair gives ValueError. *)
Definition walk_sectors_end {U : Type}
  (g : bytes -> U -> (unit + exn) * U) (r : result unit) : Prop :=
  match r with
  | Ok _ => True
  | Raise x =>
      In x [ExceededTSListHops; SeekOutOfRange; OSError; IndexError; ValueError]
      \/ exists d u, fst (g d u) = inr x
  | OutOfFuel => False
  end.

(** ** Images to run the program on *)

Definition byte_of (z : Z) : byte :=
  match Byte.of_N (Z.to_N z) with
  | Some b => b
  | None => x00
  end.

Definition bytes_of (l : list Z) : bytes := map byte_of l.

Definition blank (size : Z) : bytes := repeat x00 (Z.to_nat size).

Definition filled (size d : Z) : bytes := repeat (byte_of d) (Z.to_nat size).

(** A session that has done nothing yet. *)
Definition start {U : Type} (u : U) : Disk.world U := Disk.World 0 [] u.

(** A blank image whose sector (0, 15) is filled with 0xE5. *)
Definition image_marked : bytes :=
  poke (blank FULL_GEOMETRY) (sector_offset 0 15) (filled 256 0xE5).

(** A VTOC sector: the six bytes that are checked, the catalog at
    (0x11, 0x0F), volume 254, and the given four bytes as the bitmap of
    every track. *)
Definition vtoc_sector (b0 b1 b2 b3 : Z) : bytes :=
  bytes_of ([0x04; 0x11; 0x0F; 0x03; 0x00; 0x00; 0xFE]
            ++ repeat 0 32%nat ++ [0x7A] ++ repeat 0 12%nat
            ++ [0x23; 0x10; 0x00; 0x01]
            ++ List.concat (repeat [b0; b1; b2; b3] 35%nat)
            ++ repeat 0 60%nat).

(** A bitmap whose set bits are all in its last two bytes. *)
Definition vtoc_low_bits : bytes := vtoc_sector 0x00 0x00 0xFF 0xFF.

(** A full image whose only content is a valid VTOC, every bitmap FF FF
    00 00; the catalog it points at, sector (0x11, 0x0F), is blank. *)
Definition image_vtoc_only : bytes :=
  poke (blank FULL_GEOMETRY) (sector_offset 0x11 0x00) (vtoc_sector 0xFF 0xFF 0x00 0x00).

(** The bytes of a text, each with its high bit set, as DOS stores names. *)
Definition high_ascii (s : string) : list Z :=
  map (fun c => Z.lor (Z.of_N (N_of_ascii c)) 0x80) (list_ascii_of_string s).

(** A catalog slot: track and sector of the track/sector list, the byte of
    lock flag and type, the 30 bytes of the name, the size. *)
Definition slot (track sector type : Z) (name : list Z) (size : Z) : list Z :=
  [track; sector; type] ++ name ++ repeat 0xA0 (30 - List.length name)
    ++ [size mod 256; size / 256].

(** A catalog sector with the given next pointer and slots. *)
Definition catalog_sector (next_track next_sector : Z) (slots : list (list Z)) : bytes :=
  let body := [0x00; next_track; next_sector] ++ repeat 0 8%nat ++ List.concat slots in
  bytes_of (body ++ repeat 0 (256 - List.length body)).

(** Slot 0x0B: a text file, unlocked, so that its type byte is 0x00.
    Slot 0x2E: type byte 0x02, and a name that starts with a zero byte. *)
Definition sector_type_zero : bytes :=
  catalog_sector 0x00 0x00
    [ slot 0x12 0x0F 0x00 (high_ascii "NOTES") 0x02;
      slot 0x13 0x0F 0x02 (0x00 :: high_ascii "ELLO") 0x03 ].

(** A track/sector list sector with the given next pointer and pairs. *)
Definition ts_list_sector (next_track next_sector : Z) (pairs : list (Z * Z)) : bytes :=
  let body := [0x00; next_track; next_sector] ++ repeat 0 9%nat
              ++ flat_map (fun p => [fst p; snd p]) pairs in
  bytes_of (body ++ repeat 0 (256 - List.length body)).

(** An image with the given sectors put at their places. *)
Fixpoint place (image : bytes) (sectors : list (Z * Z * bytes)) : bytes :=
  match sectors with
  | [] => image
  | (track, sector, content) :: rest =>
      place (poke image (sector_offset track sector) content) rest
  end.

(** Two chains that never end: the catalog sector (0x11, 0x0F) and the
    track/sector list sector (0x12, 0x0F) each point at themselves. *)
Definition image_cyclic : bytes :=
  place (blank FULL_GEOMETRY)
    [ (0x11, 0x00, vtoc_sector 0xFF 0xFF 0x00 0x00);
      (0x11, 0x0F, catalog_sector 0x11 0x0F []);
      (0x12, 0x0F, ts_list_sector 0x12 0x0F []) ].

(** A consumer that counts the sectors it is given. *)
Definition count_sectors : bytes -> M (Disk.world Z) unit :=
  consumer (fun _ n => n + 1).

(** A consumer that keeps the first byte of each sector it is given. *)
Definition first_bytes : bytes -> M (Disk.world (list Z)) unit :=
  consumer (fun sector_data seen => seen ++ [byte_at sector_data 0]).

(** A disk with three files.  The catalog is two sectors long and its
    second sector points on to (0, 5), a track of zero with a sector that
    is not; so does the track/sector list of NOTES, to (0, 7).  Both
    sectors hold what a further sector of the chain would.  The
    track/sector list of HELLO is two sectors long; in its first sector a
    pair follows the pair (0, 0). *)
Definition image_demo : bytes :=
  place (blank FULL_GEOMETRY)
    [ (0x11, 0x00, vtoc_sector 0xFF 0xFF 0x00 0x00);
      (0x11, 0x0F, catalog_sector 0x11 0x0E
         [ slot 0x12 0x0F 0x82 (high_ascii "HELLO") 0x04;
           slot 0xFF 0x0F 0x02 (high_ascii "GONE") 0x02;
           slot 0x13 0x0F 0x00 (high_ascii "NOTES") 0x02 ]);
      (0x11, 0x0E, catalog_sector 0x00 0x05
         [ slot 0x14 0x0F 0x04 (high_ascii "DATA") 0x02 ]);
      (0x00, 0x05, catalog_sector 0x00 0x00
         [ slot 0x15 0x0F 0x02 (high_ascii "GHOST") 0x02 ]);
      (0x12, 0x0F, ts_list_sector 0x12 0x0C
         [ (0x12, 0x0E); (0x12, 0x0D); (0x00, 0x00); (0x12, 0x0B) ]);
      (0x12, 0x0C, ts_list_sector 0x00 0x00 [ (0x12, 0x0A) ]);
      (0x12, 0x0E, filled 256 0xD1);
      (0x12, 0x0D, filled 256 0xD2);
      (0x12, 0x0B, filled 256 0xD3);
      (0x12, 0x0A, filled 256 0xD4);
      (0x13, 0x0F, ts_list_sector 0x00 0x07 [ (0x13, 0x0E) ]);
      (0x00, 0x07, ts_list_sector 0x00 0x00 [ (0x13, 0x0D) ]);
      (0x13, 0x0E, filled 256 0xC1);
      (0x13, 0x0D, filled 256 0xC2) ].

(** Walking the catalog of an image from where its VTOC sector points:
    how the walk ends, the offsets it seeks to, the names it yields. *)
Definition catalog_run (image : bytes)
  : result (option unit) * list Z * list string :=
  let r := Catalog.walk_entries image (@record_entry unit)
             (sector_at image 0x11 0x00) (start []) in
  (fst r, seeks (Disk.oplog (snd r)), map Catalog.name (Disk.user (snd r))).

(** Walking a file: how the walk ends, the offsets it seeks to, the first
    byte of each sector it delivers. *)
Definition file_run (image : bytes) (track sector : Z)
  : result unit * list Z * list Z :=
  let r := Files.walk_sectors image first_bytes track sector (start []) in
  (fst r, seeks (Disk.oplog (snd r)), Disk.user (snd r)).

(** A name of 31 characters. *)
Definition long_name : string := "HELLO                          ".

(** A session of [dump] that has written nothing yet. *)
Definition fresh : Disk.world Dump.session := start (Dump.Session EmptyString []).

(** The double quote. *)
Definition quote : ascii := chr 34.

(** A tokenized program of one line: the total length, then the pointer
    to the next line, the line number 10 and the line PRINT "HI". *)
Definition program_hi (length_lo length_hi memory_lo memory_hi : byte) : bytes :=
  [length_lo; length_hi; memory_lo; memory_hi]
    ++ bytes_of [0x0A; 0x00; 0xBA; 0x20; 0x22; 0x48; 0x49; 0x22; 0x00].

(** What [detokenize] writes for it, and the text with single spaces. *)
Definition listing_hi : string :=
  "10  PRINT  " ++ String quote ("HI" ++ String quote Applesoft.newline).

Definition listing_hi_single_spaces : string :=
  "10 PRINT " ++ String quote ("HI" ++ String quote Applesoft.newline).

(** A program of one line, number 10, whose only byte is [d]. *)
Definition program_byte (d : byte) : bytes :=
  bytes_of [0x08; 0x00; 0x01; 0x08; 0x0A; 0x00] ++ [d; x00].

(** An image that stops 100 bytes into its first sector. *)
Definition image_100 : bytes := filled 100 0xAA.

(** A disk with one Applesoft file, HELLO, of one data sector: the
    program 10 PRINT "HI". *)
Definition image_basic : bytes :=
  place (blank FULL_GEOMETRY)
    [ (0x11, 0x00, vtoc_sector 0xFF 0xFF 0x00 0x00);
      (0x11, 0x0F, catalog_sector 0x00 0x00
         [ slot 0x12 0x0F 0x02 (high_ascii "HELLO") 0x02 ]);
      (0x12, 0x0F, ts_list_sector 0x00 0x00 [ (0x12, 0x0E) ]);
      (0x12, 0x0E, program_hi x0d x00 x01 x08 ++ blank 243) ].

(** What [catalog] prints for the demonstration image. *)
Definition catalog_demo_listing : string :=
  (Applesoft.newline
   ++ "Disk Volume 254, Free Blocks: 560" ++ Applesoft.newline
   ++ Applesoft.newline
   ++ " *A 004 " ++ Dump.format_30s "HELLO" ++ Applesoft.newline
   ++ "  T 002 " ++ Dump.format_30s "NOTES" ++ Applesoft.newline
   ++ "  B 002 " ++ Dump.format_30s "DATA" ++ Applesoft.newline
   ++ Applesoft.newline)%string.

(** A disk with one binary file, DATA, of one data sector. *)
Definition image_binary : bytes :=
  place (blank FULL_GEOMETRY)
    [ (0x11, 0x00, vtoc_sector 0xFF 0xFF 0x00 0x00);
      (0x11, 0x0F, catalog_sector 0x00 0x00
         [ slot 0x12 0x0F 0x04 (high_ascii "DATA") 0x02 ]);
      (0x12, 0x0F, ts_list_sector 0x00 0x00 [ (0x12, 0x0E) ]);
      (0x12, 0x0E, filled 256 0xC1) ].

(* ================================================================= *)
(** * Part III: the properties *)
(* ================================================================= *)

(** ** Sequences *)

Lemma byte_val_range (b : byte) : 0 <= byte_val b < 256.
Proof.
  unfold byte_val. pose proof (Byte.to_N_bounded b). lia.
Qed.

Lemma byte_val_inj (a b : byte) : byte_val a = byte_val b -> a = b.
Proof.
  unfold byte_val. intros H. apply N2Z.inj in H.
  pose proof (Byte.of_to_N a) as Ha. pose proof (Byte.of_to_N b) as Hb.
  rewrite H in Ha. congruence.
Qed.

Lemma getitem_nth_error (buff : bytes) (i : Z) (b : byte) :
  0 <= i -> nth_error buff (Z.to_nat i) = Some b ->
  getitem buff i = Ok (byte_val b).
Proof.
  intros Hi Hn. unfold getitem.
  destruct (Z.ltb_spec i 0); [lia|].
  destruct (Z.ltb_spec i 0); [lia|].
  rewrite Hn. reflexivity.
Qed.

Lemma getitem_byte_at (buff : bytes) (i : Z) :
  0 <= i < len buff -> getitem buff i = Ok (byte_at buff i).
Proof.
  intros [Hi Hl]. unfold len in Hl.
  destruct (nth_error buff (Z.to_nat i)) as [b|] eqn:E.
  - rewrite (getitem_nth_error _ _ _ Hi E). unfold byte_at.
    rewrite (nth_error_nth _ _ _ E). reflexivity.
  - apply nth_error_None in E. lia.
Qed.

Lemma getitem_past_end (buff : bytes) (i : Z) :
  len buff <= i -> getitem buff i = Raise IndexError.
Proof.
  intros Hl. unfold len in Hl. unfold getitem.
  destruct (Z.ltb_spec i 0); [lia|].
  destruct (Z.ltb_spec i 0); [lia|].
  destruct (nth_error buff (Z.to_nat i)) eqn:E; [|reflexivity].
  assert (nth_error buff (Z.to_nat i) <> None) by congruence.
  apply nth_error_Some in H1. lia.
Qed.

Lemma getitem_Ok_inv (buff : bytes) (i v : Z) :
  0 <= i -> getitem buff i = Ok v -> i < len buff /\ v = byte_at buff i.
Proof.
  intros Hi H. destruct (Z.lt_ge_cases i (len buff)) as [Hl|Hl].
  - rewrite getitem_byte_at in H by lia. split; [lia | congruence].
  - rewrite getitem_past_end in H by lia. discriminate.
Qed.

Lemma byte_at_range (buff : bytes) (i : Z) : 0 <= byte_at buff i < 256.
Proof. apply byte_val_range. Qed.

Lemma len_slice (buff : bytes) (i j : Z) :
  0 <= i -> i <= j -> j <= len buff -> len (slice buff i j) = j - i.
Proof.
  unfold len, slice. intros. rewrite length_firstn, length_skipn. lia.
Qed.

Lemma byte_at_slice (buff : bytes) (i j k : Z) :
  0 <= i -> 0 <= k < j - i -> byte_at (slice buff i j) k = byte_at buff (i + k).
Proof.
  intros Hi Hk. unfold byte_at, slice. f_equal.
  rewrite nth_firstn, nth_skipn.
  destruct (Nat.ltb_spec (Z.to_nat k) (Z.to_nat (j - i))); [|lia].
  f_equal. lia.
Qed.

(** ** Disk.read_sect *)

Lemma len_sector_at (image : bytes) (track sector : Z) :
  0 <= track -> 0 <= sector ->
  sector_offset track sector + 256 <= len image ->
  len (sector_at image track sector) = 256.
Proof.
  intros Ht Hs Hl. unfold sector_at.
  rewrite len_slice; unfold sector_offset in *; lia.
Qed.

Lemma read_sect_ok (image : bytes) (U : Type) (w : Disk.world U) (track sector : Z) :
  0 <= track < 35 -> 0 <= sector < 16 ->
  Disk.read_sect image track sector w =
    (Ok (sector_at image track sector),
     Disk.World (sector_offset track sector + len (sector_at image track sector))
       (Disk.oplog w ++ [Disk.EvSeek (sector_offset track sector); Disk.EvRead 256])
       (Disk.user w)).
Proof.
  intros Ht Hs.
  unfold Disk.read_sect, Disk.seek_sect, bind, Disk.file_seek, Disk.file_read, raise.
  unfold Disk.TRACKS_PER_DISK, Disk.SECTORS_PER_TRACK, Disk.SECTOR_SIZE.
  destruct (Z.geb_spec track 35); [lia|].
  destruct (Z.geb_spec sector 16); [lia|].
  cbn [orb].
  fold (sector_offset track sector).
  destruct (Z.ltb_spec (sector_offset track sector) 0) as [H1|H1];
    [unfold sector_offset in H1; lia|].
  cbn [Disk.position Disk.oplog Disk.user].
  unfold sector_at, slice.
  replace (sector_offset track sector + 256 - sector_offset track sector) with 256 by lia.
  rewrite <- app_assoc. reflexivity.
Qed.

Lemma read_sect_out_of_range (image : bytes) (U : Type) (w : Disk.world U) (track sector : Z) :
  35 <= track \/ 16 <= sector ->
  Disk.read_sect image track sector w = (Raise SeekOutOfRange, w).
Proof.
  intros H.
  unfold Disk.read_sect, Disk.seek_sect, bind, raise.
  unfold Disk.TRACKS_PER_DISK, Disk.SECTORS_PER_TRACK.
  destruct (Z.geb_spec track 35); destruct (Z.geb_spec sector 16);
    cbn [orb]; try reflexivity; lia.
Qed.

(** C8, as amended.  On an image of 143,360 bytes and for a track and a
    sector that are not negative: when track < 35 and sector < 16,
    [read_sect] returns the 256 bytes stored at offset
    (track*16 + sector)*256, whatever was done on the file before (one seek
    to that offset, one read of 256 bytes); otherwise it raises "seek out of
    range" and leaves the file untouched: no seek, no read. *)
Theorem read_sect_within_geometry
  (image : bytes) (U : Type) (w : Disk.world U) (track sector : Z) :
  len image = FULL_GEOMETRY -> 0 <= track -> 0 <= sector ->
  if (track <? 35) && (sector <? 16)
  then Disk.read_sect image track sector w =
         (Ok (sector_at image track sector),
          Disk.World (sector_offset track sector + 256)
            (Disk.oplog w ++ [Disk.EvSeek (sector_offset track sector); Disk.EvRead 256])
            (Disk.user w))
       /\ len (sector_at image track sector) = 256
  else Disk.read_sect image track sector w = (Raise SeekOutOfRange, w).
Proof.
  intros Hlen Ht Hs. unfold FULL_GEOMETRY in Hlen.
  destruct (Z.ltb_spec track 35) as [Ht'|Ht'];
    destruct (Z.ltb_spec sector 16) as [Hs'|Hs']; cbn [andb];
    try (apply read_sect_out_of_range; lia).
  assert (Hl : len (sector_at image track sector) = 256)
    by (apply len_sector_at; unfold sector_offset; lia).
  split; [|exact Hl].
  rewrite read_sect_ok by lia. rewrite Hl. reflexivity.
Qed.

Lemma read_sect_within_geometry_witness :
  len image_marked = FULL_GEOMETRY /\
  Disk.read_sect image_marked 0 15 (start tt) =
    (Ok (sector_at image_marked 0 15),
     Disk.World 4096 [Disk.EvSeek 3840; Disk.EvRead 256] tt) /\
  Disk.read_sect image_marked 35 0 (start tt) = (Raise SeekOutOfRange, start tt).
Proof.
  assert (H : len image_marked = FULL_GEOMETRY) by (vm_compute; reflexivity).
  split; [exact H|]. split.
  - apply (read_sect_within_geometry image_marked unit (start tt) 0 15 H); lia.
  - apply (read_sect_within_geometry image_marked unit (start tt) 35 0 H); lia.
Defined.

(** C8, as stated, fails below the geometry: a sector of -1 violates
    0 <= sector < 16, yet [read_sect 1 (-1)] raises nothing; it seeks to
    offset 3840 and returns the 256 bytes of sector (0, 15). *)
Lemma read_sect_negative_sector_wraps :
  ~ (0 <= -1 < 16) /\
  Disk.read_sect image_marked 1 (-1) (start tt) =
    (Ok (sector_at image_marked 0 15),
     Disk.World 4096 [Disk.EvSeek 3840; Disk.EvRead 256] tt) /\
  sector_at image_marked 0 15 = filled 256 0xE5.
Proof.
  split; [lia|]. split; vm_compute; reflexivity.
Qed.

(** ** VTOC.free_sectors *)

Lemma in_range_iff (n x : Z) : 0 <= n -> In x (range 0 n 1) <-> 0 <= x < n.
Proof.
  intros Hn. unfold range. rewrite in_map_iff.
  replace ((n - 0 + 1 - 1) / 1) with n by (rewrite Z.div_1_r; lia).
  split.
  - intros [k [Hk Hin]]. apply in_seq in Hin. lia.
  - intros Hx. exists (Z.to_nat x). split; [lia|]. apply in_seq. lia.
Qed.

Lemma sum_map_const {A : Type} (f : A -> Z) (c : Z) (l : list A) :
  (forall x, In x l -> f x = c) -> sum (map f l) = c * len l.
Proof.
  unfold len. induction l as [|a l IH]; intros H.
  - simpl. lia.
  - cbn [map sum fold_right List.length]. fold (sum (map f l)).
    rewrite IH by (intros; apply H; right; assumption).
    rewrite (H a) by (left; reflexivity). lia.
Qed.

(** The 16 tests of [bit_count] on a big-endian word count the set bits of
    its two bytes: checked on every pair of bytes. *)
Lemma bit_count_check :
  forallb (fun hi =>
    forallb (fun lo => bit_count (hi * 0x100 + lo) =? popcount 8 hi + popcount 8 lo)
            (range 0 256 1))
    (range 0 256 1) = true.
Proof. vm_compute. reflexivity. Qed.

Lemma bit_count_word (hi lo : Z) :
  0 <= hi < 256 -> 0 <= lo < 256 ->
  bit_count (hi * 0x100 + lo) = popcount 8 hi + popcount 8 lo.
Proof.
  intros Hhi Hlo. pose proof bit_count_check as H.
  rewrite forallb_forall in H.
  specialize (H hi (proj2 (in_range_iff 256 hi ltac:(lia)) Hhi)).
  rewrite forallb_forall in H.
  specialize (H lo (proj2 (in_range_iff 256 lo ltac:(lia)) Hlo)).
  apply Z.eqb_eq. exact H.
Qed.

Lemma bitmap_bits_two (buff : bytes) (track : Z) :
  bitmap_bits 2 buff track =
    popcount 8 (byte_at buff (0x38 + 4 * track))
    + popcount 8 (byte_at buff (0x38 + 4 * track + 1)).
Proof.
  unfold bitmap_bits. change (range 0 2 1) with [0; 1].
  cbn [map sum fold_right]. rewrite Z.add_0_r. lia.
Qed.

Lemma track_map_word (buff : bytes) (track : Z) :
  0 <= track -> 0x38 + 4 * track + 1 < len buff ->
  VTOC.track_map buff track =
    Ok (byte_at buff (0x38 + 4 * track) * 0x100 + byte_at buff (0x38 + 4 * track + 1)).
Proof.
  intros Ht Hl. unfold VTOC.track_map, read_word_bigendian.
  unfold VTOC.TRACK_MAP_OFFSET, VTOC.TRACK_MAP_SIZE.
  replace (0x38 + track * 0x04) with (0x38 + 4 * track) by lia.
  rewrite !getitem_byte_at by lia. reflexivity.
Qed.

Lemma free_sectors_list_spec (buff : bytes) (tracks : list Z) :
  (forall t, In t tracks -> 0 <= t /\ 0x38 + 4 * t + 1 < len buff) ->
  VTOC.free_sectors_list buff tracks = Ok (map (bitmap_bits 2 buff) tracks).
Proof.
  induction tracks as [|t tracks IH]; intros H; [reflexivity|].
  cbn [VTOC.free_sectors_list map].
  destruct (H t (or_introl eq_refl)) as [Ht Hl].
  rewrite track_map_word by assumption. cbn [rbind].
  rewrite IH by (intros; apply H; right; assumption). cbn [rbind].
  rewrite bit_count_word by apply byte_at_range.
  rewrite bitmap_bits_two. reflexivity.
Qed.

(** C2, as amended.  For every VTOC sector of 256 bytes, the free-sector
    count is the sum, over the 35 tracks, of the set bits in the first two
    bytes of the track's four-byte bitmap (the 16-bit big-endian word at
    offset 0x38 + 4*track); the last two bytes are not read.  So it is 0
    when those bytes are all zero, and 560 (16 sectors on 35 tracks) when
    they are all 0xFF. *)
Theorem free_sectors_counts_two_bytes (vtoc_buffer : bytes) :
  len vtoc_buffer = 256 ->
  VTOC.free_sectors vtoc_buffer = Ok (bitmap_total 2 vtoc_buffer)
  /\ ((forall t k, 0 <= t < 35 -> 0 <= k < 2 ->
         byte_at vtoc_buffer (0x38 + 4 * t + k) = 0x00) ->
      VTOC.free_sectors vtoc_buffer = Ok 0)
  /\ ((forall t k, 0 <= t < 35 -> 0 <= k < 2 ->
         byte_at vtoc_buffer (0x38 + 4 * t + k) = 0xFF) ->
      VTOC.free_sectors vtoc_buffer = Ok 560).
Proof.
  intros Hlen.
  assert (E : VTOC.free_sectors vtoc_buffer = Ok (bitmap_total 2 vtoc_buffer)).
  { unfold VTOC.free_sectors, bitmap_total, Disk.TRACKS_PER_DISK.
    rewrite free_sectors_list_spec; [reflexivity|].
    intros t Ht. apply in_range_iff in Ht; lia. }
  split; [exact E|].
  split; intros H; rewrite E; f_equal; unfold bitmap_total.
  - rewrite (sum_map_const _ 0); [lia|].
    intros t Ht. apply in_range_iff in Ht; [|lia].
    rewrite bitmap_bits_two.
    replace (0x38 + 4 * t) with (0x38 + 4 * t + 0) at 1 by lia.
    rewrite !H by lia. reflexivity.
  - rewrite (sum_map_const _ 16); [vm_compute; reflexivity|].
    intros t Ht. apply in_range_iff in Ht; [|lia].
    rewrite bitmap_bits_two.
    replace (0x38 + 4 * t) with (0x38 + 4 * t + 0) at 1 by lia.
    rewrite !H by lia. reflexivity.
Qed.

Lemma free_sectors_counts_two_bytes_witness :
  len vtoc_low_bits = 256 /\
  VTOC.free_sectors vtoc_low_bits = Ok (bitmap_total 2 vtoc_low_bits) /\
  VTOC.free_sectors vtoc_low_bits = Ok 0.
Proof.
  assert (H : len vtoc_low_bits = 256) by (vm_compute; reflexivity).
  split; [exact H|].
  destruct (free_sectors_counts_two_bytes vtoc_low_bits H) as [E [Z0 _]].
  split; [exact E|].
  apply Z0. intros t k Ht Hk.
  assert (C : forallb (fun t => forallb (fun k =>
                byte_at vtoc_low_bits (0x38 + 4 * t + k) =? 0x00) (range 0 2 1))
              (range 0 35 1) = true) by (vm_compute; reflexivity).
  rewrite forallb_forall in C.
  specialize (C t (proj2 (in_range_iff 35 t ltac:(lia)) Ht)).
  rewrite forallb_forall in C.
  specialize (C k (proj2 (in_range_iff 2 k ltac:(lia)) Hk)).
  apply Z.eqb_eq. exact C.
Defined.

(** C2, as stated, fails: with the bitmap 00 00 FF FF on every track the
    four-byte bitmaps hold 560 set bits, and the count is 0. *)
Lemma free_sectors_ignores_low_bytes :
  len vtoc_low_bits = 256 /\
  bitmap_total 4 vtoc_low_bits = 560 /\
  VTOC.free_sectors vtoc_low_bits = Ok 0 /\
  VTOC.free_sectors vtoc_low_bits <> Ok (bitmap_total 4 vtoc_low_bits).
Proof.
  split; [|split; [|split]]; vm_compute; try reflexivity. discriminate.
Qed.

(** ** VTOC.validate *)

Lemma getitem_slice (buff : bytes) (i j k : Z) :
  0 <= i -> 0 <= k ->
  getitem (slice buff i j) k =
    if k <? j - i then getitem buff (i + k) else Raise IndexError.
Proof.
  intros Hi Hk. unfold getitem at 1, slice.
  destruct (Z.ltb_spec k 0); [lia|].
  destruct (Z.ltb_spec k 0); [lia|].
  rewrite nth_error_firstn, nth_error_skipn.
  destruct (Z.ltb_spec k (j - i)); destruct (Nat.ltb_spec (Z.to_nat k) (Z.to_nat (j - i)));
    try lia; [|reflexivity].
  unfold getitem.
  destruct (Z.ltb_spec (i + k) 0); [lia|].
  destruct (Z.ltb_spec (i + k) 0); [lia|].
  replace (Z.to_nat (i + k)) with (Z.to_nat i + Z.to_nat k)%nat by lia.
  reflexivity.
Qed.

Lemma getitem_poke (image : bytes) (p n : Z) (b : byte) :
  0 <= p < len image -> 0 <= n ->
  getitem (poke image p [b]) n =
    if n =? p then Ok (byte_val b) else getitem image n.
Proof.
  unfold len. intros Hp Hn. unfold getitem, poke.
  destruct (Z.ltb_spec n 0); [lia|].
  destruct (Z.ltb_spec n 0); [lia|].
  assert (Hf : List.length (firstn (Z.to_nat p) image) = Z.to_nat p)
    by (rewrite length_firstn; lia).
  destruct (Z.eqb_spec n p) as [->|Hne].
  - rewrite nth_error_app2 by lia. rewrite Hf, Nat.sub_diag. reflexivity.
  - destruct (Z.lt_ge_cases n p).
    + rewrite nth_error_app1 by lia.
      rewrite nth_error_firstn.
      destruct (Nat.ltb_spec (Z.to_nat n) (Z.to_nat p)); [reflexivity | lia].
    + rewrite nth_error_app2 by lia. rewrite Hf.
      rewrite nth_error_app2 by (simpl; lia).
      rewrite nth_error_skipn. cbn [List.length].
      replace (Z.to_nat p + 1 + (Z.to_nat n - Z.to_nat p - 1))%nat
        with (Z.to_nat n) by lia.
      reflexivity.
Qed.

Lemma validate_loop_Ok_iff (buff : bytes) (checks : list (Z * Z)) :
  VTOC.validate_loop buff checks = Ok tt <->
  Forall (fun c => getitem buff (fst c) = Ok (snd c)) checks.
Proof.
  induction checks as [|[offset value] rest IH]; cbn [VTOC.validate_loop].
  - split; [constructor | reflexivity].
  - split.
    + intros H. destruct (getitem buff offset) as [b| |] eqn:E; cbn [rbind] in H;
        try discriminate.
      destruct (Z.eqb_spec b value) as [->|]; cbn [negb] in H; [|discriminate].
      constructor; [exact E | apply IH; exact H].
    + intros H. inversion H as [|c l Hc Hl]; subst. cbn [fst snd] in Hc.
      rewrite Hc. cbn [rbind]. rewrite Z.eqb_refl. cbn [negb]. apply IH; exact Hl.
Qed.

Lemma validate_Ok_iff (buff : bytes) :
  VTOC.validate buff = Ok tt <-> checks_match buff.
Proof. apply validate_loop_Ok_iff. Qed.

(** Changing the byte one check reads, and no other, makes the loop raise
    at that check. *)
Lemma validate_loop_mutated (buff buff' : bytes) (c : Z * Z) (v : Z)
  (checks : list (Z * Z)) :
  NoDup (map fst checks) ->
  Forall (fun c => getitem buff (fst c) = Ok (snd c)) checks ->
  In c checks -> v <> snd c ->
  (forall j, In j (map fst checks) ->
     getitem buff' j = if j =? fst c then Ok v else getitem buff j) ->
  VTOC.validate_loop buff' checks = Raise NotDOS33.
Proof.
  induction checks as [|[offset value] rest IH]; intros Hnd Hall Hin Hv Hget.
  - contradiction.
  - cbn [VTOC.validate_loop].
    inversion Hnd as [|x l Hx Hnd']; subst.
    inversion Hall as [|x l Hc Hall']; subst. cbn [fst snd] in *.
    rewrite (Hget offset (or_introl eq_refl)).
    destruct Hin as [<-|Hin].
    + cbn [fst snd] in *. rewrite Z.eqb_refl. cbn [rbind].
      destruct (Z.eqb_spec v value); [contradiction | reflexivity].
    + destruct (Z.eqb_spec offset (fst c)) as [->|Hne].
      * exfalso. apply Hx. apply in_map. exact Hin.
      * rewrite Hc. cbn [rbind]. rewrite Z.eqb_refl. cbn [negb].
        apply IH; try assumption.
        intros j Hj. apply Hget. right. exact Hj.
Qed.

Lemma VTOC_init_unfold (image : bytes) (U : Type) (w : Disk.world U) :
  VTOC.init image w =
    let buff := sector_at image 0x11 0x00 in
    let w' := Disk.World (sector_offset 0x11 0x00 + len buff)
                (Disk.oplog w ++ [Disk.EvSeek (sector_offset 0x11 0x00); Disk.EvRead 256])
                (Disk.user w) in
    match VTOC.validate buff with
    | Ok _ => (Ok buff, w')
    | Raise e => (Raise e, w')
    | OutOfFuel => (OutOfFuel, w')
    end.
Proof.
  unfold VTOC.init, bind at 1, VTOC.TRACK, VTOC.SECTOR.
  rewrite read_sect_ok by lia. cbv zeta.
  unfold bind, lift, ret. destruct (VTOC.validate _); reflexivity.
Qed.

(** C6.  Constructing the VTOC succeeds exactly when the six checked bytes
    of sector (0x11, 0) are there and have their expected values; and on an
    image for which it succeeds, putting any other value in any one of the
    six bytes makes it raise "not an Apple DOS 3.3 disk". *)
Theorem VTOC_init_checks_six_bytes (image : bytes) (U : Type) (w : Disk.world U) :
  ((exists buff w', VTOC.init image w = (Ok buff, w')) <->
   checks_match (sector_at image 0x11 0x00))
  /\ (forall buff w' c b,
        VTOC.init image w = (Ok buff, w') ->
        In c VTOC.VALIDATION -> byte_val b <> snd c ->
        fst (VTOC.init (poke image (sector_offset 0x11 0x00 + fst c) [b]) w)
          = Raise NotDOS33).
Proof.
  assert (Hiff : (exists buff w', VTOC.init image w = (Ok buff, w')) <->
                 checks_match (sector_at image 0x11 0x00)).
  { rewrite <- validate_Ok_iff.
    rewrite VTOC_init_unfold. cbv zeta.
    destruct (VTOC.validate (sector_at image 0x11 0x00)) as [[]| |]; split;
      try reflexivity; try discriminate.
    - intros _. eauto.
    - intros (buff & w' & H). discriminate.
    - intros (buff & w' & H). discriminate. }
  split; [exact Hiff|].
  intros buff w' c b Hinit Hin Hb.
  assert (Hm : checks_match (sector_at image 0x11 0x00)) by (apply Hiff; eauto).
  rewrite VTOC_init_unfold. cbv zeta.
  unfold VTOC.validate.
  assert (Hoff : forall c', In c' VTOC.VALIDATION -> 0 <= fst c' < 256).
  { intros c' Hc'. cbv [VTOC.VALIDATION In] in Hc'.
    repeat (destruct Hc' as [<-|Hc']; [cbn; lia|]). contradiction. }
  assert (Hc : getitem (sector_at image 0x11 0x00) (fst c) = Ok (snd c)).
  { unfold checks_match in Hm. rewrite Forall_forall in Hm. apply Hm. exact Hin. }
  pose proof (Hoff c Hin) as Hco.
  unfold sector_at in Hc. rewrite getitem_slice in Hc by (unfold sector_offset; lia).
  destruct (Z.ltb_spec (fst c) (sector_offset 17 0 + 256 - sector_offset 17 0)); [|discriminate].
  apply getitem_Ok_inv in Hc; [|unfold sector_offset; lia].
  rewrite (validate_loop_mutated (sector_at image 0x11 0x00) _ c (byte_val b));
    try assumption; try reflexivity.
  - cbv [VTOC.VALIDATION map fst]. repeat constructor; cbv [In]; intuition discriminate.
  - intros j Hj. apply in_map_iff in Hj. destruct Hj as [c' [<- Hc']].
    pose proof (Hoff c' Hc') as Hc'o.
    unfold sector_at. rewrite !getitem_slice by (unfold sector_offset; lia).
    destruct (Z.ltb_spec (fst c') (sector_offset 17 0 + 256 - sector_offset 17 0)); [|lia].
    rewrite getitem_poke by (unfold sector_offset in *; lia).
    destruct (Z.eqb_spec (fst c') (fst c)); destruct (Z.eqb_spec (sector_offset 17 0 + fst c') (sector_offset 17 0 + fst c));
      try lia; reflexivity.
Qed.

Lemma VTOC_init_checks_six_bytes_witness :
  (exists buff w', VTOC.init image_vtoc_only (start tt) = (Ok buff, w')) /\
  fst (VTOC.init (poke image_vtoc_only (sector_offset 0x11 0x00 + 0x27) [x7b]) (start tt))
    = Raise NotDOS33.
Proof.
  destruct (VTOC.init image_vtoc_only (start tt)) as [r w'] eqn:E.
  assert (Hr : r = Ok (sector_at image_vtoc_only 0x11 0x00)).
  { apply (f_equal fst) in E. cbn [fst] in E. rewrite <- E. vm_compute. reflexivity. }
  subst r. split; [eauto|].
  apply (proj2 (VTOC_init_checks_six_bytes image_vtoc_only unit (start tt))
           _ w' (0x27, 0x7A) x7b E).
  - vm_compute. tauto.
  - vm_compute. discriminate.
Defined.

(** ** Catalog.walk_entries: the slots of a sector *)

Lemma getitem_slice_from (buff : bytes) (i k : Z) :
  0 <= i -> 0 <= k -> getitem (slice_from buff i) k = getitem buff (i + k).
Proof.
  intros Hi Hk. unfold getitem, slice_from.
  destruct (Z.ltb_spec k 0); [lia|]. destruct (Z.ltb_spec k 0); [lia|].
  destruct (Z.ltb_spec (i + k) 0); [lia|]. destruct (Z.ltb_spec (i + k) 0); [lia|].
  rewrite nth_error_skipn.
  replace (Z.to_nat (i + k)) with (Z.to_nat i + Z.to_nat k)%nat by lia.
  reflexivity.
Qed.

Lemma getitem_slot (buff : bytes) (i k : Z) :
  0 <= i -> 0 <= k -> i + k < len buff ->
  getitem (slice_from buff i) k = Ok (byte_at buff (i + k)).
Proof.
  intros. rewrite getitem_slice_from by lia. apply getitem_byte_at. lia.
Qed.

Lemma join_chars_slot (buff : bytes) (i : Z) (js : list Z) :
  0 <= i -> (forall j, In j js -> 0 <= j /\ i + j < len buff) ->
  Catalog.join_chars (slice_from buff i) js =
    Ok (string_of_list_ascii
          (map (fun j => chr (Z.land (byte_at buff (i + j)) 0x7F)) js)).
Proof.
  intros Hi. induction js as [|j js IH]; intros H; [reflexivity|].
  cbn [Catalog.join_chars map string_of_list_ascii].
  destruct (H j (or_introl eq_refl)).
  rewrite getitem_slot by lia. cbn [rbind].
  rewrite IH by (intros; apply H; right; assumption). reflexivity.
Qed.

Lemma in_range_step1 (a b x : Z) : a <= b -> In x (range a b 1) -> a <= x < b.
Proof.
  intros Hab. unfold range. rewrite in_map_iff.
  replace ((b - a + 1 - 1) / 1) with (b - a) by (rewrite Z.div_1_r; lia).
  intros [k [Hk Hin]]. apply in_seq in Hin. lia.
Qed.

Lemma entry_test_slot (buff : bytes) (i : Z) :
  0 <= i -> i + 0x23 <= len buff ->
  Catalog.entry_test (slice_from buff i) = Ok (slot_live buff i).
Proof.
  intros Hi Hl. unfold Catalog.entry_test, slot_live.
  rewrite !getitem_slot by lia. cbn [rbind]. rewrite Z.add_0_r.
  destruct (negb (byte_at buff i =? 0xFF)); reflexivity.
Qed.

Lemma decode_slot (buff : bytes) (i : Z) :
  0 <= i -> i + 0x23 <= len buff ->
  Catalog.decode (slice_from buff i) = Ok (slot_entry buff i).
Proof.
  intros Hi Hl. unfold Catalog.decode, read_word_littleendian, slot_entry.
  rewrite !getitem_slot by lia. cbn [rbind].
  rewrite join_chars_slot; [|lia|].
  - cbn [rbind]. rewrite Z.add_0_r.
    replace (i + (0x21 + 1)) with (i + 0x22) by lia. reflexivity.
  - intros j Hj. apply in_range_step1 in Hj; lia.
Qed.

Lemma scan_entries_spec (U R : Type)
  (callback : Catalog.entry -> M (Disk.world U) (option R))
  (buff : bytes) (slots : list Z) (w : Disk.world U) :
  (forall i, In i slots -> 0 <= i /\ i + 0x23 <= len buff) ->
  Catalog.scan_entries callback buff slots w =
    call_until callback (map (slot_entry buff) (filter (slot_live buff) slots)) w.
Proof.
  revert w. induction slots as [|i slots IH]; intros w H; [reflexivity|].
  cbn [Catalog.scan_entries filter].
  destruct (H i (or_introl eq_refl)) as [Hi Hl].
  assert (H' : forall i, In i slots -> 0 <= i /\ i + 0x23 <= len buff)
    by (intros; apply H; right; assumption).
  unfold bind at 1, lift at 1. rewrite entry_test_slot by assumption.
  destruct (slot_live buff i).
  - cbn [map call_until]. unfold bind at 1, lift at 1.
    rewrite decode_slot by assumption.
    unfold bind. destruct (callback (slot_entry buff i) w) as [[[v|]| |] w'];
      try reflexivity.
    apply IH. exact H'.
  - apply IH. exact H'.
Qed.

Lemma call_until_record (R : Type) (items : list Catalog.entry)
  (w : Disk.world (list Catalog.entry)) :
  call_until (@record_entry R) items w =
    (Ok None, Disk.World (Disk.position w) (Disk.oplog w) (Disk.user w ++ items)).
Proof.
  revert w. induction items as [|e items IH]; intros w.
  - cbn. rewrite app_nil_r. destruct w; reflexivity.
  - cbn [call_until]. unfold bind, record_entry at 1, Disk.on_user.
    rewrite IH. cbn [Disk.position Disk.oplog Disk.user].
    rewrite <- app_assoc. reflexivity.
Qed.

(** C1, as amended.  In every catalog sector of 256 bytes, the walker
    scans the seven slots at 0x0B, 0x2E, ..., 0xDD in that order and hands
    to the callback the entry of a slot if and only if the slot's first
    byte is not 0xFF and its fourth byte (offset 3, the first byte of the
    name) is not 0x00, until the callback answers true; a slot that fails
    the test is never passed on.  The byte of lock flag and type (offset 2)
    plays no part in the test. *)
Theorem scan_entries_yields_live_slots (U R : Type)
  (callback : Catalog.entry -> M (Disk.world U) (option R))
  (sector : bytes) (w : Disk.world U)
  (w0 : Disk.world (list Catalog.entry)) :
  len sector = 256 ->
  range Catalog.ENTRY_OFFSET 0xFF Catalog.ENTRY_SIZE = catalog_slots
  /\ Catalog.scan_entries callback sector
       (range Catalog.ENTRY_OFFSET 0xFF Catalog.ENTRY_SIZE) w =
     call_until callback
       (map (slot_entry sector) (filter (slot_live sector) catalog_slots)) w
  /\ Disk.user (snd (Catalog.scan_entries (@record_entry R) sector
                       (range Catalog.ENTRY_OFFSET 0xFF Catalog.ENTRY_SIZE) w0)) =
     Disk.user w0 ++ map (slot_entry sector) (filter (slot_live sector) catalog_slots).
Proof.
  intros Hlen.
  assert (Hr : range Catalog.ENTRY_OFFSET 0xFF Catalog.ENTRY_SIZE = catalog_slots)
    by (vm_compute; reflexivity).
  assert (Hs : forall i, In i catalog_slots -> 0 <= i /\ i + 0x23 <= len sector).
  { intros i Hi. rewrite Hlen. cbv [catalog_slots In] in Hi.
    repeat (destruct Hi as [<-|Hi]; [lia|]). contradiction. }
  split; [exact Hr|]. rewrite Hr. split.
  - apply scan_entries_spec. exact Hs.
  - rewrite scan_entries_spec by exact Hs.
    rewrite call_until_record. reflexivity.
Qed.

Lemma scan_entries_yields_live_slots_witness :
  len sector_type_zero = 256 /\
  Disk.user (snd (Catalog.scan_entries (@record_entry unit) sector_type_zero
                    (range Catalog.ENTRY_OFFSET 0xFF Catalog.ENTRY_SIZE) (start []))) =
    [] ++ map (slot_entry sector_type_zero)
            (filter (slot_live sector_type_zero) catalog_slots).
Proof.
  assert (H : len sector_type_zero = 256) by (vm_compute; reflexivity).
  split; [exact H|].
  exact (proj2 (proj2 (scan_entries_yields_live_slots (list Catalog.entry) unit
                         (@record_entry unit) sector_type_zero (start []) (start []) H))).
Defined.

(** C1, as stated, fails both ways.  The slot at 0x0B has first byte 0x12
    and a byte of lock flag and type of 0x00 (a text file, unlocked): the
    stated test skips it, and the walker yields it.  The slot at 0x2E has
    first byte 0x13 and type byte 0x02: the stated test yields it, and the
    walker skips it, its name starting with a zero byte. *)
Lemma scan_entries_ignores_type_byte :
  len sector_type_zero = 256 /\
  filter (slot_live_by_type sector_type_zero) catalog_slots = [0x2E] /\
  Disk.user (snd (Catalog.scan_entries (@record_entry unit) sector_type_zero
                    (range Catalog.ENTRY_OFFSET 0xFF Catalog.ENTRY_SIZE) (start []))) =
    [slot_entry sector_type_zero 0x0B] /\
  Catalog.file_type (slot_entry sector_type_zero 0x0B) = 0x00 /\
  Catalog.locked (slot_entry sector_type_zero 0x0B) = 0x00.
Proof.
  split; [|split; [|split; [|split]]]; vm_compute; reflexivity.
Qed.

(** ** Loops that end *)

Lemma terminates_ret {S A : Type} (a : A) : terminates (@ret S A a).
Proof. intros s. cbn. discriminate. Qed.

Lemma terminates_raise {S A : Type} (e : exn) : terminates (@raise S A e).
Proof. intros s. cbn. discriminate. Qed.

Lemma terminates_lift {S A : Type} (r : result A) :
  r <> OutOfFuel -> terminates (@lift S A r).
Proof. intros H s. exact H. Qed.

Lemma terminates_bind {S A B : Type} (m : M S A) (k : A -> M S B) :
  terminates m -> (forall a, terminates (k a)) -> terminates (bind m k).
Proof.
  intros Hm Hk s. unfold bind. specialize (Hm s).
  destruct (m s) as [[a| |] s']; cbn in *; try discriminate; [apply Hk | contradiction].
Qed.

Lemma rbind_returns {A B : Type} (r : result A) (k : A -> result B) :
  r <> OutOfFuel -> (forall a, k a <> OutOfFuel) -> rbind r k <> OutOfFuel.
Proof. intros Hr Hk. destruct r; cbn; [apply Hk | discriminate | contradiction]. Qed.

Lemma getitem_returns (buff : bytes) (i : Z) : getitem buff i <> OutOfFuel.
Proof.
  unfold getitem. destruct (_ <? 0); [discriminate|].
  destruct (nth_error _ _); discriminate.
Qed.

Create HintDb ends.

#[local] Hint Resolve terminates_ret terminates_raise terminates_lift
  getitem_returns : ends.

Ltac ends :=
  repeat match goal with
    | |- terminates (bind _ _) => apply terminates_bind; [|intros ?]
    | |- rbind _ _ <> OutOfFuel => apply rbind_returns; [|intros ?]
    | |- Ok _ <> OutOfFuel => discriminate
    | |- Raise _ <> OutOfFuel => discriminate
    | |- terminates (if ?b then _ else _) => destruct b
    | |- terminates (match ?o with Some _ => _ | None => _ end) => destruct o
    | |- _ => solve [auto with ends]
    end.

Lemma join_chars_returns (buff : bytes) (js : list Z) :
  Catalog.join_chars buff js <> OutOfFuel.
Proof. induction js; cbn [Catalog.join_chars]; ends. Qed.

Lemma entry_test_returns (buff : bytes) : Catalog.entry_test buff <> OutOfFuel.
Proof. unfold Catalog.entry_test. ends. destruct (negb _); ends. Qed.

Lemma decode_returns (buff : bytes) : Catalog.decode buff <> OutOfFuel.
Proof.
  unfold Catalog.decode, read_word_littleendian. ends. apply join_chars_returns.
Qed.

Lemma reads_app (l1 l2 : list Disk.io_event) : reads (l1 ++ l2) = reads l1 + reads l2.
Proof. unfold reads, len. rewrite filter_app, length_app. lia. Qed.

(** What [read_sect] can do to a session. *)
Lemma read_sect_cases (image : bytes) (U : Type) (w : Disk.world U) (track sector : Z) :
  (exists e w', Disk.read_sect image track sector w = (Raise e, w')
      /\ Disk.user w' = Disk.user w
      /\ reads (Disk.oplog w') = reads (Disk.oplog w))
  \/ (exists d p, Disk.read_sect image track sector w =
        (Ok d, Disk.World p (Disk.oplog w
                 ++ [Disk.EvSeek ((track * 16 + sector) * 256); Disk.EvRead 256])
                 (Disk.user w))).
Proof.
  unfold Disk.read_sect, Disk.seek_sect, bind, raise, Disk.file_seek, Disk.file_read.
  unfold Disk.TRACKS_PER_DISK, Disk.SECTORS_PER_TRACK, Disk.SECTOR_SIZE.
  destruct ((track >=? 35) || (sector >=? 16)); [left; eauto|].
  destruct (_ <? 0).
  - left. do 2 eexists. split; [reflexivity|]. cbn [Disk.user Disk.oplog].
    split; [reflexivity|]. rewrite reads_app. change (reads [_]) with 0. lia.
  - right. cbn [Disk.position Disk.oplog Disk.user].
    rewrite <- app_assoc. eauto.
Qed.

Lemma read_sect_terminates (image : bytes) (U : Type) (track sector : Z) :
  terminates (@Disk.read_sect image U track sector).
Proof.
  intros w.
  destruct (read_sect_cases image U w track sector) as [(e & w' & H & _)|[d [p H]]];
    rewrite H; discriminate.
Qed.

Lemma python_callback_terminates {U A B : Type} (f : A -> U -> (B + exn) * U) (a : A) :
  terminates (python_callback f a).
Proof.
  intros w. unfold python_callback, Disk.on_user.
  destruct (f a (Disk.user w)) as [[b|e] u']; discriminate.
Qed.

Lemma python_callback_oplog {U A B : Type} (f : A -> U -> (B + exn) * U) (a : A)
  (w : Disk.world U) :
  Disk.oplog (snd (python_callback f a w)) = Disk.oplog w.
Proof.
  unfold python_callback, Disk.on_user.
  destruct (f a (Disk.user w)) as [[b|e] u']; reflexivity.
Qed.

#[local] Hint Resolve join_chars_returns entry_test_returns decode_returns
  read_sect_terminates python_callback_terminates : ends.

Lemma keeps_log_ret {U A : Type} (a : A) : keeps_log (@ret (Disk.world U) A a).
Proof. intros w. reflexivity. Qed.

Lemma keeps_log_raise {U A : Type} (e : exn) : keeps_log (@raise (Disk.world U) A e).
Proof. intros w. reflexivity. Qed.

Lemma keeps_log_lift {U A : Type} (r : result A) : keeps_log (@lift (Disk.world U) A r).
Proof. intros w. reflexivity. Qed.

Lemma keeps_log_bind {U A B : Type} (m : M (Disk.world U) A) (k : A -> M (Disk.world U) B) :
  keeps_log m -> (forall a, keeps_log (k a)) -> keeps_log (bind m k).
Proof.
  intros Hm Hk w. unfold bind. specialize (Hm w).
  destruct (m w) as [[a| |] w']; cbn [snd] in *; try assumption.
  rewrite Hk. exact Hm.
Qed.

Lemma scan_entries_terminates (U R : Type)
  (callback : Catalog.entry -> M (Disk.world U) (option R))
  (sector : bytes) (slots : list Z) :
  (forall e, terminates (callback e)) ->
  terminates (Catalog.scan_entries callback sector slots).
Proof.
  intros Hc. induction slots as [|i slots IH]; cbn [Catalog.scan_entries]; ends.
Qed.

Lemma scan_entries_keeps_log (U R : Type)
  (callback : Catalog.entry -> M (Disk.world U) (option R))
  (sector : bytes) (slots : list Z) :
  (forall e, keeps_log (callback e)) ->
  keeps_log (Catalog.scan_entries callback sector slots).
Proof.
  intros Hc. induction slots as [|i slots IH]; cbn [Catalog.scan_entries].
  - apply keeps_log_ret.
  - apply keeps_log_bind; [apply keeps_log_lift|]. intros [|]; [|exact IH].
    apply keeps_log_bind; [apply keeps_log_lift|]. intros e.
    apply keeps_log_bind; [apply Hc|]. intros [v|]; [apply keeps_log_ret | exact IH].
Qed.

Lemma walk_entries_loop_terminates (image : bytes) (U R : Type)
  (callback : Catalog.entry -> M (Disk.world U) (option R)) :
  (forall e, terminates (callback e)) ->
  forall (fuel : nat) (hop track sector : Z),
    hop < MAX_HOPS <= hop + Z.of_nat fuel ->
    terminates (Catalog.walk_entries_loop image callback fuel hop track sector).
Proof.
  intros Hc. induction fuel as [|fuel IH]; intros hop track sector Hh; [lia|].
  cbn [Catalog.walk_entries_loop].
  destruct (negb (track =? 0)); [|ends].
  destruct (Z.geb_spec (hop + 1) MAX_HOPS); [ends|].
  ends; try (apply scan_entries_terminates; exact Hc).
  apply IH. lia.
Qed.

Lemma walk_entries_loop_reads (image : bytes) (U R : Type)
  (callback : Catalog.entry -> M (Disk.world U) (option R)) :
  (forall e, keeps_log (callback e)) ->
  forall (fuel : nat) (hop track sector : Z) (w : Disk.world U),
    reads (Disk.oplog (snd (Catalog.walk_entries_loop image callback fuel hop track sector w)))
    <= reads (Disk.oplog w) + Z.max 0 (MAX_HOPS - 1 - hop).
Proof.
  intros Hc. induction fuel as [|fuel IH]; intros hop track sector w;
    [cbn; lia|].
  cbn [Catalog.walk_entries_loop].
  destruct (negb (track =? 0)); [|cbn; lia].
  destruct (Z.geb_spec (hop + 1) MAX_HOPS); [cbn; lia|].
  unfold bind at 1.
  destruct (read_sect_cases image U w track sector)
    as [(e & w' & Hr & _ & Hrd)|[d [p Hr]]]; rewrite Hr;
    [cbn [snd]; lia|].
  set (w1 := Disk.World p _ _).
  assert (H1 : reads (Disk.oplog w1) = reads (Disk.oplog w) + 1)
    by (subst w1; cbn [Disk.oplog]; rewrite reads_app; reflexivity).
  unfold bind at 1.
  pose proof (scan_entries_keeps_log U R callback d
                (range Catalog.ENTRY_OFFSET 255 Catalog.ENTRY_SIZE) Hc w1) as H2.
  destruct (Catalog.scan_entries callback d _ w1) as [[[v|]| |] w2]; cbn [snd] in H2;
    try (unfold ret; cbn [snd]; rewrite H2; lia).
  unfold bind at 1, lift at 1.
  destruct (getitem d Catalog.NEXT_TRACK_OFFSET); try (cbn [snd]; rewrite H2; lia).
  unfold bind at 1, lift at 1.
  destruct (getitem d Catalog.NEXT_SECTOR_OFFSET); try (cbn [snd]; rewrite H2; lia).
  etransitivity; [apply IH|]. rewrite H2. lia.
Qed.

Lemma scan_pairs_terminates (image : bytes) (U : Type)
  (callback : bytes -> M (Disk.world U) unit) (tsl : bytes) (slots : list Z) :
  (forall d, terminates (callback d)) ->
  terminates (Files.scan_pairs image callback tsl slots).
Proof.
  intros Hc. induction slots as [|i slots IH]; cbn [Files.scan_pairs]; [ends|].
  destruct (slice tsl i (i + 2)) as [|t [|s [|x l]]]; ends.
Qed.

Lemma walk_sectors_loop_terminates (image : bytes) (U : Type)
  (callback : bytes -> M (Disk.world U) unit) :
  (forall d, terminates (callback d)) ->
  forall (fuel : nat) (hop track sector : Z),
    hop < MAX_HOPS <= hop + Z.of_nat fuel ->
    terminates (Files.walk_sectors_loop image callback fuel hop track sector).
Proof.
  intros Hc. induction fuel as [|fuel IH]; intros hop track sector Hh; [lia|].
  cbn [Files.walk_sectors_loop].
  destruct (negb (track =? 0)); [|ends].
  destruct (Z.geb_spec (hop + 1) MAX_HOPS); [ends|].
  ends; try (apply scan_pairs_terminates; exact Hc).
  apply IH. lia.
Qed.

Lemma counting_call (U A B : Type) (g : A -> U -> (B + exn) * U) (a : A)
  (w : Disk.world (U * Z)) :
  uncounted_reads (snd (python_callback (counting g) a w)) = uncounted_reads w - 1.
Proof.
  unfold python_callback, counting, Disk.on_user, uncounted_reads.
  destruct (g a (fst (Disk.user w))) as [[b|e] u']; cbn [snd Disk.oplog Disk.user]; lia.
Qed.

Lemma scan_pairs_uncounted (image : bytes) (U : Type)
  (g : bytes -> U -> (unit + exn) * U) (tsl : bytes) (slots : list Z)
  (w : Disk.world (U * Z)) :
  uncounted_reads (snd (Files.scan_pairs image (python_callback (counting g)) tsl slots w))
  = uncounted_reads w.
Proof.
  revert w. induction slots as [|i slots IH]; intros w; cbn [Files.scan_pairs];
    [reflexivity|].
  destruct (slice tsl i (i + 2)) as [|t [|s [|x l]]]; try reflexivity.
  destruct ((byte_val t =? 0) && (byte_val s =? 0)); [reflexivity|].
  unfold bind at 1.
  destruct (read_sect_cases image _ w (byte_val t) (byte_val s))
    as [(e & w' & Hr & Hu & Hrd)|[d [p Hr]]];
    rewrite Hr; [cbn [snd]; unfold uncounted_reads; rewrite Hu, Hrd; reflexivity|].
  set (w1 := Disk.World p _ _).
  assert (H1 : uncounted_reads w1 = uncounted_reads w + 1).
  { subst w1. unfold uncounted_reads. cbn [Disk.oplog Disk.user].
    rewrite reads_app. change (reads [_; _]) with 1. lia. }
  unfold bind at 1.
  pose proof (counting_call U bytes unit g d w1) as H2.
  destruct (python_callback (counting g) d w1) as [[[]| |] w2]; cbn [snd] in *;
    try lia.
  rewrite IH. lia.
Qed.

Lemma walk_sectors_loop_uncounted (image : bytes) (U : Type)
  (g : bytes -> U -> (unit + exn) * U) :
  forall (fuel : nat) (hop track sector : Z) (w : Disk.world (U * Z)),
    uncounted_reads
      (snd (Files.walk_sectors_loop image (python_callback (counting g))
              fuel hop track sector w))
    <= uncounted_reads w + Z.max 0 (MAX_HOPS - 1 - hop).
Proof.
  induction fuel as [|fuel IH]; intros hop track sector w; [cbn; lia|].
  cbn [Files.walk_sectors_loop].
  destruct (negb (track =? 0)); [|cbn; lia].
  destruct (Z.geb_spec (hop + 1) MAX_HOPS); [cbn; lia|].
  unfold bind at 1.
  destruct (read_sect_cases image _ w track sector)
    as [(e & w' & Hr & Hu & Hrd)|[d [p Hr]]]; rewrite Hr;
    [cbn [snd]; unfold uncounted_reads; rewrite Hu, Hrd; lia|].
  set (w1 := Disk.World p _ _).
  assert (H1 : uncounted_reads w1 = uncounted_reads w + 1).
  { subst w1. unfold uncounted_reads. cbn [Disk.oplog Disk.user].
    rewrite reads_app. change (reads [_; _]) with 1. lia. }
  unfold bind at 1.
  pose proof (scan_pairs_uncounted image U g d (range 12 255 2) w1) as H2.
  destruct (Files.scan_pairs image _ d _ w1) as [[[]| |] w2]; cbn [snd] in H2;
    try (cbn [snd]; lia).
  unfold bind at 1, lift at 1.
  destruct (getitem d 1); try (cbn [snd]; lia).
  unfold bind at 1, lift at 1.
  destruct (getitem d 2); try (cbn [snd]; lia).
  etransitivity; [apply IH|]. lia.
Qed.

(** ** The chains the walkers follow *)

Lemma getitem_sector (image : bytes) (track sector k : Z) :
  len image = FULL_GEOMETRY -> in_geometry (track, sector) = true -> 0 <= k < 256 ->
  getitem (sector_at image track sector) k = Ok (byte_at (sector_at image track sector) k).
Proof.
  unfold FULL_GEOMETRY, in_geometry. cbn [fst snd]. intros Hl Hg Hk.
  apply getitem_byte_at. rewrite len_sector_at; unfold sector_offset; lia.
Qed.

Lemma read_sect_full (image : bytes) (U : Type) (w : Disk.world U) (track sector : Z) :
  len image = FULL_GEOMETRY -> in_geometry (track, sector) = true ->
  Disk.read_sect image track sector w =
    (Ok (sector_at image track sector), after_read w track sector)
  /\ len (sector_at image track sector) = 256.
Proof.
  unfold FULL_GEOMETRY, in_geometry. cbn [fst snd]. intros Hl Hg.
  assert (Hs : len (sector_at image track sector) = 256)
    by (apply len_sector_at; unfold sector_offset; lia).
  split; [|exact Hs].
  rewrite read_sect_ok by lia. rewrite Hs. reflexivity.
Qed.

Lemma walk_entries_loop_step (image : bytes) (U R : Type)
  (callback : Catalog.entry -> M (Disk.world U) (option R))
  (fuel : nat) (hop track sector : Z) (w : Disk.world U) :
  len image = FULL_GEOMETRY -> track <> 0 -> in_geometry (track, sector) = true ->
  hop + 1 < MAX_HOPS ->
  Catalog.walk_entries_loop image callback (S fuel) hop track sector w =
    match Catalog.scan_entries callback (sector_at image track sector)
            catalog_slots (after_read w track sector) with
    | (Ok None, w2) =>
        Catalog.walk_entries_loop image callback fuel (hop + 1)
          (byte_at (sector_at image track sector) 1)
          (byte_at (sector_at image track sector) 2) w2
    | other => other
    end.
Proof.
  intros Hl Ht Hg Hh. cbn [Catalog.walk_entries_loop].
  destruct (Z.eqb_spec track 0); [contradiction|]. cbn [negb].
  destruct (Z.geb_spec (hop + 1) MAX_HOPS); [lia|].
  unfold bind at 1. rewrite (proj1 (read_sect_full image U w track sector Hl Hg)).
  unfold bind at 1.
  change (range Catalog.ENTRY_OFFSET 255 Catalog.ENTRY_SIZE) with catalog_slots.
  destruct (Catalog.scan_entries callback _ catalog_slots _) as [[[v|]| |] w2];
    try reflexivity.
  unfold bind, lift, Catalog.NEXT_TRACK_OFFSET, Catalog.NEXT_SECTOR_OFFSET.
  rewrite !getitem_sector by (assumption || lia). reflexivity.
Qed.

Lemma walk_sectors_loop_step (image : bytes) (U : Type)
  (callback : bytes -> M (Disk.world U) unit)
  (fuel : nat) (hop track sector : Z) (w : Disk.world U) :
  len image = FULL_GEOMETRY -> track <> 0 -> in_geometry (track, sector) = true ->
  hop + 1 < MAX_HOPS ->
  Files.walk_sectors_loop image callback (S fuel) hop track sector w =
    match Files.scan_pairs image callback (sector_at image track sector)
            (range 0x0C 0xFF 0x02) (after_read w track sector) with
    | (Ok _, w2) =>
        Files.walk_sectors_loop image callback fuel (hop + 1)
          (byte_at (sector_at image track sector) 1)
          (byte_at (sector_at image track sector) 2) w2
    | other => other
    end.
Proof.
  intros Hl Ht Hg Hh. cbn [Files.walk_sectors_loop].
  destruct (Z.eqb_spec track 0); [contradiction|]. cbn [negb].
  destruct (Z.geb_spec (hop + 1) MAX_HOPS); [lia|].
  unfold bind at 1. rewrite (proj1 (read_sect_full image U w track sector Hl Hg)).
  unfold bind at 1.
  destruct (Files.scan_pairs image callback _ _ _) as [[[]| |] w2]; try reflexivity.
  unfold bind, lift.
  rewrite !getitem_sector by (assumption || lia). reflexivity.
Qed.

Lemma walk_loops_out_of_geometry (image : bytes) (U R : Type)
  (on_entry : Catalog.entry -> M (Disk.world U) (option R))
  (on_data : bytes -> M (Disk.world U) unit)
  (fuel : nat) (hop track sector : Z) (w : Disk.world U) :
  track <> 0 -> 35 <= track \/ 16 <= sector -> hop + 1 < MAX_HOPS ->
  Catalog.walk_entries_loop image on_entry (S fuel) hop track sector w
    = (Raise SeekOutOfRange, w)
  /\ Files.walk_sectors_loop image on_data (S fuel) hop track sector w
    = (Raise SeekOutOfRange, w).
Proof.
  intros Ht Hg Hh. cbn [Catalog.walk_entries_loop Files.walk_sectors_loop].
  destruct (Z.eqb_spec track 0); [contradiction|]. cbn [negb].
  destruct (Z.geb_spec (hop + 1) MAX_HOPS); [lia|].
  unfold bind. rewrite !read_sect_out_of_range by assumption. split; reflexivity.
Qed.

(** C3, as amended.  Both walkers leave their loop exactly when the track
    byte of the pointer is zero, whatever its sector byte: they then end
    normally and read nothing.  At a pointer whose track byte is not zero,
    and before the hop limit, they read that sector, scan it, and unless the
    scan ends the walk go on from the pointer in its bytes 1 and 2; when
    the pointer is outside the geometry the read raises "seek out of
    range". *)
Theorem walkers_follow_until_track_zero (image : bytes) (U R : Type)
  (on_entry : Catalog.entry -> M (Disk.world U) (option R))
  (on_data : bytes -> M (Disk.world U) unit)
  (fuel : nat) (hop track sector : Z) (w : Disk.world U) :
  len image = FULL_GEOMETRY -> 0 <= track -> 0 <= sector -> hop + 1 < MAX_HOPS ->
  if track =? 0 then
    Catalog.walk_entries_loop image on_entry (S fuel) hop track sector w = (Ok None, w)
    /\ Files.walk_sectors_loop image on_data (S fuel) hop track sector w = (Ok tt, w)
  else if in_geometry (track, sector) then
    Catalog.walk_entries_loop image on_entry (S fuel) hop track sector w =
      match Catalog.scan_entries on_entry (sector_at image track sector)
              (range Catalog.ENTRY_OFFSET 0xFF Catalog.ENTRY_SIZE)
              (after_read w track sector) with
      | (Ok None, w2) =>
          Catalog.walk_entries_loop image on_entry fuel (hop + 1)
            (byte_at (sector_at image track sector) 1)
            (byte_at (sector_at image track sector) 2) w2
      | other => other
      end
    /\ Files.walk_sectors_loop image on_data (S fuel) hop track sector w =
      match Files.scan_pairs image on_data (sector_at image track sector)
              (range 0x0C 0xFF 0x02) (after_read w track sector) with
      | (Ok _, w2) =>
          Files.walk_sectors_loop image on_data fuel (hop + 1)
            (byte_at (sector_at image track sector) 1)
            (byte_at (sector_at image track sector) 2) w2
      | other => other
      end
  else
    Catalog.walk_entries_loop image on_entry (S fuel) hop track sector w
      = (Raise SeekOutOfRange, w)
    /\ Files.walk_sectors_loop image on_data (S fuel) hop track sector w
      = (Raise SeekOutOfRange, w).
Proof.
  intros Hl Ht Hs Hh.
  destruct (Z.eqb_spec track 0) as [->|Hne].
  - split; reflexivity.
  - destruct (in_geometry (track, sector)) eqn:Hg.
    + split.
      * apply walk_entries_loop_step; assumption.
      * apply walk_sectors_loop_step; assumption.
    + apply walk_loops_out_of_geometry; try assumption.
      unfold in_geometry in Hg. cbn [fst snd] in Hg. lia.
Qed.

Lemma walkers_follow_until_track_zero_witness :
  len image_demo = FULL_GEOMETRY /\
  Catalog.walk_entries_loop image_demo (fun _ => ret (@None unit)) 2 1 0x00 0x05
    (start (@nil Z)) = (Ok None, start []) /\
  Files.walk_sectors_loop image_demo first_bytes 2 1 0x00 0x05 (start [])
    = (Ok tt, start []).
Proof.
  assert (H : len image_demo = FULL_GEOMETRY) by (vm_compute; reflexivity).
  split; [exact H|].
  apply (walkers_follow_until_track_zero image_demo (list Z) unit
           (fun _ => ret None) first_bytes 1 1 0x00 0x05 (start []) H);
    unfold MAX_HOPS; lia.
Defined.

(** C3, as stated, fails at a pointer with a zero track and a sector that
    is not zero.  The second catalog sector of the demonstration disk
    points on to (0, 5): the walk ends there, normally, after two reads,
    without the entry that sector (0, 5) holds.  The track/sector list of
    NOTES points on to (0, 7): the walk ends after the one data sector. *)
Lemma walkers_stop_at_track_zero_sector_five :
  pair_at (sector_at image_demo 0x11 0x0E) 1 = (0, 5)
  /\ catalog_run image_demo =
       (Ok None, [sector_offset 0x11 0x0F; sector_offset 0x11 0x0E],
        map Dump.format_30s ["HELLO"; "NOTES"; "DATA"]%string)
  /\ pair_at (sector_at image_demo 0x13 0x0F) 1 = (0, 7)
  /\ file_run image_demo 0x13 0x0F =
       (Ok tt, [sector_offset 0x13 0x0F; sector_offset 0x13 0x0E], [0xC1]).
Proof.
  split; [|split; [|split]]; vm_compute; reflexivity.
Qed.

(** ** Files.walk_sectors: the order of delivery *)

Lemma slice_pair (tsl : bytes) (i : Z) :
  0 <= i -> i + 2 <= len tsl ->
  exists t s, slice tsl i (i + 2) = [t; s]
              /\ byte_val t = byte_at tsl i /\ byte_val s = byte_at tsl (i + 1).
Proof.
  unfold len. intros Hi Hl. unfold slice, byte_at.
  replace (Z.to_nat (i + 2 - i)) with 2%nat by lia.
  pose proof (length_skipn (Z.to_nat i) tsl) as Hs.
  pose proof (nth_skipn (Z.to_nat i) tsl 0 x00) as H0.
  pose proof (nth_skipn (Z.to_nat i) tsl 1 x00) as H1.
  destruct (skipn (Z.to_nat i) tsl) as [|t [|s rest]]; cbn [List.length] in Hs; try lia.
  exists t, s. cbn [firstn nth] in *. split; [reflexivity|].
  rewrite Nat.add_0_r in H0. rewrite H0.
  replace (Z.to_nat (i + 1)) with (Z.to_nat i + 1)%nat by lia. rewrite H1.
  split; reflexivity.
Qed.

Lemma consumer_run (U : Type) (f : bytes -> U -> U) (d : bytes) (w : Disk.world U) :
  consumer f d w =
    (Ok tt, Disk.World (Disk.position w) (Disk.oplog w) (f d (Disk.user w))).
Proof. reflexivity. Qed.

Lemma scan_pairs_delivers (image : bytes) (U : Type) (f : bytes -> U -> U)
  (tsl : bytes) (slots : list Z) (w : Disk.world U) :
  len image = FULL_GEOMETRY ->
  (forall i, In i slots -> 0 <= i /\ i + 2 <= len tsl) ->
  forallb in_geometry (before_zero (map (pair_at tsl) slots)) = true ->
  exists w', Files.scan_pairs image (consumer f) tsl slots w = (Ok tt, w')
    /\ Disk.user w' =
         deliver f (payloads image (before_zero (map (pair_at tsl) slots))) (Disk.user w).
Proof.
  intros Hl. revert w. induction slots as [|i slots IH]; intros w Hs Hg.
  - exists w. split; reflexivity.
  - cbn [Files.scan_pairs map before_zero] in *.
    destruct (Hs i (or_introl eq_refl)) as [Hi Hi2].
    destruct (slice_pair tsl i Hi Hi2) as (t & s & -> & Et & Es).
    rewrite Et, Es.
    change (fst (pair_at tsl i)) with (byte_at tsl i) in *.
    change (snd (pair_at tsl i)) with (byte_at tsl (i + 1)) in *.
    destruct ((byte_at tsl i =? 0) && (byte_at tsl (i + 1) =? 0)).
    + exists w. split; reflexivity.
    + cbn [forallb] in Hg. apply andb_prop in Hg. destruct Hg as [Hg1 Hg2].
      change (pair_at tsl i) with (byte_at tsl i, byte_at tsl (i + 1)) in *.
      unfold bind at 1.
      rewrite (proj1 (read_sect_full image U w _ _ Hl Hg1)).
      unfold bind at 1. rewrite consumer_run.
      destruct (IH (Disk.World (Disk.position (after_read w (byte_at tsl i) (byte_at tsl (i + 1))))
                      (Disk.oplog (after_read w (byte_at tsl i) (byte_at tsl (i + 1))))
                      (f (sector_at image (byte_at tsl i) (byte_at tsl (i + 1)))
                         (Disk.user (after_read w (byte_at tsl i) (byte_at tsl (i + 1))))))
                  (fun j Hj => Hs j (or_intror Hj)) Hg2) as (w' & Hw & Hu).
      exists w'. split; [exact Hw|]. rewrite Hu. reflexivity.
Qed.

Lemma pair_slots_in_sector (tsl : bytes) (i : Z) :
  len tsl = 256 -> In i (range 0x0C 0xFF 0x02) -> 0 <= i /\ i + 2 <= len tsl.
Proof.
  intros Hl Hi. unfold range in Hi. apply in_map_iff in Hi.
  destruct Hi as [k [<- Hk]]. apply in_seq in Hk.
  change (Z.to_nat ((255 - 12 + 2 - 1) / 2)) with 122%nat in Hk. lia.
Qed.

Lemma walk_sectors_loop_delivers (image : bytes) (U : Type) (f : bytes -> U -> U) :
  len image = FULL_GEOMETRY ->
  forall (n fuel : nat) (hop track sector : Z) (w : Disk.world U),
    (n <= fuel)%nat -> hop + Z.of_nat n < MAX_HOPS ->
    (List.length (chain image n track sector) < n)%nat ->
    forallb in_geometry (chain image n track sector) = true ->
    forallb in_geometry (file_pointers image n track sector) = true ->
    exists w',
      Files.walk_sectors_loop image (consumer f) fuel hop track sector w = (Ok tt, w')
      /\ Disk.user w' =
           deliver f (payloads image (file_pointers image n track sector)) (Disk.user w).
Proof.
  intros Hl. induction n as [|n IH]; intros fuel hop track sector w Hf Hh Hn Hc Hp;
    [cbn in Hn; lia|].
  destruct fuel as [|fuel]; [lia|].
  unfold file_pointers in *. cbn [chain] in *.
  destruct (Z.eqb_spec track 0) as [->|Hne].
  - exists w. split; reflexivity.
  - cbn [forallb flat_map List.length] in *.
    apply andb_prop in Hc. destruct Hc as [Hg Hc].
    rewrite forallb_app in Hp. apply andb_prop in Hp. destruct Hp as [Hd Hp].
    cbn [fst snd] in *.
    rewrite walk_sectors_loop_step by (assumption || lia).
    destruct (read_sect_full image U w track sector Hl Hg) as [_ Hcs].
    destruct (scan_pairs_delivers image U f (sector_at image track sector)
                (range 0x0C 0xFF 0x02) (after_read w track sector) Hl
                (fun i Hi => pair_slots_in_sector _ i Hcs Hi) Hd) as (w2 & -> & Hu2).
    destruct (IH fuel (hop + 1) (byte_at (sector_at image track sector) 1)
                (byte_at (sector_at image track sector) 2) w2
                ltac:(lia) ltac:(lia) ltac:(lia) Hc Hp)
      as (w' & Hw & Hu).
    exists w'. split; [exact Hw|].
    rewrite Hu, Hu2. unfold payloads, deliver, data_pointers.
    rewrite map_app, fold_left_app. reflexivity.
Qed.

Lemma HOP_LIMIT_value : Z.of_nat HOP_LIMIT = 559.
Proof. reflexivity. Qed.

Lemma below_HOP_LIMIT {A : Type} (l : list A) :
  len l < 559 -> (List.length l < HOP_LIMIT)%nat.
Proof. unfold len. pose proof HOP_LIMIT_value. lia. Qed.

Lemma payloads_full (image : bytes) (pointers : list (Z * Z)) :
  len image = FULL_GEOMETRY -> forallb in_geometry pointers = true ->
  Forall (fun d => len d = 256) (payloads image pointers).
Proof.
  intros Hl Hg. unfold payloads. apply Forall_map. apply Forall_forall.
  intros p Hp. rewrite forallb_forall in Hg. specialize (Hg p Hp).
  destruct p as [t s]. apply (read_sect_full image unit (start tt) t s Hl Hg).
Qed.

(** C4.  On an image of full size, for a file whose chain of track/sector
    list sectors ends within the hop limit and whose pointers all lie in
    the geometry: the reader returns normally, having handed to the
    consumer, once each and in this order, the 256 bytes of every data
    sector the file refers to, going through the sectors of the chain in
    chain order and through the pairs of each from offset 0x0C on in steps
    of two, up to its first pair (0, 0), which ends that sector and not the
    file. *)
Theorem walk_sectors_delivers_in_chain_order (image : bytes) (U : Type)
  (f : bytes -> U -> U) (track sector : Z) (w : Disk.world U) :
  len image = FULL_GEOMETRY ->
  len (chain image HOP_LIMIT track sector) < 559 ->
  forallb in_geometry (chain image HOP_LIMIT track sector) = true ->
  forallb in_geometry (file_pointers image HOP_LIMIT track sector) = true ->
  exists w',
    Files.walk_sectors image (consumer f) track sector w = (Ok tt, w')
    /\ Disk.user w' =
         deliver f (payloads image (file_pointers image HOP_LIMIT track sector))
           (Disk.user w)
    /\ Forall (fun d => len d = 256)
         (payloads image (file_pointers image HOP_LIMIT track sector)).
Proof.
  intros Hl Hn Hc Hp.
  pose proof HOP_LIMIT_value as Hv.
  assert (H1 : (HOP_LIMIT <= Z.to_nat MAX_HOPS)%nat) by (unfold MAX_HOPS; lia).
  assert (H2 : 0 + Z.of_nat HOP_LIMIT < MAX_HOPS) by (unfold MAX_HOPS; lia).
  pose proof (below_HOP_LIMIT _ Hn) as H3.
  destruct (walk_sectors_loop_delivers image U f Hl HOP_LIMIT (Z.to_nat MAX_HOPS)
              0 track sector w H1 H2 H3 Hc Hp) as (w' & Hw & Hu).
  exists w'. split; [exact Hw|]. split; [exact Hu|].
  apply payloads_full; assumption.
Qed.

Lemma walk_sectors_delivers_in_chain_order_witness :
  file_pointers image_demo HOP_LIMIT 0x12 0x0F = [(0x12, 0x0E); (0x12, 0x0D); (0x12, 0x0A)]
  /\ exists w',
       Files.walk_sectors image_demo first_bytes 0x12 0x0F (start []) = (Ok tt, w')
       /\ Disk.user w' =
            deliver (fun sector_data seen => seen ++ [byte_at sector_data 0])
              (payloads image_demo (file_pointers image_demo HOP_LIMIT 0x12 0x0F)) [].
Proof.
  split; [vm_compute; reflexivity|].
  assert (H1 : len image_demo = FULL_GEOMETRY) by (vm_compute; reflexivity).
  assert (H2 : len (chain image_demo HOP_LIMIT 0x12 0x0F) < 559)
    by (vm_compute; reflexivity).
  assert (H3 : forallb in_geometry (chain image_demo HOP_LIMIT 0x12 0x0F) = true)
    by (vm_compute; reflexivity).
  assert (H4 : forallb in_geometry (file_pointers image_demo HOP_LIMIT 0x12 0x0F) = true)
    by (vm_compute; reflexivity).
  destruct (walk_sectors_delivers_in_chain_order image_demo (list Z)
              (fun sector_data seen => seen ++ [byte_at sector_data 0])
              0x12 0x0F (start []) H1 H2 H3 H4)
    as (w' & Hw & Hu & _).
  exists w'. split; [exact Hw | exact Hu].
Defined.

(** The file HELLO of the demonstration disk: two sectors of track/sector
    list are read, and between them and after them the data sectors, three
    in all; the pair that follows the pair (0, 0) is not read. *)
Example walk_sectors_demo :
  file_run image_demo 0x12 0x0F =
    (Ok tt,
     [sector_offset 0x12 0x0F; sector_offset 0x12 0x0E; sector_offset 0x12 0x0D;
      sector_offset 0x12 0x0C; sector_offset 0x12 0x0A],
     [0xD1; 0xD2; 0xD4]).
Proof. vm_compute. reflexivity. Qed.

(** ** The hop limit *)

Lemma sector_reads_app (l1 l2 : list Z) :
  sector_reads (l1 ++ l2) = sector_reads l1 ++ sector_reads l2.
Proof. unfold sector_reads. apply flat_map_app. Qed.

Lemma catalog_slots_in_sector (sector : bytes) (i : Z) :
  len sector = 256 -> In i catalog_slots -> 0 <= i /\ i + 0x23 <= len sector.
Proof.
  intros Hl Hi. rewrite Hl. cbv [catalog_slots In] in Hi.
  repeat (destruct Hi as [<-|Hi]; [lia|]). contradiction.
Qed.

Lemma sector_log_app (l1 l2 : list (Z * Z)) :
  sector_log (l1 ++ l2) = sector_log l1 ++ sector_log l2.
Proof. unfold sector_log. rewrite map_app. apply sector_reads_app. Qed.

Lemma sector_log_cons (p : Z * Z) (l : list (Z * Z)) :
  sector_log (p :: l) =
    [Disk.EvSeek (sector_offset (fst p) (snd p)); Disk.EvRead 256] ++ sector_log l.
Proof. reflexivity. Qed.

Lemma reads_sector_log (l : list (Z * Z)) : reads (sector_log l) = len l.
Proof.
  unfold sector_log, sector_reads, len.
  induction l as [|p l IH]; [reflexivity|].
  cbn [map flat_map List.length]. rewrite reads_app, IH.
  change (reads [_; _]) with 1. lia.
Qed.

(** A callback that never stops the walk, and asks nothing of the file. *)
Lemma never_stopping_callback {U A B : Type} (f : A -> U -> (B + exn) * U) (b : B) :
  (forall a u, fst (f a u) = inl b) ->
  forall a w, exists w',
    python_callback f a w = (Ok b, w') /\ Disk.oplog w' = Disk.oplog w.
Proof.
  intros H a w. unfold python_callback, Disk.on_user. specialize (H a (Disk.user w)).
  destruct (f a (Disk.user w)) as [r u']. cbn [fst] in H. subst r.
  eexists. split; reflexivity.
Qed.

Lemma call_until_never_stopped {U A R : Type}
  (callback : A -> M (Disk.world U) (option R)) (items : list A) :
  (forall a w, exists w', callback a w = (Ok None, w') /\ Disk.oplog w' = Disk.oplog w) ->
  forall w, exists w',
    call_until callback items w = (Ok None, w') /\ Disk.oplog w' = Disk.oplog w.
Proof.
  intros Hc. induction items as [|a items IH]; intros w.
  - exists w. split; reflexivity.
  - cbn [call_until]. unfold bind. destruct (Hc a w) as (w1 & -> & E1).
    destruct (IH w1) as (w2 & -> & E2). exists w2. split; [reflexivity|].
    rewrite E2. exact E1.
Qed.

Lemma chain_S (image : bytes) (n : nat) (track sector : Z) :
  chain image (S n) track sector =
    if track =? 0 then []
    else (track, sector)
           :: chain image n (byte_at (sector_at image track sector) 1)
                            (byte_at (sector_at image track sector) 2).
Proof. reflexivity. Qed.

Lemma chain_whole (image : bytes) (n : nat) :
  forall track sector,
    List.length (chain image (S n) track sector) = S n ->
    List.length (chain image n track sector) = n.
Proof.
  induction n as [|n IH]; intros track sector H; [reflexivity|].
  rewrite chain_S in H. rewrite chain_S.
  destruct (track =? 0); [discriminate|].
  cbn [List.length] in *. f_equal. apply IH. lia.
Qed.

(** On a full image, a catalog chain of more than [n] sectors, the first
    [n] of them in the geometry, and a callback that never stops the walk:
    from hop count 559 - [n], the loop of [walk_entries] reads those [n]
    sectors and raises its hop error at the test for the next. *)
Lemma walk_entries_loop_hop_error (image : bytes) (U R : Type)
  (callback : Catalog.entry -> M (Disk.world U) (option R)) :
  len image = FULL_GEOMETRY ->
  (forall e w, exists w', callback e w = (Ok None, w') /\ Disk.oplog w' = Disk.oplog w) ->
  forall (n fuel : nat) (hop track sector : Z) (w : Disk.world U),
    (n < fuel)%nat -> hop + Z.of_nat n = MAX_HOPS - 1 ->
    List.length (chain image (S n) track sector) = S n ->
    forallb in_geometry (chain image n track sector) = true ->
    exists w',
      Catalog.walk_entries_loop image callback fuel hop track sector w =
        (Raise ExceededCatalogHops, w')
      /\ Disk.oplog w' = Disk.oplog w ++ sector_log (chain image n track sector).
Proof.
  intros Hl Hcb. induction n as [|n IH]; intros fuel hop track sector w Hf Hh Hn Hc.
  - destruct fuel as [|fuel]; [lia|].
    rewrite chain_S in Hn. cbn [Catalog.walk_entries_loop chain].
    destruct (track =? 0); [discriminate|]. cbn [negb].
    destruct (Z.geb_spec (hop + 1) MAX_HOPS); [|lia].
    exists w. split; [reflexivity|]. cbn. rewrite app_nil_r. reflexivity.
  - destruct fuel as [|fuel]; [lia|].
    rewrite chain_S in Hn. rewrite chain_S in Hc |- *.
    destruct (Z.eqb_spec track 0) as [->|Hne]; [discriminate|].
    cbn [forallb List.length] in *.
    apply andb_prop in Hc. destruct Hc as [Hg Hc].
    rewrite walk_entries_loop_step by (assumption || lia).
    destruct (read_sect_full image U w track sector Hl Hg) as [_ Hcs].
    rewrite scan_entries_spec by (intros i Hi; apply catalog_slots_in_sector; assumption).
    destruct (call_until_never_stopped callback
                (map (slot_entry (sector_at image track sector))
                   (filter (slot_live (sector_at image track sector)) catalog_slots))
                Hcb (after_read w track sector)) as (w2 & -> & E2).
    destruct (IH fuel (hop + 1)
                (byte_at (sector_at image track sector) 1)
                (byte_at (sector_at image track sector) 2) w2
                ltac:(lia) ltac:(lia) ltac:(lia) Hc) as (w' & Hw & E').
    exists w'. split; [exact Hw|]. rewrite E', E2.
    change ((track, sector) :: ?l) with ([(track, sector)] ++ l).
    rewrite sector_log_app, app_assoc. reflexivity.
Qed.

Lemma scan_pairs_trace (image : bytes) (U : Type)
  (callback : bytes -> M (Disk.world U) unit)
  (tsl : bytes) (slots : list Z) (w : Disk.world U) :
  len image = FULL_GEOMETRY ->
  (forall d w0, exists w', callback d w0 = (Ok tt, w') /\ Disk.oplog w' = Disk.oplog w0) ->
  (forall i, In i slots -> 0 <= i /\ i + 2 <= len tsl) ->
  forallb in_geometry (before_zero (map (pair_at tsl) slots)) = true ->
  exists w', Files.scan_pairs image callback tsl slots w = (Ok tt, w')
    /\ Disk.oplog w' =
         Disk.oplog w ++ sector_log (before_zero (map (pair_at tsl) slots)).
Proof.
  intros Hl Hcb. revert w. induction slots as [|i slots IH]; intros w Hs Hg.
  - exists w. split; [reflexivity|]. cbn. rewrite app_nil_r. reflexivity.
  - cbn [Files.scan_pairs map before_zero] in *.
    destruct (Hs i (or_introl eq_refl)) as [Hi Hi2].
    destruct (slice_pair tsl i Hi Hi2) as (t & s & -> & Et & Es).
    rewrite Et, Es.
    change (fst (pair_at tsl i)) with (byte_at tsl i) in *.
    change (snd (pair_at tsl i)) with (byte_at tsl (i + 1)) in *.
    destruct ((byte_at tsl i =? 0) && (byte_at tsl (i + 1) =? 0)).
    + exists w. split; [reflexivity|]. cbn. rewrite app_nil_r. reflexivity.
    + cbn [forallb] in Hg. apply andb_prop in Hg. destruct Hg as [Hg1 Hg2].
      change (pair_at tsl i) with (byte_at tsl i, byte_at tsl (i + 1)) in *.
      unfold bind at 1.
      rewrite (proj1 (read_sect_full image U w _ _ Hl Hg1)).
      unfold bind at 1.
      destruct (Hcb (sector_at image (byte_at tsl i) (byte_at tsl (i + 1)))
                  (after_read w (byte_at tsl i) (byte_at tsl (i + 1))))
        as (w1 & -> & E1).
      destruct (IH w1 (fun j Hj => Hs j (or_intror Hj)) Hg2) as (w' & Hw & E').
      exists w'. split; [exact Hw|]. rewrite E', E1.
      change ((byte_at tsl i, byte_at tsl (i + 1)) :: ?l)
        with ([(byte_at tsl i, byte_at tsl (i + 1))] ++ l).
      rewrite sector_log_app, app_assoc. reflexivity.
Qed.

(** The same for the loop of [walk_sectors], with a callback that always
    returns, and the data sectors pointed at in the geometry too. *)
Lemma walk_sectors_loop_hop_error (image : bytes) (U : Type)
  (callback : bytes -> M (Disk.world U) unit) :
  len image = FULL_GEOMETRY ->
  (forall d w0, exists w', callback d w0 = (Ok tt, w') /\ Disk.oplog w' = Disk.oplog w0) ->
  forall (n fuel : nat) (hop track sector : Z) (w : Disk.world U),
    (n < fuel)%nat -> hop + Z.of_nat n = MAX_HOPS - 1 ->
    List.length (chain image (S n) track sector) = S n ->
    forallb in_geometry (chain image n track sector) = true ->
    forallb in_geometry (file_pointers image n track sector) = true ->
    exists w',
      Files.walk_sectors_loop image callback fuel hop track sector w =
        (Raise ExceededTSListHops, w')
      /\ Disk.oplog w' = Disk.oplog w ++ sector_log (file_sectors image n track sector).
Proof.
  intros Hl Hcb. unfold file_pointers, file_sectors.
  induction n as [|n IH]; intros fuel hop track sector w Hf Hh Hn Hc Hp.
  - destruct fuel as [|fuel]; [lia|].
    rewrite chain_S in Hn. cbn [Files.walk_sectors_loop chain].
    destruct (track =? 0); [discriminate|]. cbn [negb].
    destruct (Z.geb_spec (hop + 1) MAX_HOPS); [|lia].
    exists w. split; [reflexivity|]. cbn. rewrite app_nil_r. reflexivity.
  - destruct fuel as [|fuel]; [lia|].
    rewrite chain_S in Hn. rewrite chain_S in Hc, Hp |- *.
    destruct (Z.eqb_spec track 0) as [->|Hne]; [discriminate|].
    cbn [forallb List.length flat_map fst snd] in *.
    apply andb_prop in Hc. destruct Hc as [Hg Hc].
    rewrite forallb_app in Hp. apply andb_prop in Hp. destruct Hp as [Hp1 Hp2].
    rewrite walk_sectors_loop_step by (assumption || lia).
    destruct (read_sect_full image U w track sector Hl Hg) as [_ Hcs].
    destruct (scan_pairs_trace image U callback (sector_at image track sector)
                (range 0x0C 0xFF 0x02) (after_read w track sector) Hl Hcb
                (fun i Hi => pair_slots_in_sector _ i Hcs Hi) Hp1) as (w2 & -> & E2).
    destruct (IH fuel (hop + 1)
                (byte_at (sector_at image track sector) 1)
                (byte_at (sector_at image track sector) 2) w2
                ltac:(lia) ltac:(lia) ltac:(lia) Hc Hp2) as (w' & Hw & E').
    exists w'. split; [exact Hw|]. rewrite E', E2. unfold after_read, data_pointers.
    cbn [Disk.oplog]. rewrite sector_log_app, sector_log_cons. cbn [fst snd].
    rewrite <- !app_assoc. reflexivity.
Qed.


(** How a computation made of two ends, from how its parts end. *)
Lemma bind_ends {S A B : Type} (m : M S A) (k : A -> M S B)
  (Q : result B -> Prop) (s : S) :
  (forall e, fst (m s) = Raise e -> Q (Raise e)) ->
  (fst (m s) = OutOfFuel -> Q OutOfFuel) ->
  (forall a s', m s = (Ok a, s') -> Q (fst (k a s'))) ->
  Q (fst (bind m k s)).
Proof.
  intros He Ho Hk. unfold bind. destruct (m s) as [[a|e|] s']; cbn [fst] in *.
  - apply Hk. reflexivity.
  - apply He. reflexivity.
  - apply Ho. reflexivity.
Qed.

Lemma getitem_raises (buff : bytes) (i : Z) (e : exn) :
  getitem buff i = Raise e -> e = IndexError.
Proof.
  unfold getitem. destruct (_ <? 0); [congruence|].
  destruct (nth_error _ _); congruence.
Qed.

Lemma rbind_raises {A B : Type} (P : exn -> Prop) (r : result A) (k : A -> result B)
  (e : exn) :
  (forall x, r = Raise x -> P x) -> (forall a x, k a = Raise x -> P x) ->
  rbind r k = Raise e -> P e.
Proof.
  intros Hr Hk. destruct r; cbn [rbind]; [apply Hk | | discriminate].
  intros H. injection H as <-. apply Hr. reflexivity.
Qed.

Ltac raise_step lem :=
  cbv zeta;
  match goal with
  | |- rbind ?r _ = Raise _ -> _ =>
      let E := fresh "E" in
      let H := fresh "H" in
      destruct r eqn:E; cbn [rbind];
      [ | intros H; injection H as <-; exact (lem _ _ _ E) | discriminate ]
  end.

Lemma join_chars_raises (buff : bytes) (js : list Z) (e : exn) :
  Catalog.join_chars buff js = Raise e -> e = IndexError.
Proof.
  revert e. induction js as [|j js IH]; intros e; cbn [Catalog.join_chars];
    [discriminate|].
  raise_step getitem_raises.
  destruct (Catalog.join_chars buff js) as [s0|x|]; cbn [rbind]; try discriminate.
  intros H. injection H as <-. apply IH. reflexivity.
Qed.

Lemma read_word_littleendian_raises (buff : bytes) (offset : Z) (e : exn) :
  read_word_littleendian buff offset = Raise e -> e = IndexError.
Proof.
  unfold read_word_littleendian. do 2 raise_step getitem_raises. discriminate.
Qed.

Lemma entry_test_raises (buff : bytes) (e : exn) :
  Catalog.entry_test buff = Raise e -> e = IndexError.
Proof.
  unfold Catalog.entry_test. raise_step getitem_raises.
  destruct (negb _); [|discriminate]. raise_step getitem_raises. discriminate.
Qed.

Lemma decode_raises (buff : bytes) (e : exn) :
  Catalog.decode buff = Raise e -> e = IndexError.
Proof.
  unfold Catalog.decode. do 3 raise_step getitem_raises. cbv zeta. cbn [rbind].
  raise_step read_word_littleendian_raises. raise_step join_chars_raises.
  discriminate.
Qed.

Lemma read_sect_raises (image : bytes) (U : Type) (track sector : Z)
  (w : Disk.world U) (e : exn) :
  fst (Disk.read_sect image track sector w) = Raise e ->
  e = SeekOutOfRange \/ e = OSError.
Proof.
  unfold Disk.read_sect, Disk.seek_sect, bind, raise, Disk.file_seek, Disk.file_read.
  destruct (_ || _); cbn [fst]; [intros H; left; congruence|].
  destruct (_ <? 0); cbn [fst]; [intros H; right; congruence | discriminate].
Qed.

Lemma python_callback_raises {U A B : Type} (f : A -> U -> (B + exn) * U) (a : A)
  (w : Disk.world U) (e : exn) :
  fst (python_callback f a w) = Raise e -> exists u, fst (f a u) = inr e.
Proof.
  unfold python_callback, Disk.on_user. destruct (f a (Disk.user w)) as [[b|x] u'] eqn:E;
    cbn [fst]; [discriminate|].
  intros H. injection H as <-. exists (Disk.user w). rewrite E. reflexivity.
Qed.

Lemma python_callback_answers {U A B : Type} (f : A -> U -> (B + exn) * U) (a : A)
  (w w' : Disk.world U) (b : B) :
  python_callback f a w = (Ok b, w') -> exists u, fst (f a u) = inl b.
Proof.
  unfold python_callback, Disk.on_user. destruct (f a (Disk.user w)) as [[b0|x] u'] eqn:E;
    [|discriminate].
  intros H. injection H as <- _. exists (Disk.user w). rewrite E. reflexivity.
Qed.

Lemma scan_entries_end (U R : Type) (f : Catalog.entry -> U -> (option R + exn) * U)
  (sector : bytes) (slots : list Z) (w : Disk.world U) :
  walk_entries_end f (fst (Catalog.scan_entries (python_callback f) sector slots w)).
Proof.
  revert w. induction slots as [|i slots IH]; intros w; [exact I|].
  cbn [Catalog.scan_entries].
  apply bind_ends.
  - unfold lift. cbn [fst]. intros e H. left.
    rewrite (entry_test_raises _ _ H). cbv [In]. tauto.
  - unfold lift. cbn [fst]. intros H. exact (entry_test_returns _ H).
  - intros [|] w1 _; [|apply IH].
    apply bind_ends.
    + unfold lift. cbn [fst]. intros e H. left.
      rewrite (decode_raises _ _ H). cbv [In]. tauto.
    + unfold lift. cbn [fst]. intros H. exact (decode_returns _ H).
    + intros e w2 _. apply bind_ends.
      * intros x H. right. destruct (python_callback_raises f e w2 x H) as [u Hu]. eauto.
      * intros H. exact (python_callback_terminates f e w2 H).
      * intros [v|] w3 H; [|apply IH].
        destruct (python_callback_answers f e w2 w3 (Some v) H) as [u Hu].
        cbn. eauto.
Qed.

Lemma walk_entries_loop_end (image : bytes) (U R : Type)
  (f : Catalog.entry -> U -> (option R + exn) * U) :
  forall (fuel : nat) (hop track sector : Z) (w : Disk.world U),
    hop < MAX_HOPS <= hop + Z.of_nat fuel ->
    walk_entries_end f
      (fst (Catalog.walk_entries_loop image (python_callback f) fuel hop track sector w)).
Proof.
  induction fuel as [|fuel IH]; intros hop track sector w Hh; [lia|].
  cbn [Catalog.walk_entries_loop].
  destruct (negb (track =? 0)); [|exact I].
  destruct (Z.geb_spec (hop + 1) MAX_HOPS); [left; cbv [In]; tauto|].
  apply bind_ends.
  - intros e Hr. left. destruct (read_sect_raises image U track sector w e Hr) as [->| ->];
      cbv [In]; tauto.
  - intros Ho. exact (read_sect_terminates image U track sector w Ho).
  - intros d w1 _. apply bind_ends.
    + intros e Hr. pose proof (scan_entries_end U R f d
                    (range Catalog.ENTRY_OFFSET 255 Catalog.ENTRY_SIZE) w1) as Hs.
      rewrite Hr in Hs. exact Hs.
    + intros Ho. pose proof (scan_entries_end U R f d
                    (range Catalog.ENTRY_OFFSET 255 Catalog.ENTRY_SIZE) w1) as Hs.
      rewrite Ho in Hs. contradiction.
    + intros [v|] w2 Hv.
      * pose proof (scan_entries_end U R f d
                    (range Catalog.ENTRY_OFFSET 255 Catalog.ENTRY_SIZE) w1) as Hs. rewrite Hv in Hs. exact Hs.
      * apply bind_ends.
        -- unfold lift. cbn [fst]. intros e He. left.
           rewrite (getitem_raises _ _ _ He). cbv [In]. tauto.
        -- unfold lift. cbn [fst]. intros He. exact (getitem_returns _ _ He).
        -- intros t w3 _. apply bind_ends.
           ++ unfold lift. cbn [fst]. intros e He. left.
              rewrite (getitem_raises _ _ _ He). cbv [In]. tauto.
           ++ unfold lift. cbn [fst]. intros He. exact (getitem_returns _ _ He).
           ++ intros s0 w4 _. apply IH. lia.
Qed.

Lemma scan_pairs_end (image : bytes) (U : Type) (g : bytes -> U -> (unit + exn) * U)
  (tsl : bytes) (slots : list Z) (w : Disk.world U) :
  walk_sectors_end g (fst (Files.scan_pairs image (python_callback g) tsl slots w)).
Proof.
  revert w. induction slots as [|i slots IH]; intros w; [exact I|].
  cbn [Files.scan_pairs].
  destruct (slice tsl i (i + 2)) as [|t [|s [|x l]]];
    try (left; cbv [In]; tauto).
  destruct ((byte_val t =? 0) && (byte_val s =? 0)); [exact I|].
  apply bind_ends.
  - intros e Hr. left.
    destruct (read_sect_raises image U (byte_val t) (byte_val s) w e Hr) as [->| ->];
      cbv [In]; tauto.
  - intros Ho. exact (read_sect_terminates image U _ _ w Ho).
  - intros d w1 _. apply bind_ends.
    + intros e Hr. right. destruct (python_callback_raises g d w1 e Hr) as [u Hu]. eauto.
    + intros Ho. exact (python_callback_terminates g d w1 Ho).
    + intros _ w2 _. apply IH.
Qed.

Lemma walk_sectors_loop_end (image : bytes) (U : Type)
  (g : bytes -> U -> (unit + exn) * U) :
  forall (fuel : nat) (hop track sector : Z) (w : Disk.world U),
    hop < MAX_HOPS <= hop + Z.of_nat fuel ->
    walk_sectors_end g
      (fst (Files.walk_sectors_loop image (python_callback g) fuel hop track sector w)).
Proof.
  induction fuel as [|fuel IH]; intros hop track sector w Hh; [lia|].
  cbn [Files.walk_sectors_loop].
  destruct (negb (track =? 0)); [|exact I].
  destruct (Z.geb_spec (hop + 1) MAX_HOPS); [left; cbv [In]; tauto|].
  apply bind_ends.
  - intros e Hr. left. destruct (read_sect_raises image U track sector w e Hr) as [->| ->];
      cbv [In]; tauto.
  - intros Ho. exact (read_sect_terminates image U track sector w Ho).
  - intros d w1 _. apply bind_ends.
    + intros e Hr. pose proof (scan_pairs_end image U g d (range 12 255 2) w1) as Hs.
      rewrite Hr in Hs. exact Hs.
    + intros Ho. pose proof (scan_pairs_end image U g d (range 12 255 2) w1) as Hs.
      rewrite Ho in Hs. contradiction.
    + intros _ w2 _. apply bind_ends.
      * unfold lift. cbn [fst]. intros e He. left.
        rewrite (getitem_raises _ _ _ He). cbv [In]. tauto.
      * unfold lift. cbn [fst]. intros He. exact (getitem_returns _ _ He).
      * intros t w3 _. apply bind_ends.
        -- unfold lift. cbn [fst]. intros e He. left.
           rewrite (getitem_raises _ _ _ He). cbv [In]. tauto.
        -- unfold lift. cbn [fst]. intros He. exact (getitem_returns _ _ He).
        -- intros s0 w4 _. apply IH. lia.
Qed.

Lemma walk_entries_ends (image : bytes) (U R : Type)
  (f : Catalog.entry -> U -> (option R + exn) * U)
  (vtoc_buffer : bytes) (w : Disk.world U) :
  walk_entries_end f (fst (Catalog.walk_entries image (python_callback f) vtoc_buffer w)).
Proof.
  unfold Catalog.walk_entries. apply bind_ends.
  - unfold lift, VTOC.catalog_track_sector. cbn [fst]. intros e He. left.
    assert (Hi : e = IndexError)
      by (revert He; do 2 raise_step getitem_raises; discriminate).
    rewrite Hi. cbv [In]. tauto.
  - unfold lift, VTOC.catalog_track_sector. cbn [fst].
    apply rbind_returns; [apply getitem_returns|]. intros t.
    apply rbind_returns; [apply getitem_returns|]. discriminate.
  - intros ts w1 _. apply walk_entries_loop_end. unfold MAX_HOPS. lia.
Qed.




(** ** dump: looking a name up *)

Lemma length_append (s1 s2 : string) :
  String.length (s1 ++ s2) = (String.length s1 + String.length s2)%nat.
Proof. induction s1 as [|c s1 IH]; cbn; [reflexivity | rewrite IH; reflexivity]. Qed.

Lemma join_chars_length (buff : bytes) (js : list Z) (s : string) :
  Catalog.join_chars buff js = Ok s -> String.length s = List.length js.
Proof.
  revert s. induction js as [|j js IH]; intros s H; cbn [Catalog.join_chars] in H.
  - injection H as <-. reflexivity.
  - destruct (getitem buff j); cbn [rbind] in H; try discriminate.
    destruct (Catalog.join_chars buff js) as [s'| |]; cbn [rbind] in H; try discriminate.
    injection H as <-. cbn. rewrite (IH s' eq_refl). reflexivity.
Qed.

Lemma decode_name_length (buff : bytes) (e : Catalog.entry) :
  Catalog.decode buff = Ok e -> String.length (Catalog.name e) = 30%nat.
Proof.
  unfold Catalog.decode. intros H.
  repeat match type of H with
         | rbind ?r _ = _ => destruct r eqn:?; cbn [rbind] in H; try discriminate
         end.
  injection H as <-. cbn [Catalog.name].
  match goal with E : Catalog.join_chars _ _ = _ |- _ =>
    rewrite (join_chars_length _ _ _ E) end.
  reflexivity.
Qed.

Lemma find_entry_long_name (file_name : string) (e : Catalog.entry) :
  (30 < String.length file_name)%nat ->
  String.length (Catalog.name e) = 30%nat ->
  Dump.find_entry file_name e = None.
Proof.
  intros Hlong He. unfold Dump.find_entry.
  destruct (String.eqb_spec (Catalog.name e) (Dump.format_30s file_name)) as [E|];
    [|reflexivity].
  exfalso. rewrite E in He. unfold Dump.format_30s in He.
  rewrite length_append in He. lia.
Qed.

Lemma scan_entries_long_name (file_name : string) (U : Type)
  (sector : bytes) (slots : list Z) (w : Disk.world U) (v : Z * Z * Z) :
  (30 < String.length file_name)%nat ->
  fst (Catalog.scan_entries (fun e => ret (Dump.find_entry file_name e)) sector slots w)
    <> Ok (Some v).
Proof.
  intros Hlong. induction slots as [|i slots IH]; cbn [Catalog.scan_entries];
    [discriminate|].
  unfold bind at 1, lift at 1.
  destruct (Catalog.entry_test (slice_from sector i)) as [[|]| |]; try discriminate;
    [|exact IH].
  unfold bind at 1, lift at 1.
  destruct (Catalog.decode (slice_from sector i)) as [e| |] eqn:E; try discriminate.
  unfold bind at 1, ret at 1.
  rewrite (find_entry_long_name file_name e Hlong (decode_name_length _ _ E)).
  exact IH.
Qed.

Lemma walk_entries_loop_long_name (image : bytes) (file_name : string) (U : Type)
  (v : Z * Z * Z) :
  (30 < String.length file_name)%nat ->
  forall (fuel : nat) (hop track sector : Z) (w : Disk.world U),
    fst (Catalog.walk_entries_loop image (fun e => ret (Dump.find_entry file_name e))
           fuel hop track sector w) <> Ok (Some v).
Proof.
  intros Hlong. induction fuel as [|fuel IH]; intros hop track sector w;
    [discriminate|].
  cbn [Catalog.walk_entries_loop].
  destruct (negb (track =? 0)); [|discriminate].
  destruct (hop + 1 >=? MAX_HOPS); [discriminate|].
  unfold bind at 1.
  destruct (Disk.read_sect image track sector w) as [[d| |] w1]; try discriminate.
  unfold bind at 1.
  pose proof (scan_entries_long_name file_name U d
                (range Catalog.ENTRY_OFFSET 255 Catalog.ENTRY_SIZE) w1 v Hlong) as Hs.
  destruct (Catalog.scan_entries _ d _ w1) as [[[v'|]| |] w2]; try discriminate.
  - cbn [fst] in Hs. unfold ret. cbn [fst]. intros E. apply Hs.
    injection E as ->. reflexivity.
  - unfold bind at 1, lift at 1.
    destruct (getitem d Catalog.NEXT_TRACK_OFFSET); try discriminate.
    unfold bind at 1, lift at 1.
    destruct (getitem d Catalog.NEXT_SECTOR_OFFSET); try discriminate.
    apply IH.
Qed.

Lemma walk_entries_long_name (image : bytes) (file_name : string) (U : Type)
  (vtoc_buffer : bytes) (w : Disk.world U) (v : Z * Z * Z) :
  (30 < String.length file_name)%nat ->
  fst (Catalog.walk_entries image (fun e => ret (Dump.find_entry file_name e))
         vtoc_buffer w) <> Ok (Some v).
Proof.
  intros Hlong. unfold Catalog.walk_entries, bind, lift.
  destruct (VTOC.catalog_track_sector vtoc_buffer); try discriminate.
  apply walk_entries_loop_long_name. exact Hlong.
Qed.

Lemma VTOC_init_terminates (image : bytes) (U : Type) :
  terminates (@VTOC.init U image).
Proof.
  unfold VTOC.init. ends. apply terminates_lift. unfold VTOC.validate.
  induction VTOC.VALIDATION as [|[o v] l IH]; cbn [VTOC.validate_loop]; ends.
  destruct (negb _); [discriminate | exact IH].
Qed.




(** ** applesoft.py: the de-tokenizer *)

Lemma lines_loop_unfold (fuel : nat) (length : Z) (st : Applesoft.detok) :
  Applesoft.lines_loop (S fuel) length st =
    if Applesoft.index st <? length then
      (memory <- Applesoft.read_word ;;
       line_number <- Applesoft.read_word ;;
       Applesoft.write (Applesoft.format_int line_number ++ " ") ;;;
       Applesoft.line_loop (S fuel) ;;;
       Applesoft.lines_loop fuel length) st
    else (Ok tt, st).
Proof.
  cbn [Applesoft.lines_loop]. unfold bind at 1, Applesoft.get_index.
  destruct (Applesoft.index st <? length); reflexivity.
Qed.

Lemma read_byte_cases (st : Applesoft.detok) :
  within st ->
  (exists e, Applesoft.read_byte st = (Raise e, st))
  \/ (exists d, Applesoft.read_byte st =
         (Ok d, Applesoft.Detok (Applesoft.data st) (Applesoft.index st + 1)
                  (Applesoft.stdout st))
       /\ Applesoft.index st < len (Applesoft.data st)).
Proof.
  intros [H0 H1]. unfold Applesoft.read_byte.
  destruct (getitem (Applesoft.data st) (Applesoft.index st)) as [d|e|] eqn:E.
  - right. exists d. split; [reflexivity|]. apply (getitem_Ok_inv _ _ _ H0 E).
  - left. eauto.
  - exfalso. exact (getitem_returns _ _ E).
Qed.

Lemma read_word_cases (st : Applesoft.detok) :
  within st ->
  (exists e st', Applesoft.read_word st = (Raise e, st'))
  \/ (exists v, Applesoft.read_word st =
         (Ok v, Applesoft.Detok (Applesoft.data st) (Applesoft.index st + 2)
                  (Applesoft.stdout st))
       /\ Applesoft.index st + 2 <= len (Applesoft.data st)).
Proof.
  intros Hw. unfold Applesoft.read_word, bind.
  destruct (read_byte_cases st Hw) as [[e ->]|[lo [-> Hlo]]]; [left; eauto|].
  set (st1 := Applesoft.Detok _ _ _).
  assert (Hw1 : within st1) by (destruct Hw; split; cbn; lia).
  destruct (read_byte_cases st1 Hw1) as [[e ->]|[hi [-> Hhi]]]; [left; eauto|].
  right. exists (lo + 0x100 * hi). subst st1.
  cbn [Applesoft.data Applesoft.index Applesoft.stdout] in *. split; [|lia].
  unfold ret.
  replace (Applesoft.index st + 1 + 1) with (Applesoft.index st + 2) by lia.
  reflexivity.
Qed.

Ltac settle :=
  repeat split; try discriminate; try reflexivity;
  try (intros ? ?; discriminate);
  try (unfold within, remaining in *;
       cbn [fst snd Applesoft.data Applesoft.index Applesoft.stdout] in *; lia).

(** The loop over a line needs no more turns than bytes are left, and one;
    it reads on in the same data, and when it returns it has read a byte. *)
Lemma line_loop_ends (fuel : nat) (st : Applesoft.detok)
  (r : result unit) (st' : Applesoft.detok) :
  within st -> remaining st < Z.of_nat fuel ->
  Applesoft.line_loop fuel st = (r, st') ->
  r <> OutOfFuel
  /\ within st'
  /\ Applesoft.data st' = Applesoft.data st
  /\ Applesoft.index st <= Applesoft.index st'
  /\ (forall u, r = Ok u -> Applesoft.index st < Applesoft.index st').
Proof.
  revert st. induction fuel as [|fuel IH]; intros st Hw Hr E.
  - unfold within, remaining in *. lia.
  - cbn [Applesoft.line_loop] in E. unfold bind at 1 in E.
    destruct (read_byte_cases st Hw) as [[e He]|[d [Hd Hlt]]]; rewrite ?He, ?Hd in E.
    + injection E as <- <-. settle.
    + assert (Hstep : forall out,
                Applesoft.line_loop fuel
                  (Applesoft.Detok (Applesoft.data st) (Applesoft.index st + 1) out)
                  = (r, st') ->
                r <> OutOfFuel
                /\ within st'
                /\ Applesoft.data st' = Applesoft.data st
                /\ Applesoft.index st <= Applesoft.index st'
                /\ (forall u, r = Ok u -> Applesoft.index st < Applesoft.index st')).
      { intros out E2.
        assert (Hw2 : within (Applesoft.Detok (Applesoft.data st)
                                (Applesoft.index st + 1) out)) by settle.
        assert (Hr2 : remaining (Applesoft.Detok (Applesoft.data st)
                                   (Applesoft.index st + 1) out) < Z.of_nat fuel)
          by settle.
        destruct (IH _ Hw2 Hr2 E2) as (A & B & C & D & F).
        cbn [Applesoft.data Applesoft.index] in *.
        repeat split; try assumption; try apply B; try lia.
        all: intros u Hu; specialize (F u Hu); lia. }
      destruct (d =? 0).
      { unfold Applesoft.write in E. injection E as <- <-. settle. }
      destruct (d <=? 0x7F).
      * unfold bind, Applesoft.write in E.
        cbn [Applesoft.data Applesoft.index Applesoft.stdout] in E.
        exact (Hstep _ E).
      * unfold bind, lift, Applesoft.token in E.
        destruct (Applesoft.lookup d Applesoft.TOKENS) as [keyword|].
        -- unfold Applesoft.write in E.
           cbn [Applesoft.data Applesoft.index Applesoft.stdout] in E.
           exact (Hstep _ E).
        -- injection E as <- <-. settle.
Qed.

Lemma lines_loop_ends (fuel : nat) (length : Z) (st : Applesoft.detok) :
  within st -> remaining st < Z.of_nat fuel ->
  fst (Applesoft.lines_loop fuel length st) <> OutOfFuel.
Proof.
  revert st. induction fuel as [|fuel IH]; intros st Hw Hr.
  - unfold within, remaining in *. lia.
  - rewrite lines_loop_unfold.
    destruct (Applesoft.index st <? length); [|discriminate].
    unfold bind at 1.
    destruct (read_word_cases st Hw) as [(e & st' & ->)|(memory & -> & Hm)];
      [discriminate|].
    unfold bind at 1.
    destruct (read_word_cases (Applesoft.Detok (Applesoft.data st)
                                 (Applesoft.index st + 2) (Applesoft.stdout st)))
      as [(e & st' & ->)|(line_number & -> & Hn)]; [settle|discriminate|].
    cbn [Applesoft.data Applesoft.index Applesoft.stdout] in *.
    unfold bind at 1, Applesoft.write at 1.
    cbn [Applesoft.data Applesoft.index Applesoft.stdout].
    unfold bind.
    match goal with |- context [Applesoft.line_loop (S fuel) ?s] =>
      assert (Hw4 : within s) by settle;
      assert (Hr4 : remaining s < Z.of_nat (S fuel)) by settle;
      destruct (Applesoft.line_loop (S fuel) s) as [r5 st5] eqn:E5;
      destruct (line_loop_ends _ _ _ _ Hw4 Hr4 E5) as (A & B & C & D & F) end.
    cbn [Applesoft.data Applesoft.index Applesoft.stdout] in *.
    destruct r5 as [u|e|]; [|discriminate|contradiction].
    apply IH; [exact B|].
    specialize (F u eq_refl). unfold remaining in *. rewrite C. lia.
Qed.

(** [detokenize] returns or raises on every buffer: the turns it allows
    its loops are enough. *)
Lemma detokenize_ends (buffer : bytes) (out : string) :
  fst (Applesoft.detokenize buffer out) <> OutOfFuel.
Proof.
  unfold Applesoft.detokenize, Applesoft.detokenize_from, bind.
  set (st := Applesoft.Detok buffer 0 out).
  assert (Hw : within st) by (split; cbn; unfold len; lia).
  destruct (read_word_cases st Hw) as [(e & st' & ->)|(total & -> & Ht)];
    [cbn; discriminate|].
  set (st2 := Applesoft.Detok _ _ _).
  pose proof (lines_loop_ends (S (List.length buffer)) total st2) as H.
  destruct (Applesoft.lines_loop (S (List.length buffer)) total st2) as [r st'].
  cbn [fst] in *. apply H.
  - split; cbn in *; lia.
  - unfold remaining, len. cbn. lia.
Qed.

(** C5, as amended.  For the buffer made of a total length, a pointer,
    the line number 10 and the bytes BA 20 22 48 49 22 00, with a length
    that lets the loop take the line and stop after it, [detokenize]
    returns, having written 10, a space, the keyword PRINT between two
    spaces, the space of the line, the text "HI" in its quotes and a line
    break: two spaces stand before PRINT and two after it. *)
Theorem detokenize_print_hi (length_lo length_hi memory_lo memory_hi : byte) :
  2 < byte_val length_lo + 0x100 * byte_val length_hi <= 13 ->
  Applesoft.detokenize (program_hi length_lo length_hi memory_lo memory_hi) EmptyString
    = (Ok tt, listing_hi).
Proof.
  intros [Hlo Hhi]. unfold Applesoft.detokenize, Applesoft.detokenize_from.
  unfold bind at 1.
  change (Applesoft.read_word
            (Applesoft.Detok (program_hi length_lo length_hi memory_lo memory_hi) 0 EmptyString))
    with (Ok (byte_val length_lo + 0x100 * byte_val length_hi),
          Applesoft.Detok (program_hi length_lo length_hi memory_lo memory_hi) 2 EmptyString).
  cbv beta iota.
  remember (byte_val length_lo + 0x100 * byte_val length_hi) as total.
  change (S (List.length (program_hi length_lo length_hi memory_lo memory_hi)))
    with 14%nat.
  rewrite lines_loop_unfold. cbn [Applesoft.index].
  destruct (Z.ltb_spec 2 total); [|lia].
  lazy -[Applesoft.lines_loop].
  rewrite lines_loop_unfold. cbn [Applesoft.index].
  destruct (Z.ltb_spec 13 total); [lia|]. reflexivity.
Qed.

Lemma detokenize_print_hi_witness :
  2 < byte_val x0d + 0x100 * byte_val x00 <= 13 /\
  Applesoft.detokenize (program_hi x0d x00 x01 x08) EmptyString = (Ok tt, listing_hi).
Proof.
  assert (H : 2 < byte_val x0d + 0x100 * byte_val x00 <= 13) by (vm_compute; split; [reflexivity | discriminate]).
  split; [exact H|].
  exact (detokenize_print_hi x0d x00 x01 x08 H).
Defined.

(** C5, as stated, fails: the text with one space on each side of PRINT
    is not what is written. *)
Lemma print_hi_is_double_spaced :
  Applesoft.detokenize (program_hi x0d x00 x01 x08) EmptyString = (Ok tt, listing_hi)
  /\ listing_hi <> listing_hi_single_spaces
  /\ Applesoft.detokenize (program_hi x0d x00 x01 x08) EmptyString
       <> (Ok tt, listing_hi_single_spaces).
Proof.
  split; [|split].
  - vm_compute. reflexivity.
  - vm_compute. discriminate.
  - vm_compute. discriminate.
Qed.

(** On whole programs of one line and one byte: for every byte of 0x80 or
    more, [detokenize] writes the keyword when the byte is a key, and
    otherwise raises KeyError after the line number. *)
Lemma detokenize_one_high_byte (d : byte) :
  0x80 <= byte_val d ->
  Applesoft.detokenize (program_byte d) EmptyString =
    match Applesoft.lookup (byte_val d) Applesoft.TOKENS with
    | Some keyword =>
        (Ok tt, ("10 " ++ (" " ++ keyword ++ " ") ++ Applesoft.newline)%string)
    | None => (Raise (KeyError (byte_val d)), "10 "%string)
    end.
Proof.
  destruct d; vm_compute; intros H;
    first [reflexivity | exfalso; apply H; reflexivity].
Qed.

(** C9.  In the loop over the bytes of a line, a byte of 0x80 or more
    that is a key of the table is written as its keyword between two
    spaces, and the loop goes on with the next byte; one that is not a key
    makes the loop raise KeyError with nothing written for it.  0x85 and
    0x88 are not keys.  So on a program of one line that holds one such
    byte [detokenize] writes the keyword or raises KeyError. *)
Theorem line_loop_high_byte (buffer : bytes) (i : Z) (out : string)
  (fuel : nat) (d : Z) :
  getitem buffer i = Ok d -> 0x80 <= d ->
  match Applesoft.lookup d Applesoft.TOKENS with
  | Some keyword =>
      Applesoft.line_loop (S fuel) (Applesoft.Detok buffer i out) =
        Applesoft.line_loop fuel
          (Applesoft.Detok buffer (i + 1) (out ++ (" " ++ keyword ++ " ")))
  | None =>
      Applesoft.line_loop (S fuel) (Applesoft.Detok buffer i out) =
        (Raise (KeyError d), Applesoft.Detok buffer (i + 1) out)
  end
  /\ Applesoft.token 0x85 = Raise (KeyError 0x85)
  /\ Applesoft.token 0x88 = Raise (KeyError 0x88)
  /\ (forall b : byte, 0x80 <= byte_val b ->
        Applesoft.detokenize (program_byte b) EmptyString =
          match Applesoft.lookup (byte_val b) Applesoft.TOKENS with
          | Some keyword =>
              (Ok tt, ("10 " ++ (" " ++ keyword ++ " ") ++ Applesoft.newline)%string)
          | None => (Raise (KeyError (byte_val b)), "10 "%string)
          end).
Proof.
  intros Hd Hhigh.
  split; [|split; [reflexivity|split; [reflexivity|exact detokenize_one_high_byte]]].
  assert (E : Applesoft.line_loop (S fuel) (Applesoft.Detok buffer i out) =
              match Applesoft.lookup d Applesoft.TOKENS with
              | Some keyword =>
                  Applesoft.line_loop fuel
                    (Applesoft.Detok buffer (i + 1) (out ++ (" " ++ keyword ++ " ")))
              | None => (Raise (KeyError d), Applesoft.Detok buffer (i + 1) out)
              end).
  { cbn [Applesoft.line_loop]. unfold bind at 1, Applesoft.read_byte.
    cbn [Applesoft.data Applesoft.index Applesoft.stdout]. rewrite Hd.
    destruct (Z.eqb_spec d 0); [lia|].
    destruct (Z.leb_spec d 0x7F); [lia|].
    unfold bind, lift, Applesoft.token, Applesoft.write.
    destruct (Applesoft.lookup d Applesoft.TOKENS); reflexivity. }
  destruct (Applesoft.lookup d Applesoft.TOKENS); exact E.
Qed.

Lemma line_loop_high_byte_witness :
  Applesoft.line_loop 2 (Applesoft.Detok (bytes_of [0xBA; 0x00]) 0 EmptyString) =
    Applesoft.line_loop 1 (Applesoft.Detok (bytes_of [0xBA; 0x00]) 1 " PRINT ").
Proof.
  apply (proj1 (line_loop_high_byte (bytes_of [0xBA; 0x00]) 0 EmptyString 1 0xBA
                  eq_refl ltac:(lia))).
Defined.


(* ================================================================= *)
(** * Part IV: further properties of the program *)
(* ================================================================= *)

(** ** Reading sectors and words *)

(** X1.  [read_sect] never raises for a track below 35 and a sector below
    16, whatever the size of the image: on an image that ends before the
    end of the sector it returns the bytes there are, none when the sector
    starts at or past the end, and leaves the file at the end of what it
    read. *)
Theorem read_sect_short_image (image : bytes) (U : Type) (w : Disk.world U)
  (track sector : Z) :
  0 <= track < 35 -> 0 <= sector < 16 ->
  exists w',
    Disk.read_sect image track sector w = (Ok (sector_at image track sector), w')
    /\ len (sector_at image track sector) =
         Z.max 0 (Z.min 256 (len image - sector_offset track sector))
    /\ Disk.position w' =
         sector_offset track sector
         + Z.max 0 (Z.min 256 (len image - sector_offset track sector)).
Proof.
  intros Ht Hs.
  assert (Hl : len (sector_at image track sector) =
               Z.max 0 (Z.min 256 (len image - sector_offset track sector))).
  { unfold sector_at, slice, len. rewrite length_firstn, length_skipn.
    unfold sector_offset. lia. }
  rewrite read_sect_ok by assumption.
  eexists. split; [reflexivity|]. split; [exact Hl|].
  cbn [Disk.position]. rewrite Hl. reflexivity.
Qed.

Lemma read_sect_short_image_witness :
  exists w',
    Disk.read_sect image_100 0 0 (start tt) = (Ok (sector_at image_100 0 0), w')
    /\ len (sector_at image_100 0 0) = 100
    /\ Disk.position w' = 100.
Proof.
  destruct (read_sect_short_image image_100 unit (start tt) 0 0 ltac:(lia) ltac:(lia))
    as (w' & E & Hl & Hp).
  exists w'. split; [exact E|]. split.
  - rewrite Hl. vm_compute. reflexivity.
  - rewrite Hp. vm_compute. reflexivity.
Defined.

Lemma read_word_bigendian_spec (buff : bytes) (offset : Z) :
  0 <= offset ->
  read_word_bigendian buff offset =
    if offset + 1 <? len buff
    then Ok (byte_at buff offset * 0x100 + byte_at buff (offset + 1))
    else Raise IndexError.
Proof.
  intros Ho. unfold read_word_bigendian.
  destruct (Z.ltb_spec (offset + 1) (len buff)).
  - rewrite !getitem_byte_at by lia. reflexivity.
  - destruct (Z.lt_ge_cases offset (len buff)).
    + rewrite getitem_byte_at by lia. cbn [rbind].
      rewrite getitem_past_end by lia. reflexivity.
    + rewrite getitem_past_end by lia. reflexivity.
Qed.

Lemma read_word_littleendian_spec (buff : bytes) (offset : Z) :
  0 <= offset ->
  read_word_littleendian buff offset =
    if offset + 1 <? len buff
    then Ok (byte_at buff offset + byte_at buff (offset + 1) * 0x100)
    else Raise IndexError.
Proof.
  intros Ho. unfold read_word_littleendian.
  destruct (Z.ltb_spec (offset + 1) (len buff)).
  - rewrite !getitem_byte_at by lia. reflexivity.
  - destruct (Z.lt_ge_cases offset (len buff)).
    + rewrite getitem_byte_at by lia. cbn [rbind].
      rewrite getitem_past_end by lia. reflexivity.
    + rewrite getitem_past_end by lia. reflexivity.
Qed.

(** X2.  At an offset that is not negative, both word readers raise
    IndexError exactly when the second byte lies past the end of the
    buffer.  Otherwise each returns a value below 65536 from which the two
    bytes are got back: the little-endian word has the first byte as its
    low half, the big-endian word as its high half. *)
Theorem read_words_bounds (buff : bytes) (offset : Z) :
  0 <= offset ->
  if offset + 1 <? len buff then
    exists le be,
      read_word_littleendian buff offset = Ok le
      /\ read_word_bigendian buff offset = Ok be
      /\ 0 <= le < 65536 /\ 0 <= be < 65536
      /\ le mod 256 = byte_at buff offset /\ le / 256 = byte_at buff (offset + 1)
      /\ be / 256 = byte_at buff offset /\ be mod 256 = byte_at buff (offset + 1)
  else
    read_word_littleendian buff offset = Raise IndexError
    /\ read_word_bigendian buff offset = Raise IndexError.
Proof.
  intros Ho. rewrite read_word_littleendian_spec, read_word_bigendian_spec by assumption.
  destruct (offset + 1 <? len buff); [|split; reflexivity].
  pose proof (byte_at_range buff offset) as H0.
  pose proof (byte_at_range buff (offset + 1)) as H1.
  do 2 eexists. split; [reflexivity|]. split; [reflexivity|].
  repeat split; try lia; Z.div_mod_to_equations; lia.
Qed.

Lemma read_words_bounds_witness :
  read_word_littleendian (bytes_of [0x34; 0x12]) 0 = Ok 0x1234
  /\ read_word_bigendian (bytes_of [0x34; 0x12]) 0 = Ok 0x3412
  /\ read_word_littleendian (bytes_of [0x34; 0x12]) 1 = Raise IndexError.
Proof.
  pose proof (read_words_bounds (bytes_of [0x34; 0x12]) 0 ltac:(lia)) as H0.
  pose proof (read_words_bounds (bytes_of [0x34; 0x12]) 1 ltac:(lia)) as H1.
  split; [|split]; [reflexivity | reflexivity | exact (proj1 H1)].
Defined.

(** ** Counting free sectors *)

Lemma land_bit (w j : Z) :
  0 <= j -> (Z.land w (Z.shiftl 1 j) =? 0) = negb (Z.testbit w j).
Proof.
  intros Hj. rewrite Z.shiftl_1_l.
  destruct (Z.testbit w j) eqn:E; cbn [negb].
  - apply Z.eqb_neq. intros H.
    assert (F : Z.testbit (Z.land w (2 ^ j)) j = true)
      by (rewrite Z.land_spec, E, Z.pow2_bits_true by assumption; reflexivity).
    rewrite H, Z.bits_0 in F. discriminate.
  - apply Z.eqb_eq. apply Z.bits_inj'. intros n Hn.
    rewrite Z.land_spec, Z.bits_0, Z.pow2_bits_eqb by assumption.
    destruct (Z.eqb_spec j n) as [->|]; [rewrite E; reflexivity|].
    apply andb_false_r.
Qed.

Lemma sum_indicator {A : Type} (p : A -> bool) (l : list A) :
  sum (map (fun x => if p x then 1 else 0) l) = len (filter p l).
Proof.
  unfold len. induction l as [|a l IH]; [reflexivity|].
  cbn [map sum fold_right filter]. fold (sum (map (fun x => if p x then 1 else 0) l)).
  rewrite IH. destruct (p a); cbn [List.length]; lia.
Qed.

Lemma popcount_bounds (width n : Z) : 0 <= width -> 0 <= popcount width n <= width.
Proof.
  intros Hw. unfold popcount, len.
  pose proof (filter_length_le (Z.testbit n) (range 0 width 1)) as H.
  assert (Hr : List.length (range 0 width 1) = Z.to_nat width).
  { unfold range. rewrite length_map, length_seq.
    replace (width - 0 + 1 - 1) with width by lia. rewrite Z.div_1_r. reflexivity. }
  lia.
Qed.

(** X3.  [bit_count] counts the set bits among bits 0 to 15 of its
    argument and no other, for every integer, negative ones included; so
    its value lies between 0 and 16. *)
Theorem bit_count_low_16_bits (word : Z) :
  bit_count word = popcount 16 word /\ 0 <= bit_count word <= 16.
Proof.
  assert (E : bit_count word = popcount 16 word).
  { unfold bit_count, popcount. rewrite <- sum_indicator. f_equal.
    apply map_ext_in. intros j Hj. apply in_range_iff in Hj; [|lia].
    rewrite land_bit by lia. rewrite negb_involutive. reflexivity. }
  split; [exact E|]. rewrite E. apply popcount_bounds. lia.
Qed.

Lemma sum_map_between {A : Type} (f : A -> Z) (c : Z) (l : list A) :
  (forall x, In x l -> 0 <= f x <= c) -> 0 <= sum (map f l) <= c * len l.
Proof.
  unfold len. induction l as [|a l IH]; intros H.
  - cbn. lia.
  - cbn [map sum fold_right List.length]. fold (sum (map f l)).
    pose proof (H a (or_introl eq_refl)).
    pose proof (IH (fun x Hx => H x (or_intror Hx))). lia.
Qed.

Lemma free_sectors_list_short (buff : bytes) (tracks : list Z) :
  (forall t, In t tracks -> 0 <= t) ->
  (exists t, In t tracks /\ len buff <= 0x38 + 4 * t + 1) ->
  VTOC.free_sectors_list buff tracks = Raise IndexError.
Proof.
  induction tracks as [|t0 tracks IH]; intros Hpos [t [Hin Hshort]]; [contradiction|].
  cbn [VTOC.free_sectors_list]. unfold VTOC.track_map.
  unfold VTOC.TRACK_MAP_OFFSET, VTOC.TRACK_MAP_SIZE.
  pose proof (Hpos t0 (or_introl eq_refl)) as H0.
  rewrite read_word_bigendian_spec by lia.
  destruct (Z.ltb_spec (0x38 + t0 * 0x04 + 1) (len buff)); [|reflexivity].
  cbn [rbind]. destruct Hin as [->|Hin]; [lia|].
  rewrite IH; [reflexivity | intros; apply Hpos; right; assumption | eauto].
Qed.

Lemma free_sectors_long (vtoc_buffer : bytes) :
  0xC2 <= len vtoc_buffer ->
  exists n, VTOC.free_sectors vtoc_buffer = Ok n /\ 0 <= n <= 560.
Proof.
  intros Hl. unfold VTOC.free_sectors, Disk.TRACKS_PER_DISK.
  rewrite free_sectors_list_spec
    by (intros t Ht; apply in_range_iff in Ht; lia).
  cbn [rbind]. eexists. split; [reflexivity|].
  pose proof (sum_map_between (bitmap_bits 2 vtoc_buffer) 16 (range 0 35 1)) as H1.
  change (len (range 0 35 1)) with 35 in H1. apply H1.
  intros t _. rewrite bitmap_bits_two.
  pose proof (popcount_bounds 8 (byte_at vtoc_buffer (0x38 + 4 * t)) ltac:(lia)).
  pose proof (popcount_bounds 8 (byte_at vtoc_buffer (0x38 + 4 * t + 1)) ltac:(lia)).
  lia.
Qed.

(** X4.  [free_sectors] needs the first 0xC2 bytes of the VTOC buffer:
    on a buffer that long it returns a count between 0 and 560, and on a
    shorter one it raises IndexError. *)
Theorem free_sectors_range (vtoc_buffer : bytes) :
  if 0xC2 <=? len vtoc_buffer then
    exists n, VTOC.free_sectors vtoc_buffer = Ok n /\ 0 <= n <= 560
  else VTOC.free_sectors vtoc_buffer = Raise IndexError.
Proof.
  destruct (Z.leb_spec 0xC2 (len vtoc_buffer)).
  - apply free_sectors_long. assumption.
  - unfold VTOC.free_sectors, Disk.TRACKS_PER_DISK.
    rewrite free_sectors_list_short; [reflexivity | |].
    + intros t Ht. apply in_range_iff in Ht; lia.
    + exists 34. split; [apply in_range_iff; lia | lia].
Qed.

(** ** The VTOC once it is accepted *)

Lemma len_sector_at_most (image : bytes) (track sector : Z) :
  len (sector_at image track sector) <= 256.
Proof.
  unfold sector_at, slice, len. rewrite length_firstn. lia.
Qed.

Lemma VTOC_init_Ok (image : bytes) (U : Type) (w w' : Disk.world U) (buff : bytes) :
  VTOC.init image w = (Ok buff, w') ->
  buff = sector_at image 0x11 0x00 /\ checks_match buff
  /\ Disk.user w' = Disk.user w.
Proof.
  rewrite VTOC_init_unfold. cbv zeta.
  remember (sector_at image 0x11 0x00) as b eqn:Hb.
  match goal with |- context [(Ok b, ?x)] => remember x as w1 eqn:Hw1 end.
  assert (Hu : Disk.user w1 = Disk.user w) by (rewrite Hw1; reflexivity).
  clear Hw1. intros H.
  destruct (VTOC.validate b) as [[]| |] eqn:E; try discriminate.
  assert (E1 : buff = b) by congruence.
  assert (E2 : w' = w1) by congruence.
  subst buff w'. split; [reflexivity|].
  split; [apply validate_Ok_iff; exact E | exact Hu].
Qed.

Lemma checks_match_length (buff : bytes) : checks_match buff -> 0x38 <= len buff.
Proof.
  unfold checks_match. rewrite Forall_forall. intros H.
  assert (Hin : In (0x37, 0x01) VTOC.VALIDATION) by (cbv; tauto).
  specialize (H _ Hin). cbn [fst snd] in H.
  apply getitem_Ok_inv in H; lia.
Qed.

(** X5.  Once the VTOC constructor has accepted an image, its buffer
    holds at least 0x38 bytes, so the volume number and the start of the
    catalog are read without error and are byte values; and on an image of
    full size the free-sector count is there too, between 0 and 560. *)
Theorem VTOC_accessors_after_init (image : bytes) (U : Type)
  (w w' : Disk.world U) (buff : bytes) :
  VTOC.init image w = (Ok buff, w') ->
  0x38 <= len buff <= 256
  /\ (exists volume track sector,
        VTOC.disk_volume buff = Ok volume
        /\ VTOC.catalog_track_sector buff = Ok (track, sector)
        /\ 0 <= volume < 256 /\ 0 <= track < 256 /\ 0 <= sector < 256)
  /\ (len image = FULL_GEOMETRY ->
      exists n, VTOC.free_sectors buff = Ok n /\ 0 <= n <= 560).
Proof.
  intros H. apply VTOC_init_Ok in H. destruct H as (-> & Hm & _).
  pose proof (checks_match_length _ Hm) as Hl.
  pose proof (len_sector_at_most image 0x11 0x00) as Hu.
  split; [lia|]. split.
  - exists (byte_at (sector_at image 0x11 0x00) 6),
           (byte_at (sector_at image 0x11 0x00) 1),
           (byte_at (sector_at image 0x11 0x00) 2).
    unfold VTOC.disk_volume, VTOC.catalog_track_sector.
    unfold VTOC.VOLUME_NUMBER_OFFSET, VTOC.CATALOG_TRACK_OFFSET, VTOC.CATALOG_SECTOR_OFFSET.
    rewrite !getitem_byte_at by lia. cbn [rbind].
    repeat split; try reflexivity; apply byte_at_range.
  - intros Hfull. apply free_sectors_long.
    rewrite len_sector_at; unfold sector_offset, FULL_GEOMETRY in *; lia.
Qed.

Lemma VTOC_accessors_after_init_witness :
  exists n, VTOC.free_sectors (sector_at image_vtoc_only 0x11 0x00) = Ok n
            /\ 0 <= n <= 560.
Proof.
  assert (E : VTOC.init image_vtoc_only (start tt) =
              (Ok (sector_at image_vtoc_only 0x11 0x00), after_read (start tt) 0x11 0x00))
    by (vm_compute; reflexivity).
  assert (Hl : len image_vtoc_only = FULL_GEOMETRY) by (vm_compute; reflexivity).
  exact (proj2 (proj2 (VTOC_accessors_after_init image_vtoc_only unit _ _ _ E)) Hl).
Defined.

(** X6.  On an image too short to hold byte 3 of sector (0x11, 0), the
    empty file among them, the VTOC constructor raises IndexError, not
    "not an Apple DOS 3.3 disk"; it has seeked and read once. *)
Theorem VTOC_init_truncated_image (image : bytes) (U : Type) (w : Disk.world U) :
  len image <= sector_offset 0x11 0x00 + 3 ->
  fst (VTOC.init image w) = Raise IndexError
  /\ Disk.oplog (snd (VTOC.init image w)) =
       Disk.oplog w ++ [Disk.EvSeek (sector_offset 0x11 0x00); Disk.EvRead 256].
Proof.
  intros Hl. rewrite VTOC_init_unfold. cbv zeta.
  assert (E : VTOC.validate (sector_at image 0x11 0x00) = Raise IndexError).
  { unfold VTOC.validate, VTOC.VALIDATION. cbn [VTOC.validate_loop].
    rewrite getitem_past_end; [reflexivity|].
    unfold sector_at, slice, len in *. rewrite length_firstn, length_skipn.
    unfold sector_offset in *. lia. }
  rewrite E. split; reflexivity.
Qed.

Lemma VTOC_init_truncated_image_witness :
  fst (VTOC.init image_100 (start tt)) = Raise IndexError.
Proof.
  apply (VTOC_init_truncated_image image_100 unit (start tt)).
  vm_compute. discriminate.
Defined.

(** ** The catalog, entry by entry *)

Lemma call_until_on_user (U R : Type)
  (callback : Catalog.entry -> M (Disk.world U) (option R))
  (g : Catalog.entry -> M U (option R)) :
  (forall e w, callback e w = Disk.on_user (g e) w) ->
  forall (items : list Catalog.entry) (w : Disk.world U),
    call_until callback items w =
      (fst (call_until g items (Disk.user w)),
       Disk.World (Disk.position w) (Disk.oplog w)
         (snd (call_until g items (Disk.user w)))).
Proof.
  intros Hcb. induction items as [|e items IH]; intros w.
  - destruct w; reflexivity.
  - cbn [call_until]. unfold bind. rewrite Hcb. unfold Disk.on_user.
    destruct (g e (Disk.user w)) as [[[v|]| |] u']; try reflexivity.
    rewrite IH. reflexivity.
Qed.

Lemma call_until_app {S A R : Type} (g : A -> M S (option R)) (l1 l2 : list A) (s : S) :
  call_until g (l1 ++ l2) s =
    match call_until g l1 s with
    | (Ok None, s') => call_until g l2 s'
    | other => other
    end.
Proof.
  revert s. induction l1 as [|a l1 IH]; intros s; [reflexivity|].
  cbn [app call_until]. unfold bind.
  destruct (g a s) as [[[v|]| |] s']; try reflexivity. apply IH.
Qed.

(** On a full image and a chain that ends in time inside the geometry, the
    loop of [walk_entries] is the calls of the callback on the entries of
    the chain, one after the other until one stops it. *)
Lemma walk_entries_loop_call_until (image : bytes) (U R : Type)
  (callback : Catalog.entry -> M (Disk.world U) (option R))
  (g : Catalog.entry -> M U (option R)) :
  len image = FULL_GEOMETRY ->
  (forall e w, callback e w = Disk.on_user (g e) w) ->
  forall (n fuel : nat) (hop track sector : Z) (w : Disk.world U),
    (n <= fuel)%nat -> hop + Z.of_nat n < MAX_HOPS ->
    (List.length (chain image n track sector) < n)%nat ->
    forallb in_geometry (chain image n track sector) = true ->
    exists w',
      Catalog.walk_entries_loop image callback fuel hop track sector w =
        (fst (call_until g (catalog_entries image n track sector) (Disk.user w)), w')
      /\ Disk.user w' =
           snd (call_until g (catalog_entries image n track sector) (Disk.user w)).
Proof.
  intros Hl Hcb. induction n as [|n IH]; intros fuel hop track sector w Hf Hh Hn Hc;
    [cbn in Hn; lia|].
  destruct fuel as [|fuel]; [lia|].
  unfold catalog_entries in *. cbn [chain] in *.
  destruct (Z.eqb_spec track 0) as [->|Hne].
  - exists w. split; reflexivity.
  - cbn [forallb flat_map List.length fst snd] in *.
    apply andb_prop in Hc. destruct Hc as [Hg Hc].
    rewrite walk_entries_loop_step by (assumption || lia).
    destruct (read_sect_full image U w track sector Hl Hg) as [_ Hcs].
    rewrite scan_entries_spec by (intros i Hi; apply catalog_slots_in_sector; assumption).
    fold (sector_entries (sector_at image track sector)).
    rewrite (call_until_on_user U R callback g Hcb).
    rewrite call_until_app.
    change (Disk.user (after_read w track sector)) with (Disk.user w).
    destruct (call_until g (sector_entries (sector_at image track sector)) (Disk.user w))
      as [[[v|]| |] u1]; cbn [fst snd];
      try (eexists; split; reflexivity).
    match goal with |- context [Catalog.walk_entries_loop _ _ _ _ ?t ?s ?w2] =>
      destruct (IH fuel (hop + 1) t s w2 ltac:(lia) ltac:(lia) ltac:(lia) Hc)
        as (w' & Hw & Hu) end.
    exists w'. cbn [Disk.user] in *. split; assumption.
Qed.

(** X7.  On an image of full size whose catalog chain, from the pointer
    in bytes 1 and 2 of the VTOC buffer, ends within the hop limit inside
    the geometry, [walk_entries] calls the callback on the entries in use
    of the chain, sector after sector in chain order and slot after slot
    within a sector, and stops at the first call that answers true or
    raises: it returns what that call answered or raised, and nothing when
    no call stopped it. *)
Theorem walk_entries_in_catalog_order (image : bytes) (U R : Type)
  (g : Catalog.entry -> M U (option R)) (vtoc_buffer : bytes) (w : Disk.world U) :
  len image = FULL_GEOMETRY ->
  2 < len vtoc_buffer ->
  len (chain image HOP_LIMIT (byte_at vtoc_buffer 1) (byte_at vtoc_buffer 2)) < 559 ->
  forallb in_geometry
    (chain image HOP_LIMIT (byte_at vtoc_buffer 1) (byte_at vtoc_buffer 2)) = true ->
  exists w',
    Catalog.walk_entries image (fun e => Disk.on_user (g e)) vtoc_buffer w =
      (fst (call_until g
              (catalog_entries image HOP_LIMIT
                 (byte_at vtoc_buffer 1) (byte_at vtoc_buffer 2)) (Disk.user w)), w')
    /\ Disk.user w' =
         snd (call_until g
                (catalog_entries image HOP_LIMIT
                   (byte_at vtoc_buffer 1) (byte_at vtoc_buffer 2)) (Disk.user w)).
Proof.
  intros Hl Hv Hn Hc. pose proof HOP_LIMIT_value as Hlim.
  unfold Catalog.walk_entries, VTOC.catalog_track_sector.
  unfold VTOC.CATALOG_TRACK_OFFSET, VTOC.CATALOG_SECTOR_OFFSET.
  rewrite !getitem_byte_at by lia. cbn [rbind]. unfold bind at 1, lift at 1.
  cbn [fst snd].
  apply (walk_entries_loop_call_until image U R _ g Hl (fun e w0 => eq_refl) HOP_LIMIT);
    try assumption; try (unfold MAX_HOPS; lia).
  apply below_HOP_LIMIT. exact Hn.
Qed.

Lemma walk_entries_in_catalog_order_witness :
  exists w',
    Catalog.walk_entries image_demo
      (fun e => Disk.on_user (fun seen => (Ok (@None unit), seen ++ [Catalog.name e])))
      (sector_at image_demo 0x11 0x00) (start []) =
      (Ok None, w')
    /\ Disk.user w' = map Dump.format_30s ["HELLO"; "NOTES"; "DATA"]%string.
Proof.
  assert (H1 : len image_demo = FULL_GEOMETRY) by (vm_compute; reflexivity).
  assert (H2 : 2 < len (sector_at image_demo 0x11 0x00)) by (vm_compute; reflexivity).
  assert (H3 : len (chain image_demo HOP_LIMIT
                      (byte_at (sector_at image_demo 0x11 0x00) 1)
                      (byte_at (sector_at image_demo 0x11 0x00) 2)) < 559)
    by (vm_compute; reflexivity).
  assert (H4 : forallb in_geometry
                 (chain image_demo HOP_LIMIT
                    (byte_at (sector_at image_demo 0x11 0x00) 1)
                    (byte_at (sector_at image_demo 0x11 0x00) 2)) = true)
    by (vm_compute; reflexivity).
  destruct (walk_entries_in_catalog_order image_demo (list string) unit
              (fun e seen => (Ok (@None unit), seen ++ [Catalog.name e]))
              (sector_at image_demo 0x11 0x00) (start []) H1 H2 H3 H4)
    as (w' & Hw & Hu).
  exists w'. split.
  - rewrite Hw. apply (f_equal (fun r => (r, w'))). vm_compute. reflexivity.
  - rewrite Hu. vm_compute. reflexivity.
Defined.

(** ** Looking a file up *)

Lemma call_until_find (file_name : string) (U : Type)
  (items : list Catalog.entry) (u : U) :
  call_until (fun e => ret (Dump.find_entry file_name e)) items u =
    (Ok (option_map found
           (find (fun e => String.eqb (Catalog.name e) (Dump.format_30s file_name))
                 items)), u).
Proof.
  induction items as [|e items IH]; [reflexivity|].
  cbn [call_until find]. unfold bind, ret at 1, Dump.find_entry.
  destruct (String.eqb (Catalog.name e) (Dump.format_30s file_name)); [reflexivity|].
  exact IH.
Qed.

Lemma keeps_user_ret {U A : Type} (a : A) : keeps_user (@ret (Disk.world U) A a).
Proof. intros w. reflexivity. Qed.

Lemma keeps_user_raise {U A : Type} (e : exn) : keeps_user (@raise (Disk.world U) A e).
Proof. intros w. reflexivity. Qed.

Lemma keeps_user_lift {U A : Type} (r : result A) : keeps_user (@lift (Disk.world U) A r).
Proof. intros w. reflexivity. Qed.

Lemma keeps_user_bind {U A B : Type} (m : M (Disk.world U) A) (k : A -> M (Disk.world U) B) :
  keeps_user m -> (forall a, keeps_user (k a)) -> keeps_user (bind m k).
Proof.
  intros Hm Hk w. unfold bind. specialize (Hm w).
  destruct (m w) as [[a| |] w']; cbn [snd] in *; try assumption.
  rewrite Hk. exact Hm.
Qed.

Lemma keeps_user_read_sect (image : bytes) (U : Type) (track sector : Z) :
  keeps_user (@Disk.read_sect image U track sector).
Proof.
  intros w.
  destruct (read_sect_cases image U w track sector) as [(e & w' & H & Hu & _)|[d [p H]]];
    rewrite H; [exact Hu | reflexivity].
Qed.

Lemma keeps_user_scan_entries (U R : Type)
  (callback : Catalog.entry -> M (Disk.world U) (option R))
  (sector : bytes) (slots : list Z) :
  (forall e, keeps_user (callback e)) ->
  keeps_user (Catalog.scan_entries callback sector slots).
Proof.
  intros Hc. induction slots as [|i slots IH]; cbn [Catalog.scan_entries].
  - apply keeps_user_ret.
  - apply keeps_user_bind; [apply keeps_user_lift|]. intros [|]; [|exact IH].
    apply keeps_user_bind; [apply keeps_user_lift|]. intros e.
    apply keeps_user_bind; [apply Hc|]. intros [v|]; [apply keeps_user_ret | exact IH].
Qed.

Lemma keeps_user_walk_entries (image : bytes) (U R : Type)
  (callback : Catalog.entry -> M (Disk.world U) (option R)) (vtoc_buffer : bytes) :
  (forall e, keeps_user (callback e)) ->
  keeps_user (Catalog.walk_entries image callback vtoc_buffer).
Proof.
  intros Hc. unfold Catalog.walk_entries.
  apply keeps_user_bind; [apply keeps_user_lift|]. intros ts.
  generalize (Z.to_nat MAX_HOPS) 0 (fst ts) (snd ts).
  induction n as [|fuel IH]; intros hop track sector; cbn [Catalog.walk_entries_loop].
  - intros w. reflexivity.
  - destruct (negb (track =? 0)); [|apply keeps_user_ret].
    destruct (hop + 1 >=? MAX_HOPS); [apply keeps_user_raise|].
    apply keeps_user_bind; [apply keeps_user_read_sect|]. intros d.
    apply keeps_user_bind; [apply keeps_user_scan_entries; exact Hc|].
    intros [v|]; [apply keeps_user_ret|].
    apply keeps_user_bind; [apply keeps_user_lift|]. intros t.
    apply keeps_user_bind; [apply keeps_user_lift|]. intros s1. apply IH.
Qed.

Lemma keeps_user_VTOC_init (image : bytes) (U : Type) : keeps_user (@VTOC.init U image).
Proof.
  unfold VTOC.init.
  apply keeps_user_bind; [apply keeps_user_read_sect|]. intros d.
  apply keeps_user_bind; [apply keeps_user_lift|]. intros _. apply keeps_user_ret.
Qed.

Lemma keeps_user_lookup (image : bytes) (file_name : string) :
  keeps_user (lookup image file_name).
Proof.
  unfold lookup. apply keeps_user_bind; [apply keeps_user_VTOC_init|]. intros b.
  apply keeps_user_walk_entries. intros e. apply keeps_user_ret.
Qed.

Lemma lookup_terminates (image : bytes) (file_name : string) :
  terminates (lookup image file_name).
Proof.
  unfold lookup. apply terminates_bind; [apply VTOC_init_terminates|]. intros b.
  unfold Catalog.walk_entries. apply terminates_bind.
  - apply terminates_lift. unfold VTOC.catalog_track_sector. ends.
  - intros ts. apply walk_entries_loop_terminates.
    + intros e. apply terminates_ret.
    + unfold MAX_HOPS. lia.
Qed.

(** [dump] is the lookup, and then either the file or the error. *)
Lemma dump_after_lookup (image : bytes) (file_name : string)
  (w : Disk.world Dump.session) :
  Dump.dump image file_name w =
    match lookup image file_name w with
    | (Ok (Some (track, sector, file_type)), w2) =>
        Dump.with_handler (Dump.FILE_HANDLERS_get file_type)
          (Files.walk_sectors image
             (fun sector_data =>
                Disk.on_user
                  (Dump.receive_sector_data (Dump.FILE_HANDLERS_get file_type) sector_data))
             track sector) w2
    | (Ok None, w2) => (Raise FileNotFound, w2)
    | (Raise e, w2) => (Raise e, w2)
    | (OutOfFuel, w2) => (OutOfFuel, w2)
    end.
Proof.
  unfold Dump.dump, lookup, bind.
  destruct (VTOC.init image w) as [[b|e|] w1]; try reflexivity.
  destruct (Catalog.walk_entries image _ b w1) as [[[[[t s] ft]|]|e|] w2]; reflexivity.
Qed.

(** X8.  When [dump] finds no entry of the name, because the catalog
    holds none or because the VTOC check or the walk of the catalog raised,
    it raises "file not found", or what was raised, with nothing written to
    standard output and no handler made; and it never ends otherwise
    without having found an entry. *)
Theorem dump_without_match_writes_nothing (image : bytes) (file_name : string)
  (w : Disk.world Dump.session) :
  match lookup image file_name w with
  | (Ok (Some _), _) => True
  | (Ok None, w2) =>
      Dump.dump image file_name w = (Raise FileNotFound, w2)
      /\ Disk.user w2 = Disk.user w
  | (Raise e, w2) =>
      Dump.dump image file_name w = (Raise e, w2) /\ Disk.user w2 = Disk.user w
  | (OutOfFuel, _) => False
  end.
Proof.
  rewrite dump_after_lookup.
  pose proof (keeps_user_lookup image file_name w) as Hu.
  pose proof (lookup_terminates image file_name w) as Ht.
  destruct (lookup image file_name w) as [[[v|]|e|] w2]; cbn [fst snd] in *;
    try (split; [reflexivity | exact Hu]); [exact I | contradiction].
Qed.

(** X9.  On an image of full size with an accepted VTOC and a catalog
    chain that ends within the hop limit inside the geometry, [dump] takes
    the first entry in use, in catalog order, whose 30 characters are the
    name it was given padded with spaces to 30: it handles the file at that
    entry's track/sector list with the handler of that entry's type, and
    when there is no such entry it raises "file not found".  Nothing is
    written before that. *)
Theorem dump_takes_first_match (image : bytes) (file_name : string)
  (w w1 : Disk.world Dump.session) (vtoc_buffer : bytes) :
  len image = FULL_GEOMETRY ->
  VTOC.init image w = (Ok vtoc_buffer, w1) ->
  len (chain image HOP_LIMIT (byte_at vtoc_buffer 1) (byte_at vtoc_buffer 2)) < 559 ->
  forallb in_geometry
    (chain image HOP_LIMIT (byte_at vtoc_buffer 1) (byte_at vtoc_buffer 2)) = true ->
  exists w2,
    Disk.user w2 = Disk.user w
    /\ Dump.dump image file_name w =
         match find (fun e => String.eqb (Catalog.name e) (Dump.format_30s file_name))
                 (catalog_entries image HOP_LIMIT
                    (byte_at vtoc_buffer 1) (byte_at vtoc_buffer 2)) with
         | Some e =>
             Dump.with_handler (Dump.FILE_HANDLERS_get (Catalog.file_type e))
               (Files.walk_sectors image
                  (fun sector_data =>
                     Disk.on_user
                       (Dump.receive_sector_data
                          (Dump.FILE_HANDLERS_get (Catalog.file_type e)) sector_data))
                  (Catalog.ts_list_start_track e) (Catalog.ts_list_start_sector e)) w2
         | None => (Raise FileNotFound, w2)
         end.
Proof.
  intros Hl Hinit Hn Hc. pose proof HOP_LIMIT_value as Hlim.
  pose proof (VTOC_init_Ok _ _ _ _ _ Hinit) as (_ & Hm & Hu1).
  pose proof (checks_match_length _ Hm) as Hv.
  rewrite dump_after_lookup. unfold lookup, bind at 1. rewrite Hinit.
  unfold Catalog.walk_entries, VTOC.catalog_track_sector.
  unfold VTOC.CATALOG_TRACK_OFFSET, VTOC.CATALOG_SECTOR_OFFSET.
  rewrite !getitem_byte_at by lia. cbn [rbind]. unfold bind at 1, lift at 1.
  cbn [fst snd].
  destruct (walk_entries_loop_call_until image Dump.session (Z * Z * Z)
              (fun e => ret (Dump.find_entry file_name e))
              (fun e => ret (Dump.find_entry file_name e)) Hl
              (fun e w0 => match w0 with Disk.World _ _ _ => eq_refl end)
              HOP_LIMIT (Z.to_nat MAX_HOPS) 0
              (byte_at vtoc_buffer 1) (byte_at vtoc_buffer 2) w1
              ltac:(unfold MAX_HOPS; lia) ltac:(unfold MAX_HOPS; lia)
              (below_HOP_LIMIT _ Hn) Hc) as (w2 & Hw & Hu).
  rewrite Hw. rewrite call_until_find in *. cbn [fst snd] in *.
  exists w2. split; [congruence|].
  destruct (find _ _) as [e|]; reflexivity.
Qed.

Lemma dump_takes_first_match_witness :
  exists w2,
    Disk.user w2 = Disk.user fresh
    /\ Dump.dump image_demo "NOTES" fresh =
         Dump.with_handler Dump.TextHandler
           (Files.walk_sectors image_demo
              (fun sector_data =>
                 Disk.on_user (Dump.receive_sector_data Dump.TextHandler sector_data))
              0x13 0x0F) w2.
Proof.
  assert (H1 : len image_demo = FULL_GEOMETRY) by (vm_compute; reflexivity).
  assert (H2 : VTOC.init image_demo fresh =
               (Ok (sector_at image_demo 0x11 0x00), after_read fresh 0x11 0x00))
    by (vm_compute; reflexivity).
  assert (H3 : len (chain image_demo HOP_LIMIT
                      (byte_at (sector_at image_demo 0x11 0x00) 1)
                      (byte_at (sector_at image_demo 0x11 0x00) 2)) < 559)
    by (vm_compute; reflexivity).
  assert (H4 : forallb in_geometry
                 (chain image_demo HOP_LIMIT
                    (byte_at (sector_at image_demo 0x11 0x00) 1)
                    (byte_at (sector_at image_demo 0x11 0x00) 2)) = true)
    by (vm_compute; reflexivity).
  destruct (dump_takes_first_match image_demo "NOTES" fresh _ _ H1 H2 H3 H4)
    as (w2 & Hu & Hd).
  exists w2. split; [exact Hu|]. rewrite Hd.
  assert (E : find (fun e => String.eqb (Catalog.name e) (Dump.format_30s "NOTES"))
                (catalog_entries image_demo HOP_LIMIT
                   (byte_at (sector_at image_demo 0x11 0x00) 1)
                   (byte_at (sector_at image_demo 0x11 0x00) 2))
              = Some (Catalog.Entry 0x13 0x0F 0 0 2 (Dump.format_30s "NOTES")))
    by (vm_compute; reflexivity).
  rewrite E. reflexivity.
Defined.

(** ** What the walkers ask of the image file *)

Lemma reads_sectors_nothing {U A : Type} (m : M (Disk.world U) A) :
  keeps_log m -> reads_sectors m.
Proof.
  intros H w. exists []. rewrite H. cbn. rewrite app_nil_r. split; reflexivity.
Qed.

Lemma reads_sectors_bind {U A B : Type} (m : M (Disk.world U) A)
  (k : A -> M (Disk.world U) B) :
  reads_sectors m -> (forall a, reads_sectors (k a)) -> reads_sectors (bind m k).
Proof.
  intros Hm Hk w. unfold bind. destruct (Hm w) as (o1 & E1 & F1).
  destruct (m w) as [[a| |] w']; cbn [snd] in *; try (exists o1; split; assumption).
  destruct (Hk a w') as (o2 & E2 & F2).
  exists (o1 ++ o2). rewrite E2, E1, sector_reads_app, app_assoc, forallb_app, F1, F2.
  split; reflexivity.
Qed.

Lemma getitem_value (buff : bytes) (i d : Z) : getitem buff i = Ok d -> 0 <= d < 256.
Proof.
  unfold getitem. destruct (_ <? 0); [discriminate|].
  destruct (nth_error _ _) as [b|]; [|discriminate].
  intros H. injection H as <-. apply byte_val_range.
Qed.

(** After a computation that returns only values with [P], what follows
    need only behave on those. *)
Lemma reads_sectors_bind_on {U A B : Type} (P : A -> Prop) (m : M (Disk.world U) A)
  (k : A -> M (Disk.world U) B) :
  reads_sectors m -> (forall w a w', m w = (Ok a, w') -> P a) ->
  (forall a, P a -> reads_sectors (k a)) -> reads_sectors (bind m k).
Proof.
  intros Hm HP Hk w. unfold bind. destruct (Hm w) as (o1 & E1 & F1).
  pose proof (HP w) as HPw.
  destruct (m w) as [[a| |] w']; cbn [snd] in *; try (exists o1; split; assumption).
  destruct (Hk a (HPw a w' eq_refl) w') as (o2 & E2 & F2).
  exists (o1 ++ o2). rewrite E2, E1, sector_reads_app, app_assoc, forallb_app, F1, F2.
  split; reflexivity.
Qed.

Lemma reads_sectors_read_sect (image : bytes) (U : Type) (track sector : Z) :
  0 <= track * 16 + sector ->
  reads_sectors (@Disk.read_sect image U track sector).
Proof.
  intros Hpos w.
  unfold Disk.read_sect, Disk.seek_sect, bind, raise, Disk.file_seek, Disk.file_read.
  unfold Disk.TRACKS_PER_DISK, Disk.SECTORS_PER_TRACK, Disk.SECTOR_SIZE.
  destruct (Z.geb_spec track 35); [exists []; cbn; rewrite app_nil_r; split; reflexivity|].
  destruct (Z.geb_spec sector 16); [exists []; cbn; rewrite app_nil_r; split; reflexivity|].
  cbn [orb].
  destruct (Z.ltb_spec ((track * 16 + sector) * 256) 0); [lia|].
  exists [(track * 16 + sector) * 256]. cbn [snd Disk.oplog Disk.position Disk.user].
  rewrite <- app_assoc. split; [reflexivity|].
  cbn [forallb]. unfold on_a_sector, FULL_GEOMETRY. rewrite Z_mod_mult.
  destruct (Z.leb_spec 0 ((track * 16 + sector) * 256)); [|lia].
  destruct (Z.ltb_spec ((track * 16 + sector) * 256) 143360); [reflexivity | lia].
Qed.

Lemma reads_sectors_scan_pairs (image : bytes) (U : Type)
  (callback : bytes -> M (Disk.world U) unit) (tsl : bytes) (slots : list Z) :
  (forall d, keeps_log (callback d)) ->
  reads_sectors (Files.scan_pairs image callback tsl slots).
Proof.
  intros Hc. induction slots as [|i slots IH]; cbn [Files.scan_pairs].
  - apply reads_sectors_nothing, keeps_log_ret.
  - destruct (slice tsl i (i + 2)) as [|t [|s [|x l]]];
      try (apply reads_sectors_nothing, keeps_log_raise).
    destruct ((byte_val t =? 0) && (byte_val s =? 0));
      [apply reads_sectors_nothing, keeps_log_ret|].
    pose proof (byte_val_range t). pose proof (byte_val_range s).
    apply reads_sectors_bind; [apply reads_sectors_read_sect; lia|]. intros d.
    apply reads_sectors_bind; [apply reads_sectors_nothing, Hc|]. intros _. exact IH.
Qed.

(** The pointer bytes of a sector, as the walkers read them, are byte
    values: the next sector does not start below zero. *)
Lemma reads_sectors_next (U A : Type) (d : bytes)
  (k : Z -> Z -> M (Disk.world U) A) :
  (forall t s, 0 <= t * 16 + s -> reads_sectors (k t s)) ->
  reads_sectors (t <- lift (getitem d 0x01) ;; s <- lift (getitem d 0x02) ;; k t s).
Proof.
  intros Hk.
  apply (reads_sectors_bind_on (fun t => 0 <= t < 256));
    [apply reads_sectors_nothing, keeps_log_lift
    | intros w t w' E; unfold lift in E; injection E as E _;
      exact (getitem_value _ _ _ E) |].
  intros t Ht.
  apply (reads_sectors_bind_on (fun s => 0 <= s < 256));
    [apply reads_sectors_nothing, keeps_log_lift
    | intros w s w' E; unfold lift in E; injection E as E _;
      exact (getitem_value _ _ _ E) |].
  intros s Hs. apply Hk. lia.
Qed.

Lemma reads_sectors_walk_sectors_loop (image : bytes) (U : Type)
  (callback : bytes -> M (Disk.world U) unit) :
  (forall d, keeps_log (callback d)) ->
  forall (fuel : nat) (hop track sector : Z),
    0 <= track * 16 + sector ->
    reads_sectors (Files.walk_sectors_loop image callback fuel hop track sector).
Proof.
  intros Hc. induction fuel as [|fuel IH]; intros hop track sector Hpos;
    cbn [Files.walk_sectors_loop].
  - apply reads_sectors_nothing. intros w. reflexivity.
  - destruct (negb (track =? 0)); [|apply reads_sectors_nothing, keeps_log_ret].
    destruct (hop + 1 >=? MAX_HOPS); [apply reads_sectors_nothing, keeps_log_raise|].
    apply reads_sectors_bind; [apply reads_sectors_read_sect; exact Hpos|]. intros d.
    apply reads_sectors_bind; [apply reads_sectors_scan_pairs; exact Hc|]. intros _.
    apply reads_sectors_next. intros t s Hts. apply IH. exact Hts.
Qed.

Lemma reads_sectors_walk_entries_loop (image : bytes) (U R : Type)
  (callback : Catalog.entry -> M (Disk.world U) (option R)) :
  (forall e, keeps_log (callback e)) ->
  forall (fuel : nat) (hop track sector : Z),
    0 <= track * 16 + sector ->
    reads_sectors (Catalog.walk_entries_loop image callback fuel hop track sector).
Proof.
  intros Hc. induction fuel as [|fuel IH]; intros hop track sector Hpos;
    cbn [Catalog.walk_entries_loop].
  - apply reads_sectors_nothing. intros w. reflexivity.
  - destruct (negb (track =? 0)); [|apply reads_sectors_nothing, keeps_log_ret].
    destruct (hop + 1 >=? MAX_HOPS); [apply reads_sectors_nothing, keeps_log_raise|].
    apply reads_sectors_bind; [apply reads_sectors_read_sect; exact Hpos|]. intros d.
    apply reads_sectors_bind;
      [apply reads_sectors_nothing, scan_entries_keeps_log; exact Hc|].
    intros [v|]; [apply reads_sectors_nothing, keeps_log_ret|].
    apply reads_sectors_next. intros t s Hts. apply IH. exact Hts.
Qed.

(** X10.  Whatever the image and the callback (one that keeps to its own
    state), all that the catalog walker asks of the image file is reads of
    whole sectors inside the geometry: each operation is a seek to a
    multiple of 256 from 0 to below 143,360, followed at once by a read of
    256 bytes.  So it is for the file reader from every start whose offset
    (track * 16 + sector) * 256 is not negative.  From a start below zero
    that passes the two tests of [seek_sect], the file reader asks for one
    seek, to the negative offset, which the file refuses: it raises
    OSError and reads nothing. *)
Theorem walkers_read_whole_sectors (image : bytes) (U R : Type)
  (f : Catalog.entry -> U -> (option R + exn) * U)
  (g : bytes -> U -> (unit + exn) * U)
  (vtoc_buffer : bytes) (track sector : Z) (w : Disk.world U) :
  (exists offsets,
     Disk.oplog (snd (Catalog.walk_entries image (python_callback f) vtoc_buffer w))
       = Disk.oplog w ++ sector_reads offsets
     /\ forallb on_a_sector offsets = true)
  /\ (0 <= track * 16 + sector ->
      exists offsets,
        Disk.oplog (snd (Files.walk_sectors image (python_callback g) track sector w))
          = Disk.oplog w ++ sector_reads offsets
        /\ forallb on_a_sector offsets = true)
  /\ (track * 16 + sector < 0 -> track <> 0 -> track < 35 -> sector < 16 ->
      Files.walk_sectors image (python_callback g) track sector w =
        (Raise OSError,
         Disk.World (Disk.position w)
           (Disk.oplog w ++ [Disk.EvSeek ((track * 16 + sector) * 256)])
           (Disk.user w))).
Proof.
  split; [|split].
  - assert (Hrs : reads_sectors
                    (Catalog.walk_entries image (python_callback f) vtoc_buffer));
      [|exact (Hrs w)].
    unfold Catalog.walk_entries.
    apply (reads_sectors_bind_on (fun ts => 0 <= fst ts * 16 + snd ts));
      [apply reads_sectors_nothing, keeps_log_lift | |].
    + intros w0 ts w' E. unfold lift in E. injection E as E _.
      unfold VTOC.catalog_track_sector in E.
      destruct (getitem vtoc_buffer VTOC.CATALOG_TRACK_OFFSET) as [t| |] eqn:Et;
        cbn [rbind] in E; try discriminate.
      destruct (getitem vtoc_buffer VTOC.CATALOG_SECTOR_OFFSET) as [s0| |] eqn:Es;
        cbn [rbind] in E; try discriminate.
      injection E as <-. cbn [fst snd].
      pose proof (getitem_value _ _ _ Et). pose proof (getitem_value _ _ _ Es). lia.
    + intros ts Hts. apply reads_sectors_walk_entries_loop; [|exact Hts].
      intros e w1. apply python_callback_oplog.
  - intros Hpos. unfold Files.walk_sectors.
    apply (reads_sectors_walk_sectors_loop image U (python_callback g)
             (fun d w0 => python_callback_oplog g d w0)
             (Z.to_nat MAX_HOPS) 0 track sector Hpos w).
  - intros Hneg Ht Ht2 Hs. unfold Files.walk_sectors.
    change (Z.to_nat MAX_HOPS) with (S 559). cbn [Files.walk_sectors_loop].
    destruct (Z.eqb_spec track 0); [contradiction|]. cbn [negb].
    change (0 + 1 >=? MAX_HOPS) with false. cbv iota.
    unfold bind at 1, Disk.read_sect, bind at 1, Disk.seek_sect, Disk.file_seek.
    unfold Disk.TRACKS_PER_DISK, Disk.SECTORS_PER_TRACK, Disk.SECTOR_SIZE.
    destruct (Z.geb_spec track 35); [lia|].
    destruct (Z.geb_spec sector 16); [lia|]. cbn [orb].
    destruct (Z.ltb_spec ((track * 16 + sector) * 256) 0); [reflexivity | lia].
Qed.

Lemma walkers_read_whole_sectors_witness :
  (exists offsets,
     Disk.oplog (snd (Files.walk_sectors image_demo
                        (python_callback (fun (d : bytes) (u : unit) => (inl tt, u)))
                        0x12 0x0F (start tt)))
       = sector_reads offsets
     /\ forallb on_a_sector offsets = true)
  /\ Files.walk_sectors image_demo
       (python_callback (fun (d : bytes) (u : unit) => (inl tt, u))) (-1) 0 (start tt)
     = (Raise OSError, Disk.World 0 [Disk.EvSeek (-4096)] tt).
Proof.
  pose proof (walkers_read_whole_sectors image_demo unit unit
                (fun e u => (inl None, u)) (fun d u => (inl tt, u))
                (sector_at image_demo 0x11 0x00) 0x12 0x0F (start tt)) as H1.
  pose proof (walkers_read_whole_sectors image_demo unit unit
                (fun e u => (inl None, u)) (fun d u => (inl tt, u))
                (sector_at image_demo 0x11 0x00) (-1) 0 (start tt)) as H2.
  split.
  - exact (proj1 (proj2 H1) ltac:(lia)).
  - exact (proj2 (proj2 H2) ltac:(lia) ltac:(lia) ltac:(lia) ltac:(lia)).
Defined.

(** ** The file handlers *)

Lemma append_assoc (s1 s2 s3 : string) : ((s1 ++ s2) ++ s3 = s1 ++ (s2 ++ s3))%string.
Proof. induction s1 as [|c s1 IH]; cbn; [reflexivity | rewrite IH; reflexivity]. Qed.

Lemma append_empty (s : string) : (s ++ EmptyString)%string = s.
Proof. induction s as [|c s IH]; cbn; [reflexivity | rewrite IH; reflexivity]. Qed.

Lemma text_of_app (d1 d2 : bytes) : text_of (d1 ++ d2) = (text_of d1 ++ text_of d2)%string.
Proof.
  induction d1 as [|b d1 IH]; [reflexivity|].
  cbn [app text_of]. rewrite IH, append_assoc. reflexivity.
Qed.

Lemma text_of_length (d : bytes) : String.length (text_of d) = List.length d.
Proof.
  induction d as [|b d IH]; [reflexivity|].
  cbn [text_of List.length]. rewrite length_append, IH.
  destruct (byte_val b =? 0x8D); reflexivity.
Qed.

Lemma text_handler_run (d : bytes) (u : Dump.session) :
  Dump.receive_sector_data Dump.TextHandler d u =
    (Ok tt, Dump.Session (Dump.stdout u ++ text_of d) (Dump.data u)).
Proof.
  cbn [Dump.receive_sector_data]. revert u.
  induction d as [|b d IH]; intros u.
  - cbn [Dump.for_each text_of]. rewrite append_empty. destruct u; reflexivity.
  - cbn [Dump.for_each text_of]. unfold bind.
    assert (E : (if byte_val b =? 0x8D
                 then Dump.write Applesoft.newline
                 else Dump.write (String (chr (Z.land (byte_val b) 0x7F)) EmptyString)) u
                = (Ok tt, Dump.Session
                            (Dump.stdout u ++
                             (if byte_val b =? 0x8D then Applesoft.newline
                              else String (chr (Z.land (byte_val b) 0x7F)) EmptyString))
                            (Dump.data u)))
      by (destruct (byte_val b =? 0x8D); reflexivity).
    rewrite E, IH. cbn [Dump.stdout Dump.data]. rewrite append_assoc. reflexivity.
Qed.

(** X11.  For every run of bytes the text handler returns, having
    written to standard output the text of the run and touched nothing
    else: a line break for each byte 0x8D and, for each other byte, the
    character of its low seven bits, in the order of the bytes, so one
    character for each byte.  And to give it two runs of bytes one after
    the other is to give it the two runs as one, so that the text of a file
    does not depend on where its sectors are cut. *)
Theorem text_handler_one_character_per_byte (d1 d2 : bytes) (u : Dump.session) :
  Dump.receive_sector_data Dump.TextHandler d1 u =
    (Ok tt, Dump.Session (Dump.stdout u ++ text_of d1) (Dump.data u))
  /\ text_of d1 =
       string_of_list_ascii
         (map (fun b => if byte_val b =? 0x8D then chr 10
                        else chr (Z.land (byte_val b) 0x7F)) d1)
  /\ String.length (text_of d1) = List.length d1
  /\ (Dump.receive_sector_data Dump.TextHandler d1 ;;;
       Dump.receive_sector_data Dump.TextHandler d2) u =
      Dump.receive_sector_data Dump.TextHandler (d1 ++ d2) u.
Proof.
  split; [apply text_handler_run|]. split; [|split; [apply text_of_length|]].
  - induction d1 as [|b d1 IH]; [reflexivity|].
    cbn [text_of map string_of_list_ascii]. rewrite IH.
    destruct (byte_val b =? 0x8D); reflexivity.
  - unfold bind. rewrite !text_handler_run. cbn [Dump.stdout Dump.data].
    rewrite text_of_app, append_assoc. reflexivity.
Qed.

Lemma appends_write (s : string) : appends (String.length s) (Dump.write s).
Proof. intros u. exists s. split; reflexivity. Qed.

Lemma appends_then (k1 k2 : nat) (m1 m2 : M Dump.session unit) :
  appends k1 m1 -> appends k2 m2 -> appends (k1 + k2) (m1 ;;; m2).
Proof.
  intros H1 H2 u. unfold bind. destruct (H1 u) as (s1 & E1 & L1). rewrite E1.
  destruct (H2 (Dump.Session (Dump.stdout u ++ s1) (Dump.data u))) as (s2 & E2 & L2).
  rewrite E2. cbn [Dump.stdout Dump.data]. exists (s1 ++ s2)%string.
  rewrite append_assoc, length_append, L1, L2. split; reflexivity.
Qed.

Lemma appends_for_each {A : Type} (k : nat) (l : list A) (body : A -> M Dump.session unit) :
  (forall x, In x l -> appends k (body x)) ->
  appends (k * List.length l) (Dump.for_each l body).
Proof.
  induction l as [|a l IH]; intros H.
  - intros u. exists EmptyString. cbn. rewrite append_empty, Nat.mul_0_r.
    destruct u; split; reflexivity.
  - cbn [Dump.for_each List.length].
    replace (k * S (List.length l))%nat with (k + k * List.length l)%nat by lia.
    apply appends_then; [apply H; left; reflexivity|].
    apply IH. intros x Hx. apply H. right. exact Hx.
Qed.

Lemma getitem_cases (buff : bytes) (i : Z) :
  (exists d, getitem buff i = Ok d) \/ getitem buff i = Raise IndexError.
Proof.
  unfold getitem. destruct (_ <? 0); [right; reflexivity|].
  destruct (nth_error _ _); [left; eauto | right; reflexivity].
Qed.

Lemma index_error_only_bind {S A : Type} (m : M S A) (k : A -> M S unit) :
  (forall s, (exists a, fst (m s) = Ok a) \/ fst (m s) = Raise IndexError) ->
  (forall a, index_error_only (k a)) -> index_error_only (bind m k).
Proof.
  intros Hm Hk s. unfold bind. specialize (Hm s).
  destruct (m s) as [[a| |] s']; cbn [fst] in *.
  - apply Hk.
  - right. destruct Hm as [[a Ha]|Ha]; [discriminate | injection Ha as ->; reflexivity].
  - destruct Hm as [[a Ha]|Ha]; discriminate.
Qed.

Lemma index_error_only_for_each {S A : Type} (l : list A) (body : A -> M S unit) :
  (forall x, index_error_only (body x)) -> index_error_only (Dump.for_each l body).
Proof.
  intros H. induction l as [|a l IH]; cbn [Dump.for_each].
  - intros s. left. reflexivity.
  - apply index_error_only_bind; [|intros _; exact IH].
    intros s. destruct (H a s) as [E|E]; [left; exists tt; exact E | right; exact E].
Qed.

Lemma index_error_only_cell (data : bytes) (i : Z) (k : Z -> M Dump.session unit) :
  (forall d u, fst (k d u) = Ok tt) ->
  index_error_only (d <- lift (getitem data i) ;; k d).
Proof.
  intros Hk u. unfold bind, lift.
  destruct (getitem_cases data i) as [[d ->]| ->]; [left; apply Hk | right; reflexivity].
Qed.

Lemma bind_Ok_inv {S A B : Type} (m : M S A) (k : A -> M S B) (s : S) (b : B) :
  fst (bind m k s) = Ok b ->
  exists a s', m s = (Ok a, s') /\ fst (k a s') = Ok b.
Proof.
  unfold bind. destruct (m s) as [[a| |] s']; cbn [fst]; intros H; try discriminate.
  eauto.
Qed.

Lemma for_each_Ok_inv {S A : Type} (l : list A) (body : A -> M S unit) (s : S) (x : A) :
  fst (Dump.for_each l body s) = Ok tt -> In x l ->
  exists s', fst (body x s') = Ok tt.
Proof.
  revert s. induction l as [|a l IH]; intros s H Hin; [contradiction|].
  cbn [Dump.for_each] in H. apply bind_Ok_inv in H. destruct H as ([] & s' & E & H).
  destruct Hin as [->|Hin]; [exists s; rewrite E; reflexivity | exact (IH s' H Hin)].
Qed.

Lemma hexdump_cell_index (i j : Z) :
  In i (range 0 0x10 1) -> In j (range 0 0x10 1) -> 0 <= 0x10 * i + j < 256.
Proof.
  intros Hi Hj. apply in_range_iff in Hi; [|lia]. apply in_range_iff in Hj; lia.
Qed.

Lemma Ok_or_IndexError {S : Type} (m : M S unit) (s : S) :
  index_error_only m ->
  (exists a, fst (m s) = Ok a) \/ fst (m s) = Raise IndexError.
Proof. intros H. destruct (H s) as [E|E]; [left; exists tt; exact E | right; exact E]. Qed.

Lemma hexdump_index_error_only (data : bytes) : index_error_only (Dump.hexdump data).
Proof.
  unfold Dump.hexdump. apply index_error_only_for_each. intros i.
  apply index_error_only_bind.
  - intros s. apply Ok_or_IndexError. apply index_error_only_for_each. intros j.
    apply (index_error_only_cell data _ (fun d => Dump.write (Dump.format_02X d))).
    intros d u0. reflexivity.
  - intros _. apply index_error_only_bind.
    + intros s. apply Ok_or_IndexError. apply index_error_only_for_each. intros j.
      apply (index_error_only_cell data _
               (fun d => if (0x20 <=? Z.land d 0x7F) && (Z.land d 0x7F <? 0x7F)
                         then Dump.write (String (chr (Z.land d 0x7F)) EmptyString)
                         else Dump.write ".")).
      intros d u0. destruct ((0x20 <=? Z.land d 0x7F) && (Z.land d 0x7F <? 0x7F));
        reflexivity.
    + intros _ s. left. reflexivity.
Qed.

Lemma hexdump_appends (data : bytes) :
  256 <= len data -> appends (65 * 16) (Dump.hexdump data).
Proof.
  intros Hl. unfold Dump.hexdump.
  apply (appends_for_each 65 (range 0 0x10 1)). intros i Hi.
  change 65%nat with (3 * 16 + (1 * 16 + 1))%nat.
  apply appends_then; [|apply appends_then].
  - apply (appends_for_each 3 (range 0 0x10 1)). intros j Hj.
    pose proof (hexdump_cell_index i j Hi Hj). intros u0. unfold bind, lift.
    rewrite getitem_byte_at by lia. apply (appends_write (Dump.format_02X _)).
  - apply (appends_for_each 1 (range 0 0x10 1)). intros j Hj.
    pose proof (hexdump_cell_index i j Hi Hj). intros u0. unfold bind, lift.
    rewrite getitem_byte_at by lia.
    destruct ((32 <=? Z.land _ 127) && (Z.land _ 127 <? 127));
      [apply (appends_write (String _ EmptyString)) | apply (appends_write ".")].
  - apply (appends_write Applesoft.newline).
Qed.

(** X12.  [hexdump] needs 256 bytes.  Given at least that many it
    returns, having written 1040 characters: 16 lines of 16 times three
    characters of hexadecimal, 16 characters of text and a line break.
    Given fewer it raises IndexError. *)
Theorem hexdump_needs_256_bytes (data : bytes) (u : Dump.session) :
  if 256 <=? len data then
    exists text,
      Dump.hexdump data u = (Ok tt, Dump.Session (Dump.stdout u ++ text) (Dump.data u))
      /\ String.length text = 1040%nat
  else fst (Dump.hexdump data u) = Raise IndexError.
Proof.
  destruct (Z.leb_spec 256 (len data)) as [Hl|Hl].
  - exact (hexdump_appends data Hl u).
  - pose proof (hexdump_index_error_only data) as H.
    destruct (H u) as [E|E]; [exfalso | exact E].
    unfold Dump.hexdump in E.
    destruct (for_each_Ok_inv _ _ u 15 E ltac:(apply in_range_iff; lia)) as (u1 & E1).
    apply bind_Ok_inv in E1. destruct E1 as ([] & u2 & E1 & _).
    assert (E2 : fst (Dump.for_each (range 0 0x10 1)
                        (fun j => d <- lift (getitem data (0x10 * 15 + j)) ;;
                                  Dump.write (Dump.format_02X d)) u1) = Ok tt)
      by (rewrite E1; reflexivity).
    destruct (for_each_Ok_inv _ _ u1 15 E2 ltac:(apply in_range_iff; lia)) as (u3 & E3).
    apply bind_Ok_inv in E3. destruct E3 as (d & u4 & E3 & _).
    unfold lift in E3. injection E3 as E3 _.
    apply getitem_Ok_inv in E3; lia.
Qed.

(** ** Dumping a file *)

Lemma bind_ext {S A B : Type} (m1 m2 : M S A) (k1 k2 : A -> M S B) (s : S) :
  m1 s = m2 s -> (forall a s', k1 a s' = k2 a s') -> bind m1 k1 s = bind m2 k2 s.
Proof.
  intros Hm Hk. unfold bind. rewrite Hm.
  destruct (m2 s) as [[a| |] s']; [apply Hk | reflexivity | reflexivity].
Qed.

Lemma scan_pairs_ext (image : bytes) (U : Type)
  (cb1 cb2 : bytes -> M (Disk.world U) unit) (tsl : bytes) (slots : list Z)
  (w : Disk.world U) :
  (forall d w0, cb1 d w0 = cb2 d w0) ->
  Files.scan_pairs image cb1 tsl slots w = Files.scan_pairs image cb2 tsl slots w.
Proof.
  intros H. revert w. induction slots as [|i slots IH]; intros w; [reflexivity|].
  cbn [Files.scan_pairs].
  destruct (slice tsl i (i + 2)) as [|t [|s [|x l]]]; try reflexivity.
  destruct ((byte_val t =? 0) && (byte_val s =? 0)); [reflexivity|].
  apply bind_ext; [reflexivity|]. intros d w1.
  apply bind_ext; [apply H|]. intros _ w2. apply IH.
Qed.

Lemma walk_sectors_loop_ext (image : bytes) (U : Type)
  (cb1 cb2 : bytes -> M (Disk.world U) unit) :
  (forall d w0, cb1 d w0 = cb2 d w0) ->
  forall (fuel : nat) (hop track sector : Z) (w : Disk.world U),
    Files.walk_sectors_loop image cb1 fuel hop track sector w =
    Files.walk_sectors_loop image cb2 fuel hop track sector w.
Proof.
  intros H. induction fuel as [|fuel IH]; intros hop track sector w; [reflexivity|].
  cbn [Files.walk_sectors_loop].
  destruct (negb (track =? 0)); [|reflexivity].
  destruct (hop + 1 >=? MAX_HOPS); [reflexivity|].
  apply bind_ext; [reflexivity|]. intros d w1.
  apply bind_ext; [apply scan_pairs_ext; exact H|]. intros _ w2.
  apply bind_ext; [reflexivity|]. intros t w3.
  apply bind_ext; [reflexivity|]. intros s w4. apply IH.
Qed.

Lemma deliver_text (sectors : list bytes) (u : Dump.session) :
  deliver (fun d u0 => Dump.Session (Dump.stdout u0 ++ text_of d) (Dump.data u0))
    sectors u
  = Dump.Session (Dump.stdout u ++ text_of (List.concat sectors)) (Dump.data u).
Proof.
  unfold deliver. revert u. induction sectors as [|d sectors IH]; intros u.
  - cbn. rewrite append_empty. destruct u; reflexivity.
  - cbn [fold_left List.concat]. rewrite IH. cbn [Dump.stdout Dump.data].
    rewrite text_of_app, append_assoc. reflexivity.
Qed.

Lemma deliver_applesoft (sectors : list bytes) (u : Dump.session) :
  deliver (fun d u0 => Dump.Session (Dump.stdout u0) (Dump.data u0 ++ d)) sectors u
  = Dump.Session (Dump.stdout u) (Dump.data u ++ List.concat sectors).
Proof.
  unfold deliver. revert u. induction sectors as [|d sectors IH]; intros u.
  - cbn. rewrite app_nil_r. destruct u; reflexivity.
  - cbn [fold_left List.concat]. rewrite IH. cbn [Dump.stdout Dump.data].
    rewrite app_assoc. reflexivity.
Qed.

(** The walk of a well-formed file with a consumer, from any session. *)
Lemma walk_sectors_consumer (image : bytes) (U : Type) (f : bytes -> U -> U)
  (track sector : Z) (w : Disk.world U) :
  len image = FULL_GEOMETRY ->
  len (chain image HOP_LIMIT track sector) < 559 ->
  forallb in_geometry (chain image HOP_LIMIT track sector) = true ->
  forallb in_geometry (file_pointers image HOP_LIMIT track sector) = true ->
  exists w',
    Files.walk_sectors image (consumer f) track sector w = (Ok tt, w')
    /\ Disk.user w' =
         deliver f (payloads image (file_pointers image HOP_LIMIT track sector))
           (Disk.user w).
Proof.
  intros Hl Hn Hc Hp. pose proof HOP_LIMIT_value as Hv.
  apply (walk_sectors_loop_delivers image U f Hl HOP_LIMIT (Z.to_nat MAX_HOPS));
    try assumption; try (unfold MAX_HOPS; lia).
  apply below_HOP_LIMIT. exact Hn.
Qed.

(** X13.  On an image of full size, when the lookup finds a text file
    (type 0) whose chain of track/sector list sectors ends within the hop
    limit and whose pointers lie in the geometry, [dump] returns, and what
    it has written is the text of the file's data sectors taken in the order
    of the chain, all 256 bytes of each: a line break for every byte 0x8D
    and, for every other byte, the character of its low seven bits. *)
Theorem dump_text_file (image : bytes) (file_name : string)
  (w w1 : Disk.world Dump.session) (track sector : Z) :
  len image = FULL_GEOMETRY ->
  lookup image file_name w = (Ok (Some (track, sector, 0)), w1) ->
  len (chain image HOP_LIMIT track sector) < 559 ->
  forallb in_geometry (chain image HOP_LIMIT track sector) = true ->
  forallb in_geometry (file_pointers image HOP_LIMIT track sector) = true ->
  exists w',
    Dump.dump image file_name w = (Ok tt, w')
    /\ Disk.user w' =
         Dump.Session
           (Dump.stdout (Disk.user w)
            ++ text_of (List.concat
                          (payloads image (file_pointers image HOP_LIMIT track sector))))
           (Dump.data (Disk.user w)).
Proof.
  intros Hl Hlook Hn Hc Hp.
  pose proof (keeps_user_lookup image file_name w) as Hu. rewrite Hlook in Hu.
  cbn [snd] in Hu.
  rewrite dump_after_lookup, Hlook.
  change (Dump.FILE_HANDLERS_get 0) with Dump.TextHandler.
  unfold Dump.with_handler, bind at 1.
  cbn [Dump.handler_init Dump.handler_exit]. unfold Disk.on_user at 1, ret at 1.
  unfold Files.walk_sectors.
  rewrite (walk_sectors_loop_ext image Dump.session _
             (consumer (fun d u0 =>
                          Dump.Session (Dump.stdout u0 ++ text_of d) (Dump.data u0))))
    by (intros d w0; unfold consumer, Disk.on_user; rewrite text_handler_run; reflexivity).
  destruct (walk_sectors_consumer image Dump.session
              (fun d u0 => Dump.Session (Dump.stdout u0 ++ text_of d) (Dump.data u0))
              track sector
              (Disk.World (Disk.position w1) (Disk.oplog w1) (Disk.user w1))
              Hl Hn Hc Hp) as (w' & Hw & Hu').
  unfold Files.walk_sectors in Hw. rewrite Hw.
  unfold Disk.on_user, ret. eexists. split; [reflexivity|].
  cbn [Disk.user] in *. rewrite Hu', deliver_text, Hu. reflexivity.
Qed.

Lemma dump_text_file_witness :
  exists w',
    Dump.dump image_demo "NOTES" fresh = (Ok tt, w')
    /\ Dump.stdout (Disk.user w') = text_of (filled 256 0xC1).
Proof.
  assert (H1 : len image_demo = FULL_GEOMETRY) by (vm_compute; reflexivity).
  destruct (lookup image_demo "NOTES" fresh) as [r w1] eqn:E.
  assert (Hr : r = Ok (Some (0x13, 0x0F, 0))).
  { apply (f_equal fst) in E. cbn [fst] in E. rewrite <- E. vm_compute. reflexivity. }
  subst r.
  assert (H3 : len (chain image_demo HOP_LIMIT 0x13 0x0F) < 559)
    by (vm_compute; reflexivity).
  assert (H4 : forallb in_geometry (chain image_demo HOP_LIMIT 0x13 0x0F) = true)
    by (vm_compute; reflexivity).
  assert (H5 : forallb in_geometry (file_pointers image_demo HOP_LIMIT 0x13 0x0F) = true)
    by (vm_compute; reflexivity).
  destruct (dump_text_file image_demo "NOTES" fresh w1 0x13 0x0F H1 E H3 H4 H5)
    as (w' & Hd & Hu).
  exists w'. split; [exact Hd|]. rewrite Hu. vm_compute. reflexivity.
Defined.

(** X14.  On an image of full size, when the lookup finds an Applesoft
    file (type 2) whose chain ends within the hop limit and whose pointers
    lie in the geometry, [dump] is the de-tokenizer run once, after the
    last sector, on the file's data sectors put end to end in the order of
    the chain: it returns or raises what [detokenize] does on that buffer
    and has written what [detokenize] writes. *)
Theorem dump_applesoft_file (image : bytes) (file_name : string)
  (w w1 : Disk.world Dump.session) (track sector : Z) :
  len image = FULL_GEOMETRY ->
  lookup image file_name w = (Ok (Some (track, sector, 2)), w1) ->
  len (chain image HOP_LIMIT track sector) < 559 ->
  forallb in_geometry (chain image HOP_LIMIT track sector) = true ->
  forallb in_geometry (file_pointers image HOP_LIMIT track sector) = true ->
  fst (Dump.dump image file_name w) =
    fst (Applesoft.detokenize
           (List.concat (payloads image (file_pointers image HOP_LIMIT track sector)))
           (Dump.stdout (Disk.user w)))
  /\ Dump.stdout (Disk.user (snd (Dump.dump image file_name w))) =
       snd (Applesoft.detokenize
              (List.concat (payloads image (file_pointers image HOP_LIMIT track sector)))
              (Dump.stdout (Disk.user w))).
Proof.
  intros Hl Hlook Hn Hc Hp.
  pose proof (keeps_user_lookup image file_name w) as Hu. rewrite Hlook in Hu.
  cbn [snd] in Hu.
  destruct (Applesoft.detokenize
              (List.concat (payloads image (file_pointers image HOP_LIMIT track sector)))
              (Dump.stdout (Disk.user w))) as [r out] eqn:ED.
  cbn [fst snd].
  assert (E : exists w2,
             Dump.dump image file_name w = (r, w2)
             /\ Dump.stdout (Disk.user w2) = out).
  { rewrite dump_after_lookup, Hlook.
    change (Dump.FILE_HANDLERS_get 2) with Dump.ApplesoftHandler.
    unfold Dump.with_handler, bind at 1.
    cbn [Dump.handler_init Dump.handler_exit]. unfold Disk.on_user at 1.
    change (fun sector_data : bytes =>
              Disk.on_user (Dump.receive_sector_data Dump.ApplesoftHandler sector_data))
      with (consumer (fun d u0 => Dump.Session (Dump.stdout u0) (Dump.data u0 ++ d))).
    destruct (walk_sectors_consumer image Dump.session
                (fun d u0 => Dump.Session (Dump.stdout u0) (Dump.data u0 ++ d))
                track sector
                (Disk.World (Disk.position w1) (Disk.oplog w1)
                   (Dump.Session (Dump.stdout (Disk.user w1)) []))
                Hl Hn Hc Hp) as (w' & Hw & Hu').
    rewrite Hw. unfold Disk.on_user. rewrite Hu', deliver_applesoft.
    cbn [Disk.user Dump.stdout Dump.data app]. rewrite Hu, ED.
    destruct r as [[]|e|]; eexists; split; reflexivity. }
  destruct E as (w2 & -> & E2). split; [reflexivity | exact E2].
Qed.

Lemma dump_applesoft_file_witness :
  fst (Dump.dump image_basic "HELLO" fresh) = Ok tt
  /\ Dump.stdout (Disk.user (snd (Dump.dump image_basic "HELLO" fresh))) = listing_hi.
Proof.
  assert (H1 : len image_basic = FULL_GEOMETRY) by (vm_compute; reflexivity).
  destruct (lookup image_basic "HELLO" fresh) as [r w1] eqn:E.
  assert (Hr : r = Ok (Some (0x12, 0x0F, 2))).
  { apply (f_equal fst) in E. cbn [fst] in E. rewrite <- E. vm_compute. reflexivity. }
  subst r.
  assert (H3 : len (chain image_basic HOP_LIMIT 0x12 0x0F) < 559)
    by (vm_compute; reflexivity).
  assert (H4 : forallb in_geometry (chain image_basic HOP_LIMIT 0x12 0x0F) = true)
    by (vm_compute; reflexivity).
  assert (H5 : forallb in_geometry (file_pointers image_basic HOP_LIMIT 0x12 0x0F) = true)
    by (vm_compute; reflexivity).
  destruct (dump_applesoft_file image_basic "HELLO" fresh w1 0x12 0x0F H1 E H3 H4 H5)
    as (Hd & Hu).
  split.
  - rewrite Hd. vm_compute. reflexivity.
  - rewrite Hu. vm_compute. reflexivity.
Defined.

(** ** The de-tokenizer on whole programs *)

Lemma getitem_middle (pre post : bytes) (b : byte) :
  getitem (pre ++ b :: post) (len pre) = Ok (byte_val b).
Proof.
  unfold getitem, len.
  destruct (Z.ltb_spec (Z.of_nat (List.length pre)) 0); [lia|].
  destruct (Z.ltb_spec (Z.of_nat (List.length pre)) 0); [lia|].
  rewrite Nat2Z.id, nth_error_app2 by lia. rewrite Nat.sub_diag. reflexivity.
Qed.

Lemma getitem_at_end (pre : bytes) : getitem pre (len pre) = Raise IndexError.
Proof. apply getitem_past_end. lia. Qed.

Lemma len_app {A : Type} (l1 l2 : list A) : len (l1 ++ l2) = len l1 + len l2.
Proof. unfold len. rewrite length_app. lia. Qed.

Lemma read_byte_middle (pre post : bytes) (b : byte) (out : string) :
  Applesoft.read_byte (Applesoft.Detok (pre ++ b :: post) (len pre) out) =
    (Ok (byte_val b), Applesoft.Detok (pre ++ b :: post) (len pre + 1) out).
Proof.
  unfold Applesoft.read_byte. cbn [Applesoft.data Applesoft.index Applesoft.stdout].
  rewrite getitem_middle. reflexivity.
Qed.

Lemma read_word_middle (pre post : bytes) (lo hi : byte) (out : string) :
  Applesoft.read_word (Applesoft.Detok (pre ++ lo :: hi :: post) (len pre) out) =
    (Ok (byte_val lo + 0x100 * byte_val hi),
     Applesoft.Detok (pre ++ lo :: hi :: post) (len pre + 2) out).
Proof.
  unfold Applesoft.read_word, bind. rewrite read_byte_middle.
  replace (pre ++ lo :: hi :: post) with ((pre ++ [lo]) ++ hi :: post)
    by (rewrite <- app_assoc; reflexivity).
  replace (len pre + 1) with (len (pre ++ [lo])) by (rewrite len_app; reflexivity).
  rewrite read_byte_middle. unfold ret. rewrite len_app.
  replace (len pre + len [lo] + 1) with (len pre + 2) by reflexivity || (cbn; lia).
  reflexivity.
Qed.

(** The loop over a line, on a run of listable bytes and what follows
    it. *)
Lemma line_loop_run (good : bytes) :
  forall (fuel : nat) (data pre tail : bytes) (out : string),
    data = pre ++ good ++ tail ->
    forallb listable good = true -> ends_run tail = true ->
    len good < Z.of_nat fuel ->
    Applesoft.line_loop fuel (Applesoft.Detok data (len pre) out) =
      (fst (fst (line_end tail)),
       Applesoft.Detok data (len pre + len good + snd (fst (line_end tail)))
         (out ++ body_listing good ++ snd (line_end tail))).
Proof.
  induction good as [|b good IH]; intros fuel data pre tail out Hd Hg Ht Hf.
  - destruct fuel as [|fuel]; [cbn in Hf; lia|].
    cbn [app] in Hd. subst data. cbn [Applesoft.line_loop body_listing].
    change (len (@nil byte)) with 0. rewrite Z.add_0_r.
    unfold bind at 1. destruct tail as [|b tail].
    + rewrite app_nil_r. unfold Applesoft.read_byte.
      cbn [Applesoft.data Applesoft.index Applesoft.stdout].
      rewrite getitem_at_end. cbn [line_end fst snd].
      rewrite Z.add_0_r, append_empty. reflexivity.
    + rewrite read_byte_middle. cbn [line_end ends_run] in *.
      unfold listable in Ht. destruct (Z.eqb_spec (byte_val b) 0) as [E|E].
      * cbn [fst snd]. unfold Applesoft.write.
        cbn [Applesoft.data Applesoft.index Applesoft.stdout]. reflexivity.
      * cbn [negb andb] in Ht. apply negb_true_iff in Ht.
        apply orb_false_iff in Ht. destruct Ht as [Hlow Hkey].
        rewrite Hlow. unfold bind, lift, Applesoft.token.
        destruct (Applesoft.lookup (byte_val b) Applesoft.TOKENS); [discriminate|].
        cbn [fst snd]. rewrite append_empty. reflexivity.
  - destruct fuel as [|fuel]; [cbn in Hf; lia|].
    cbn [forallb] in Hg. apply andb_prop in Hg. destruct Hg as [Hb Hg].
    assert (Hd' : data = (pre ++ [b]) ++ good ++ tail)
      by (rewrite Hd, <- app_assoc; reflexivity).
    assert (Hlen : len (pre ++ [b]) = len pre + 1) by (rewrite len_app; reflexivity).
    assert (Hf' : len good < Z.of_nat fuel)
      by (unfold len in *; cbn [List.length] in Hf; lia).
    pose proof (fun out' => IH fuel data (pre ++ [b]) tail out' Hd' Hg Ht Hf') as Hrec.
    rewrite Hlen in Hrec.
    replace (len pre + len (b :: good)) with (len pre + 1 + len good)
      by (unfold len; cbn [List.length]; lia).
    cbn [Applesoft.line_loop body_listing]. unfold bind at 1.
    rewrite Hd at 1. cbn [app]. rewrite read_byte_middle.
    change (pre ++ b :: good ++ tail) with (pre ++ (b :: good) ++ tail).
    rewrite <- Hd.
    unfold listable in Hb. apply andb_prop in Hb. destruct Hb as [Hnz Hk].
    apply negb_true_iff in Hnz. rewrite Hnz. unfold byte_listing.
    destruct (byte_val b <=? 0x7F).
    + unfold bind, Applesoft.write.
      cbn [Applesoft.data Applesoft.index Applesoft.stdout].
      rewrite Hrec, !append_assoc. reflexivity.
    + cbn [orb] in Hk. unfold bind, lift, Applesoft.token.
      destruct (Applesoft.lookup (byte_val b) Applesoft.TOKENS) as [keyword|];
        [|discriminate].
      unfold Applesoft.write. cbn [Applesoft.data Applesoft.index Applesoft.stdout].
      rewrite Hrec, !append_assoc. reflexivity.
Qed.

Lemma read_word_at (data pre post : bytes) (lo hi : byte) (i : Z) (out : string) :
  data = pre ++ lo :: hi :: post -> i = len pre ->
  Applesoft.read_word (Applesoft.Detok data i out) =
    (Ok (byte_val lo + 0x100 * byte_val hi), Applesoft.Detok data (i + 2) out).
Proof. intros -> ->. apply read_word_middle. Qed.

Lemma line_end_zero (post : bytes) :
  line_end (x00 :: post) = (Ok tt, 1, Applesoft.newline).
Proof. reflexivity. Qed.

Lemma len_encode_line (l : basic_line) : len (encode_line l) = len (line_body l) + 5.
Proof.
  unfold encode_line. rewrite !len_app. change (len [x00]) with 1.
  change (len [line_memory_lo l; line_memory_hi l; line_number_lo l; line_number_hi l]) with 4. lia.
Qed.

(** One turn of the outer loop on a line of listable bytes. *)
Lemma lines_loop_line (l : basic_line) (fuel : nat) (data pre post : bytes)
  (out : string) (length : Z) :
  data = pre ++ encode_line l ++ post ->
  forallb listable (line_body l) = true ->
  len pre < length ->
  len (line_body l) <= Z.of_nat fuel ->
  Applesoft.lines_loop (S fuel) length (Applesoft.Detok data (len pre) out) =
    Applesoft.lines_loop fuel length
      (Applesoft.Detok data (len pre + len (encode_line l)) (out ++ line_listing l)).
Proof.
  intros Hd Hg Hlt Hf. rewrite lines_loop_unfold. cbn [Applesoft.index].
  destruct (Z.ltb_spec (len pre) length); [|lia].
  unfold bind at 1.
  rewrite (read_word_at data pre
             (line_number_lo l :: line_number_hi l :: line_body l ++ [x00] ++ post)
             (line_memory_lo l) (line_memory_hi l))
    by (try reflexivity; rewrite Hd; unfold encode_line; cbn [app];
        rewrite <- app_assoc; reflexivity).
  unfold bind at 1.
  rewrite (read_word_at data (pre ++ [line_memory_lo l; line_memory_hi l])
             (line_body l ++ [x00] ++ post) (line_number_lo l) (line_number_hi l))
    by (rewrite ?len_app; try reflexivity; rewrite Hd; unfold encode_line;
        rewrite <- !app_assoc; reflexivity).
  unfold bind at 1, Applesoft.write at 1.
  cbn [Applesoft.data Applesoft.index Applesoft.stdout].
  unfold bind at 1.
  replace (len pre + 2 + 2)
    with (len (pre ++ [line_memory_lo l; line_memory_hi l; line_number_lo l; line_number_hi l]))
    by (rewrite len_app;
        change (len [line_memory_lo l; line_memory_hi l; line_number_lo l; line_number_hi l]) with 4; lia).
  rewrite (line_loop_run (line_body l) (S fuel) data
             (pre ++ [line_memory_lo l; line_memory_hi l; line_number_lo l; line_number_hi l])
             (x00 :: post))
    by (try assumption; try reflexivity; try lia;
        rewrite Hd; unfold encode_line; rewrite <- !app_assoc; reflexivity).
  rewrite line_end_zero. cbn [fst snd].
  rewrite len_app, len_encode_line.
  change (len [line_memory_lo l; line_memory_hi l; line_number_lo l; line_number_hi l]) with 4.
  replace (len pre + 4 + len (line_body l) + 1) with (len pre + (len (line_body l) + 5)) by lia.
  unfold line_listing, line_heading, number_of_line.
  rewrite !append_assoc. reflexivity.
Qed.

Lemma lines_loop_through (lines : list basic_line) :
  forall (fuel : nat) (data pre post : bytes) (out : string) (length : Z),
    data = pre ++ encode_lines lines ++ post ->
    forallb (fun l => forallb listable (line_body l)) lines = true ->
    forallb (fun s => s <? length) (line_starts (len pre) lines) = true ->
    Forall (fun l => len (line_body l) <= Z.of_nat fuel) lines ->
    Applesoft.lines_loop (List.length lines + fuel) length
      (Applesoft.Detok data (len pre) out) =
    Applesoft.lines_loop fuel length
      (Applesoft.Detok data (len pre + len (encode_lines lines))
         (out ++ program_listing lines)).
Proof.
  induction lines as [|l lines IH]; intros fuel data pre post out length Hd Hg Hs Hf.
  - cbn [List.length Nat.add program_listing encode_lines map List.concat].
    change (len (@nil byte)) with 0. rewrite Z.add_0_r, append_empty. reflexivity.
  - cbn [forallb line_starts] in Hg, Hs.
    apply andb_prop in Hg. destruct Hg as [Hg1 Hg].
    apply andb_prop in Hs. destruct Hs as [Hs1 Hs].
    apply Z.ltb_lt in Hs1. inversion Hf as [|? ? Hf1 Hf2]; subst.
    unfold encode_lines in *. cbn [map List.concat List.length Nat.add program_listing].
    rewrite (lines_loop_line l _ _ pre (List.concat (map encode_line lines) ++ post))
      by (try assumption; try lia; cbn [map List.concat]; rewrite <- app_assoc; reflexivity).
    rewrite <- len_app in Hs |- *.
    rewrite (IH fuel _ (pre ++ encode_line l) post)
      by (try assumption; cbn [map List.concat]; rewrite <- !app_assoc; reflexivity).
    rewrite !len_app, append_assoc.
    replace (len pre + len (encode_line l) + len (List.concat (map encode_line lines)))
      with (len pre + (len (encode_line l) + len (List.concat (map encode_line lines))))
      by lia.
    reflexivity.
Qed.

Lemma body_in_program (lines : list basic_line) (l : basic_line) :
  In l lines ->
  len (line_body l) + 5 * len lines <= len (encode_lines lines).
Proof.
  unfold encode_lines. induction lines as [|l0 lines IH]; intros Hin; [contradiction|].
  cbn [map List.concat]. rewrite len_app, len_encode_line.
  assert (Hn : 5 * len lines <= len (List.concat (map encode_line lines))).
  { clear. induction lines as [|l1 lines IH]; [cbn; lia|].
    cbn [map List.concat]. rewrite len_app, len_encode_line.
    unfold len in *. cbn [List.length]. lia. }
  replace (len (l0 :: lines)) with (1 + len lines)
    by (unfold len; cbn [List.length]; lia).
  destruct Hin as [->|Hin].
  - unfold len in *. lia.
  - specialize (IH Hin). unfold len in *. lia.
Qed.

Lemma lines_in_program (lines : list basic_line) :
  5 * len lines <= len (encode_lines lines).
Proof.
  unfold encode_lines. induction lines as [|l1 lines IH]; [cbn; lia|].
  cbn [map List.concat]. rewrite len_app, len_encode_line.
  unfold len in *. cbn [List.length]. lia.
Qed.

(** The whole of [detokenize] up to the end of a run of listable lines. *)
Lemma detokenize_through (length_lo length_hi : byte) (lines : list basic_line)
  (post : bytes) (out : string) (extra : nat) :
  forallb (fun l => forallb listable (line_body l)) lines = true ->
  forallb (fun s => s <? byte_val length_lo + 0x100 * byte_val length_hi)
          (line_starts 2 lines) = true ->
  S (List.length ([length_lo; length_hi] ++ encode_lines lines ++ post)) =
    (List.length lines + extra)%nat ->
  Forall (fun l => len (line_body l) <= Z.of_nat extra) lines ->
  Applesoft.detokenize ([length_lo; length_hi] ++ encode_lines lines ++ post) out =
    let (r, st) :=
      Applesoft.lines_loop extra (byte_val length_lo + 0x100 * byte_val length_hi)
        (Applesoft.Detok ([length_lo; length_hi] ++ encode_lines lines ++ post)
           (2 + len (encode_lines lines)) (out ++ program_listing lines)) in
    (r, Applesoft.stdout st).
Proof.
  intros Hg Hs Hfuel Hf. unfold Applesoft.detokenize, Applesoft.detokenize_from.
  unfold bind at 1.
  rewrite (read_word_at _ [] (encode_lines lines ++ post) length_lo length_hi 0)
    by reflexivity.
  rewrite Hfuel.
  change (0 + 2) with (len [length_lo; length_hi]).
  rewrite (lines_loop_through lines extra _ [length_lo; length_hi] post)
    by (assumption || reflexivity).
  reflexivity.
Qed.

Lemma line_starts_below (lines : list basic_line) :
  forall (p length : Z),
    0 <= p -> p + len (encode_lines lines) < length ->
    forallb (fun s => s <? length) (line_starts p lines) = true.
Proof.
  unfold encode_lines.
  induction lines as [|l lines IH]; intros p length Hp Hlt; [reflexivity|].
  cbn [line_starts forallb map List.concat] in *. rewrite len_app in Hlt.
  pose proof (len_encode_line l) as Hl.
  assert (0 <= len (line_body l)) by (unfold len; lia).
  assert (0 <= len (List.concat (map encode_line lines))) by (unfold len; lia).
  apply andb_true_intro. split; [apply Z.ltb_lt; lia|].
  apply IH; lia.
Qed.

Lemma detokenize_fuel (length_lo length_hi : byte) (lines : list basic_line)
  (post : bytes) :
  exists extra : nat,
    S (List.length ([length_lo; length_hi] ++ encode_lines lines ++ post)) =
      (List.length lines + extra)%nat
    /\ Z.of_nat extra = 3 + len (encode_lines lines) + len post - len lines.
Proof.
  pose proof (lines_in_program lines) as H.
  exists (Z.to_nat (3 + len (encode_lines lines) + len post - len lines)).
  unfold len in *. rewrite !length_app. cbn [List.length]. lia.
Qed.

(** The turn of the outer loop on a line that does not end with its zero
    byte. *)
Lemma lines_loop_broken_line (memory_lo memory_hi number_lo number_hi : byte)
  (good tail : bytes) (fuel : nat) (data pre : bytes) (out : string) (length : Z) :
  data = pre ++ [memory_lo; memory_hi; number_lo; number_hi] ++ good ++ tail ->
  forallb listable good = true -> ends_run tail = true ->
  fst (fst (line_end tail)) <> Ok tt ->
  len pre < length ->
  len good <= Z.of_nat fuel ->
  let (r, st) := Applesoft.lines_loop (S fuel) length (Applesoft.Detok data (len pre) out) in
  r = fst (fst (line_end tail))
  /\ Applesoft.stdout st =
       (out ++ Applesoft.format_int (byte_val number_lo + 0x100 * byte_val number_hi)
            ++ " " ++ body_listing good)%string.
Proof.
  intros Hd Hg Ht Hr Hlt Hf. rewrite lines_loop_unfold. cbn [Applesoft.index].
  destruct (Z.ltb_spec (len pre) length); [|lia].
  unfold bind at 1.
  rewrite (read_word_at data pre (number_lo :: number_hi :: good ++ tail)
             memory_lo memory_hi)
    by (try reflexivity; rewrite Hd; reflexivity).
  unfold bind at 1.
  rewrite (read_word_at data (pre ++ [memory_lo; memory_hi])
             (good ++ tail) number_lo number_hi)
    by (rewrite ?len_app; try reflexivity; rewrite Hd, <- app_assoc; reflexivity).
  unfold bind at 1, Applesoft.write at 1.
  cbn [Applesoft.data Applesoft.index Applesoft.stdout].
  unfold bind at 1.
  replace (len pre + 2 + 2)
    with (len (pre ++ [memory_lo; memory_hi; number_lo; number_hi]))
    by (rewrite len_app;
        change (len [memory_lo; memory_hi; number_lo; number_hi]) with 4; lia).
  rewrite (line_loop_run good (S fuel) data
             (pre ++ [memory_lo; memory_hi; number_lo; number_hi]) tail)
    by (try assumption; try lia; rewrite Hd, <- app_assoc; reflexivity).
  destruct tail as [|d tail]; cbn [line_end] in *.
  - cbn [fst snd Applesoft.stdout]. rewrite !append_assoc, !append_empty.
    split; reflexivity.
  - destruct (byte_val d =? 0); cbn [fst snd Applesoft.stdout] in *; [congruence|].
    rewrite !append_assoc, !append_empty. split; reflexivity.
Qed.

(** X15.  On a buffer made of a length word, then lines, each of a
    pointer, a line number, listable bytes and a zero byte, then anything
    at all: when the length word lies beyond the start of every line and
    not beyond the end of the last, [detokenize] returns, having written
    for each line in turn its number, a space, the characters and the
    keywords of its bytes, each keyword between two spaces, and a line
    break.  The pointers are not used, and what follows the last line is
    not read. *)
Theorem detokenize_lists_program (length_lo length_hi : byte)
  (lines : list basic_line) (rest : bytes) (out : string) :
  forallb (fun l => forallb listable (line_body l)) lines = true ->
  forallb (fun s => s <? byte_val length_lo + 0x100 * byte_val length_hi)
          (line_starts 2 lines) = true ->
  byte_val length_lo + 0x100 * byte_val length_hi <= 2 + len (encode_lines lines) ->
  Applesoft.detokenize ([length_lo; length_hi] ++ encode_lines lines ++ rest) out =
    (Ok tt, (out ++ program_listing lines)%string).
Proof.
  intros Hg Hs Hend.
  destruct (detokenize_fuel length_lo length_hi lines rest) as (extra & Hfuel & Hextra).
  assert (0 <= len rest) by (unfold len; lia).
  rewrite (detokenize_through length_lo length_hi lines rest out extra Hg Hs Hfuel).
  - destruct extra as [|extra];
      [pose proof (lines_in_program lines); unfold len in *; lia|].
    rewrite lines_loop_unfold. cbn [Applesoft.index].
    destruct (Z.ltb_spec (2 + len (encode_lines lines))
                (byte_val length_lo + 0x100 * byte_val length_hi)); [lia|].
    reflexivity.
  - apply Forall_forall. intros l Hl. pose proof (body_in_program lines l Hl).
    unfold len in *. lia.
Qed.

Lemma detokenize_lists_program_witness :
  Applesoft.detokenize (program_hi x0d x00 x01 x08 ++ blank 243) EmptyString =
    (Ok tt, listing_hi).
Proof.
  exact (detokenize_lists_program x0d x00
           [BasicLine x01 x08 x0a x00 (bytes_of [0xBA; 0x20; 0x22; 0x48; 0x49; 0x22])]
           (blank 243) EmptyString eq_refl eq_refl ltac:(vm_compute; discriminate)).
Defined.

(** X16.  When the length word lies beyond the end of the lines that
    are complete, and the line after them has, behind its pointer, its
    number and a run of listable bytes, a byte of 0x80 or more that is no
    key of the token table, or nothing more, [detokenize] raises KeyError
    of that byte, or IndexError at the end of the buffer.  By then it has
    written the lines before, the number of the line, a space and the text
    of the run. *)
Theorem detokenize_broken_line (length_lo length_hi : byte)
  (lines : list basic_line) (memory_lo memory_hi number_lo number_hi : byte)
  (good tail : bytes) (out : string) :
  forallb (fun l => forallb listable (line_body l)) lines = true ->
  forallb listable good = true ->
  2 + len (encode_lines lines) < byte_val length_lo + 0x100 * byte_val length_hi ->
  match tail with
  | [] => True
  | d :: _ => 0x80 <= byte_val d /\ Applesoft.lookup (byte_val d) Applesoft.TOKENS = None
  end ->
  Applesoft.detokenize
    ([length_lo; length_hi] ++ encode_lines lines
       ++ [memory_lo; memory_hi; number_lo; number_hi] ++ good ++ tail) out =
    (match tail with
     | [] => Raise IndexError
     | d :: _ => Raise (KeyError (byte_val d))
     end,
     (out ++ program_listing lines
          ++ Applesoft.format_int (byte_val number_lo + 0x100 * byte_val number_hi)
          ++ " " ++ body_listing good)%string).
Proof.
  intros Hg Hgood Hlt Htail.
  set (post := [memory_lo; memory_hi; number_lo; number_hi] ++ good ++ tail).
  destruct (detokenize_fuel length_lo length_hi lines post) as (extra & Hfuel & Hextra).
  assert (Hpost : len post = 4 + len good + len tail)
    by (unfold post; rewrite !len_app;
        change (len [memory_lo; memory_hi; number_lo; number_hi]) with 4; lia).
  assert (0 <= len tail) by (unfold len; lia).
  assert (0 <= len good) by (unfold len; lia).
  pose proof (lines_in_program lines) as Hn.
  rewrite (detokenize_through length_lo length_hi lines post out extra Hg).
  - destruct extra as [|extra]; [unfold len in *; lia|].
    assert (Ht : ends_run tail = true /\ fst (fst (line_end tail)) <> Ok tt
                 /\ fst (fst (line_end tail)) =
                      match tail with
                      | [] => Raise IndexError
                      | d :: _ => Raise (KeyError (byte_val d))
                      end).
    { destruct tail as [|d tail]; [repeat split; discriminate|].
      destruct Htail as [Hhigh Hkey]. cbn [ends_run line_end]. unfold listable.
      rewrite Hkey. destruct (Z.eqb_spec (byte_val d) 0); [lia|].
      destruct (Z.leb_spec (byte_val d) 0x7F); [lia|].
      repeat split; discriminate. }
    destruct Ht as (Ht1 & Ht2 & Ht3).
    pose proof (lines_loop_broken_line memory_lo memory_hi number_lo number_hi
                  good tail extra
                  ([length_lo; length_hi] ++ encode_lines lines ++ post)
                  ([length_lo; length_hi] ++ encode_lines lines) (out ++ program_listing lines)
                  (byte_val length_lo + 0x100 * byte_val length_hi)) as Hrun.
    rewrite len_app in Hrun. change (len [length_lo; length_hi]) with 2 in Hrun.
    assert (Hdata : [length_lo; length_hi] ++ encode_lines lines ++ post =
                    ([length_lo; length_hi] ++ encode_lines lines)
                      ++ [memory_lo; memory_hi; number_lo; number_hi] ++ good ++ tail)
      by (rewrite <- app_assoc; reflexivity).
    specialize (Hrun Hdata Hgood Ht1 Ht2 Hlt ltac:(unfold len in *; lia)).
    destruct (Applesoft.lines_loop (S extra) _ _) as [r st].
    destruct Hrun as [-> ->].
    rewrite Ht3, !append_assoc. reflexivity.
  - apply line_starts_below; lia.
  - exact Hfuel.
  - apply Forall_forall. intros l Hl. pose proof (body_in_program lines l Hl).
    unfold len in *. lia.
Qed.

Lemma detokenize_broken_line_witness :
  Applesoft.detokenize (program_byte x85) EmptyString =
    (Raise (KeyError 0x85), "10 "%string).
Proof.
  assert (H1 : 2 + len (encode_lines []) < byte_val x08 + 0x100 * byte_val x00)
    by (vm_compute; reflexivity).
  assert (H2 : 0x80 <= byte_val x85
               /\ Applesoft.lookup (byte_val x85) Applesoft.TOKENS = None)
    by (split; [vm_compute; discriminate | reflexivity]).
  pose proof (detokenize_broken_line x08 x00 [] x01 x08 x0a x00 [] [x85; x00]
                EmptyString eq_refl eq_refl H1 H2) as H.
  vm_compute in H. vm_compute. exact H.
Defined.

(** ** The command [catalog] *)

Lemma print_entry_run (e : Catalog.entry) (u : Dump.session) :
  Command.print_entry e u =
    match entry_line e with
    | Some line => (Ok None, Dump.Session (Dump.stdout u ++ line) (Dump.data u))
    | None => (Raise (KeyError (Catalog.file_type e)), u)
    end.
Proof.
  unfold Command.print_entry, entry_line, bind, lift, Command.file_type_code.
  destruct (Applesoft.lookup (Catalog.file_type e) Command.FILE_TYPES); reflexivity.
Qed.

Lemma call_until_print_entry (entries : list Catalog.entry) (u : Dump.session) :
  call_until Command.print_entry entries u =
    (match snd (catalog_lines entries) with
     | None => Ok None
     | Some t => Raise (KeyError t)
     end,
     Dump.Session (Dump.stdout u ++ fst (catalog_lines entries)) (Dump.data u)).
Proof.
  revert u. induction entries as [|e entries IH]; intros u.
  - cbn [call_until catalog_lines fst snd]. rewrite append_empty.
    destruct u; reflexivity.
  - cbn [call_until catalog_lines]. unfold bind. rewrite print_entry_run.
    destruct (entry_line e) as [line|].
    + rewrite IH. destruct (catalog_lines entries) as [text stop].
      cbn [fst snd Dump.stdout Dump.data]. rewrite append_assoc. reflexivity.
    + cbn [fst snd]. rewrite append_empty. destruct u; reflexivity.
Qed.

(** The walk of a well-formed catalog with a callback that touches only
    its own state. *)
Lemma walk_entries_call_until (image : bytes) (U R : Type)
  (g : Catalog.entry -> M U (option R)) (vtoc_buffer : bytes) (w : Disk.world U) :
  len image = FULL_GEOMETRY ->
  2 < len vtoc_buffer ->
  len (chain image HOP_LIMIT (byte_at vtoc_buffer 1) (byte_at vtoc_buffer 2)) < 559 ->
  forallb in_geometry
    (chain image HOP_LIMIT (byte_at vtoc_buffer 1) (byte_at vtoc_buffer 2)) = true ->
  exists w',
    Catalog.walk_entries image (fun e => Disk.on_user (g e)) vtoc_buffer w =
      (fst (call_until g
              (catalog_entries image HOP_LIMIT
                 (byte_at vtoc_buffer 1) (byte_at vtoc_buffer 2)) (Disk.user w)), w')
    /\ Disk.user w' =
         snd (call_until g
                (catalog_entries image HOP_LIMIT
                   (byte_at vtoc_buffer 1) (byte_at vtoc_buffer 2)) (Disk.user w)).
Proof.
  intros Hl Hv Hn Hc. pose proof HOP_LIMIT_value as Hlim.
  unfold Catalog.walk_entries, VTOC.catalog_track_sector.
  unfold VTOC.CATALOG_TRACK_OFFSET, VTOC.CATALOG_SECTOR_OFFSET.
  rewrite !getitem_byte_at by lia. cbn [rbind]. unfold bind at 1, lift at 1.
  cbn [fst snd].
  apply (walk_entries_loop_call_until image U R _ g Hl (fun e w0 => eq_refl) HOP_LIMIT);
    try assumption; try (unfold MAX_HOPS; lia).
  apply below_HOP_LIMIT. exact Hn.
Qed.

Lemma VTOC_accessors_full (image : bytes) :
  len image = FULL_GEOMETRY ->
  VTOC.disk_volume (sector_at image 0x11 0x00) = Ok (byte_at (sector_at image 0x11 0x00) 6)
  /\ VTOC.free_sectors (sector_at image 0x11 0x00) =
       Ok (bitmap_total 2 (sector_at image 0x11 0x00))
  /\ len (sector_at image 0x11 0x00) = 256.
Proof.
  intros Hl.
  assert (H256 : len (sector_at image 0x11 0x00) = 256)
    by (rewrite len_sector_at; unfold sector_offset, FULL_GEOMETRY in *; lia).
  split; [|split; [|exact H256]].
  - unfold VTOC.disk_volume, VTOC.VOLUME_NUMBER_OFFSET.
    rewrite getitem_byte_at by lia. reflexivity.
  - unfold VTOC.free_sectors, bitmap_total, Disk.TRACKS_PER_DISK.
    rewrite free_sectors_list_spec; [reflexivity|].
    intros t Ht. apply in_range_iff in Ht; lia.
Qed.

(** X17.  On an image of full size with an accepted VTOC and a catalog
    chain that ends within the hop limit inside the geometry, [catalog]
    prints an empty line, the line of the volume number and of the count
    of free sectors, an empty line, one line for each entry in use, in
    catalog order, with its lock mark, the letter of its type, its size in
    three digits or more and its name, and an empty line.  At the first
    entry whose type has no letter it raises KeyError of that type: the
    lines of the entries before it are printed, the closing empty line is
    not.  The [data] of the session is left alone. *)
Theorem catalog_prints_entries (image : bytes) (w w1 : Disk.world Dump.session)
  (vtoc_buffer : bytes) :
  len image = FULL_GEOMETRY ->
  VTOC.init image w = (Ok vtoc_buffer, w1) ->
  len (chain image HOP_LIMIT (byte_at vtoc_buffer 1) (byte_at vtoc_buffer 2)) < 559 ->
  forallb in_geometry
    (chain image HOP_LIMIT (byte_at vtoc_buffer 1) (byte_at vtoc_buffer 2)) = true ->
  exists w2,
    Command.catalog image w =
      (match snd (catalog_lines
                    (catalog_entries image HOP_LIMIT
                       (byte_at vtoc_buffer 1) (byte_at vtoc_buffer 2))) with
       | None => Ok tt
       | Some t => Raise (KeyError t)
       end, w2)
    /\ Disk.user w2 =
         Dump.Session
           (Dump.stdout (Disk.user w) ++ catalog_heading vtoc_buffer
              ++ fst (catalog_lines
                        (catalog_entries image HOP_LIMIT
                           (byte_at vtoc_buffer 1) (byte_at vtoc_buffer 2)))
              ++ match snd (catalog_lines
                              (catalog_entries image HOP_LIMIT
                                 (byte_at vtoc_buffer 1) (byte_at vtoc_buffer 2))) with
                 | None => Applesoft.newline
                 | Some _ => EmptyString
                 end)
           (Dump.data (Disk.user w)).
Proof.
  intros Hl Hinit Hn Hc.
  destruct (VTOC_init_Ok image _ w w1 vtoc_buffer Hinit) as (Hb & _ & Hu).
  destruct (VTOC_accessors_full image Hl) as (Hvol & Hfree & H256).
  rewrite <- Hb in Hvol, Hfree, H256.
  unfold Command.catalog. unfold bind at 1. rewrite Hinit.
  unfold bind at 1, Disk.on_user at 1, Command.print at 1, Dump.write at 1.
  unfold bind at 1, lift at 1. rewrite Hvol.
  unfold bind at 1, lift at 1. rewrite Hfree.
  unfold bind at 1, Disk.on_user at 1, Command.print at 1, Dump.write at 1.
  cbn [Disk.user Disk.position Disk.oplog Dump.stdout Dump.data].
  unfold bind at 1, Disk.on_user at 1, Command.print at 1, Dump.write at 1.
  cbn [Disk.user Disk.position Disk.oplog Dump.stdout Dump.data].
  unfold bind at 1.
  match goal with |- context [Catalog.walk_entries _ _ _ ?w0] =>
    destruct (walk_entries_call_until image Dump.session unit Command.print_entry
                vtoc_buffer w0 Hl ltac:(lia) Hn Hc) as (w' & Hw & Hu')
  end.
  rewrite Hw. rewrite call_until_print_entry in Hu' |- *.
  cbn [fst snd Disk.user Dump.stdout Dump.data] in Hu' |- *.
  destruct (catalog_lines _) as [text stop]. cbn [fst snd] in *.
  destruct stop as [t|].
  - exists w'. split; [reflexivity|]. rewrite Hu', Hu.
    unfold catalog_heading. rewrite ?append_assoc, ?append_empty. reflexivity.
  - unfold Disk.on_user, Command.print, Dump.write. rewrite Hu'.
    cbn [Dump.stdout Dump.data]. eexists. split; [reflexivity|].
    cbn [Disk.user]. rewrite Hu.
    unfold catalog_heading. rewrite ?append_assoc, ?append_empty. reflexivity.
Qed.

Lemma catalog_prints_entries_witness :
  exists w2,
    Command.catalog image_demo fresh = (Ok tt, w2)
    /\ Dump.stdout (Disk.user w2) = catalog_demo_listing.
Proof.
  assert (H1 : len image_demo = FULL_GEOMETRY) by (vm_compute; reflexivity).
  destruct (VTOC.init image_demo fresh) as [r w1] eqn:E.
  assert (Hr : r = Ok (sector_at image_demo 0x11 0x00)).
  { apply (f_equal fst) in E. cbn [fst] in E. rewrite <- E. vm_compute. reflexivity. }
  subst r.
  assert (H3 : len (chain image_demo HOP_LIMIT
                      (byte_at (sector_at image_demo 0x11 0x00) 1)
                      (byte_at (sector_at image_demo 0x11 0x00) 2)) < 559)
    by (vm_compute; reflexivity).
  assert (H4 : forallb in_geometry
                 (chain image_demo HOP_LIMIT
                    (byte_at (sector_at image_demo 0x11 0x00) 1)
                    (byte_at (sector_at image_demo 0x11 0x00) 2)) = true)
    by (vm_compute; reflexivity).
  destruct (catalog_prints_entries image_demo fresh w1 (sector_at image_demo 0x11 0x00)
              H1 E H3 H4) as (w2 & Hc & Hu).
  exists w2. split.
  - rewrite Hc. apply (f_equal (fun r => (r, w2))). vm_compute. reflexivity.
  - rewrite Hu. vm_compute. reflexivity.
Defined.

(** ** Files of other types *)

(** On a full image a read gives 256 bytes or raises. *)
Lemma read_sect_full_cases (image : bytes) (U : Type) (w : Disk.world U)
  (track sector : Z) :
  len image = FULL_GEOMETRY -> 0 <= track -> 0 <= sector ->
  (exists e, Disk.read_sect image track sector w = (Raise e, w))
  \/ (exists d w', Disk.read_sect image track sector w = (Ok d, w') /\ len d = 256).
Proof.
  intros Hl Ht Hs.
  destruct (Z.lt_ge_cases track 35) as [Ht2|Ht2];
    [destruct (Z.lt_ge_cases sector 16) as [Hs2|Hs2]|].
  - right.
    assert (Hg : in_geometry (track, sector) = true)
      by (unfold in_geometry; cbn [fst snd]; lia).
    destruct (read_sect_full image U w track sector Hl Hg) as [E E2].
    rewrite E. eauto.
  - left. exists SeekOutOfRange. apply read_sect_out_of_range. lia.
  - left. exists SeekOutOfRange. apply read_sect_out_of_range. lia.
Qed.

Lemma scan_pairs_ext_full (image : bytes) (U : Type)
  (cb1 cb2 : bytes -> M (Disk.world U) unit) (tsl : bytes) (slots : list Z)
  (w : Disk.world U) :
  len image = FULL_GEOMETRY ->
  (forall d w0, len d = 256 -> cb1 d w0 = cb2 d w0) ->
  Files.scan_pairs image cb1 tsl slots w = Files.scan_pairs image cb2 tsl slots w.
Proof.
  intros Hl H. revert w. induction slots as [|i slots IH]; intros w; [reflexivity|].
  cbn [Files.scan_pairs].
  destruct (slice tsl i (i + 2)) as [|t [|s [|x l]]]; try reflexivity.
  destruct ((byte_val t =? 0) && (byte_val s =? 0)); [reflexivity|].
  pose proof (byte_val_range t). pose proof (byte_val_range s).
  unfold bind at 1 3.
  destruct (read_sect_full_cases image U w (byte_val t) (byte_val s) Hl)
    as [[e ->]|(d & w' & -> & Hd)]; try lia; [reflexivity|].
  apply bind_ext; [apply H; exact Hd|]. intros _ w2. apply IH.
Qed.

Lemma walk_sectors_loop_ext_full (image : bytes) (U : Type)
  (cb1 cb2 : bytes -> M (Disk.world U) unit) :
  len image = FULL_GEOMETRY ->
  (forall d w0, len d = 256 -> cb1 d w0 = cb2 d w0) ->
  forall (fuel : nat) (hop track sector : Z) (w : Disk.world U),
    Files.walk_sectors_loop image cb1 fuel hop track sector w =
    Files.walk_sectors_loop image cb2 fuel hop track sector w.
Proof.
  intros Hl H. induction fuel as [|fuel IH]; intros hop track sector w; [reflexivity|].
  cbn [Files.walk_sectors_loop].
  destruct (negb (track =? 0)); [|reflexivity].
  destruct (hop + 1 >=? MAX_HOPS); [reflexivity|].
  apply bind_ext; [reflexivity|]. intros d w1.
  apply bind_ext; [apply scan_pairs_ext_full; assumption|]. intros _ w2.
  apply bind_ext; [reflexivity|]. intros t w3.
  apply bind_ext; [reflexivity|]. intros s w4. apply IH.
Qed.

Lemma hexdump_run (d : bytes) (u : Dump.session) :
  len d = 256 ->
  Dump.hexdump d u = (Ok tt, snd (Dump.hexdump d u))
  /\ String.length (Dump.stdout (snd (Dump.hexdump d u))) =
       (String.length (Dump.stdout u) + 1040)%nat
  /\ Dump.data (snd (Dump.hexdump d u)) = Dump.data u.
Proof.
  intros Hd. destruct (hexdump_appends d ltac:(lia) u) as (text & E & Ht).
  rewrite E. cbn [snd Dump.stdout Dump.data]. rewrite length_append, Ht.
  repeat split.
Qed.

Lemma deliver_hexdump (sectors : list bytes) :
  Forall (fun d => len d = 256) sectors ->
  forall u : Dump.session,
    String.length (Dump.stdout (deliver (fun d u0 => snd (Dump.hexdump d u0)) sectors u)) =
      (String.length (Dump.stdout u) + 1040 * List.length sectors)%nat
    /\ Dump.data (deliver (fun d u0 => snd (Dump.hexdump d u0)) sectors u) = Dump.data u.
Proof.
  unfold deliver. induction 1 as [|d sectors Hd _ IH]; intros u.
  - cbn [fold_left List.length]. split; [lia | reflexivity].
  - cbn [fold_left List.length]. destruct (IH (snd (Dump.hexdump d u))) as [E1 E2].
    destruct (hexdump_run d u Hd) as (_ & E3 & E4).
    rewrite E1, E2, E3, E4. split; [lia | reflexivity].
Qed.

(** X18.  On an image of full size, when the lookup finds a file whose
    type is neither 0 nor 2, and whose chain of track/sector list sectors
    ends within the hop limit with all pointers in the geometry, [dump]
    returns, having run [hexdump] on each data sector in the order of the
    chain: 1040 characters are written for every sector the file points
    to, and the [data] of the session is left alone. *)
Theorem dump_other_file (image : bytes) (file_name : string)
  (w w1 : Disk.world Dump.session) (track sector file_type : Z) :
  len image = FULL_GEOMETRY ->
  lookup image file_name w = (Ok (Some (track, sector, file_type)), w1) ->
  file_type <> 0 -> file_type <> 2 ->
  len (chain image HOP_LIMIT track sector) < 559 ->
  forallb in_geometry (chain image HOP_LIMIT track sector) = true ->
  forallb in_geometry (file_pointers image HOP_LIMIT track sector) = true ->
  exists w',
    Dump.dump image file_name w = (Ok tt, w')
    /\ Disk.user w' =
         deliver (fun d u => snd (Dump.hexdump d u))
           (payloads image (file_pointers image HOP_LIMIT track sector)) (Disk.user w)
    /\ String.length (Dump.stdout (Disk.user w')) =
         (String.length (Dump.stdout (Disk.user w))
          + 1040 * List.length (file_pointers image HOP_LIMIT track sector))%nat
    /\ Dump.data (Disk.user w') = Dump.data (Disk.user w).
Proof.
  intros Hl Hlook H0 H2 Hn Hc Hp.
  pose proof (keeps_user_lookup image file_name w) as Hu. rewrite Hlook in Hu.
  cbn [snd] in Hu.
  rewrite dump_after_lookup, Hlook.
  assert (Hh : Dump.FILE_HANDLERS_get file_type = Dump.DefaultHandler).
  { unfold Dump.FILE_HANDLERS_get.
    destruct (Z.eqb_spec file_type 0); [contradiction|].
    destruct (Z.eqb_spec file_type 2); [contradiction|]. reflexivity. }
  rewrite Hh.
  unfold Dump.with_handler, bind at 1.
  cbn [Dump.handler_init Dump.handler_exit]. unfold Disk.on_user at 1, ret at 1.
  unfold Files.walk_sectors.
  rewrite (walk_sectors_loop_ext_full image Dump.session _
             (consumer (fun d u0 => snd (Dump.hexdump d u0))) Hl)
    by (intros d w0 Hd; unfold consumer, Disk.on_user;
        cbn [Dump.receive_sector_data];
        destruct (hexdump_run d (Disk.user w0) Hd) as [E _]; rewrite E at 1;
        reflexivity).
  destruct (walk_sectors_consumer image Dump.session
              (fun d u0 => snd (Dump.hexdump d u0))
              track sector
              (Disk.World (Disk.position w1) (Disk.oplog w1) (Disk.user w1))
              Hl Hn Hc Hp) as (w' & Hw & Hu').
  unfold Files.walk_sectors in Hw. rewrite Hw.
  unfold Disk.on_user, ret. eexists. split; [reflexivity|].
  cbn [Disk.user] in *. rewrite Hu', Hu.
  destruct (deliver_hexdump _ (payloads_full image _ Hl Hp) (Disk.user w)) as [E1 E2].
  split; [reflexivity|]. split; [|exact E2].
  rewrite E1. unfold payloads. rewrite length_map. reflexivity.
Qed.

Lemma dump_other_file_witness :
  exists w',
    Dump.dump image_binary "DATA" fresh = (Ok tt, w')
    /\ String.length (Dump.stdout (Disk.user w')) = 1040%nat.
Proof.
  assert (H1 : len image_binary = FULL_GEOMETRY) by (vm_compute; reflexivity).
  destruct (lookup image_binary "DATA" fresh) as [r w1] eqn:E.
  assert (Hr : r = Ok (Some (0x12, 0x0F, 4))).
  { apply (f_equal fst) in E. cbn [fst] in E. rewrite <- E. vm_compute. reflexivity. }
  subst r.
  assert (H3 : len (chain image_binary HOP_LIMIT 0x12 0x0F) < 559)
    by (vm_compute; reflexivity).
  assert (H4 : forallb in_geometry (chain image_binary HOP_LIMIT 0x12 0x0F) = true)
    by (vm_compute; reflexivity).
  assert (H5 : forallb in_geometry (file_pointers image_binary HOP_LIMIT 0x12 0x0F) = true)
    by (vm_compute; reflexivity).
  destruct (dump_other_file image_binary "DATA" fresh w1 0x12 0x0F 4 H1 E
              ltac:(discriminate) ltac:(discriminate) H3 H4 H5)
    as (w' & Hd & _ & Hlen & _).
  exists w'. split; [exact Hd|]. rewrite Hlen. vm_compute. reflexivity.
Defined.

(** ** The commands end *)

Lemma on_user_terminates {U A : Type} (f : M U A) :
  terminates f -> terminates (Disk.on_user f).
Proof.
  intros H w. unfold Disk.on_user. specialize (H (Disk.user w)).
  destruct (f (Disk.user w)) as [r u]. exact H.
Qed.

Lemma receive_sector_data_terminates (h : Dump.handler) (sector_data : bytes) :
  terminates (Dump.receive_sector_data h sector_data).
Proof.
  intros u. destruct h.
  - rewrite text_handler_run. discriminate.
  - discriminate.
  - cbn [Dump.receive_sector_data].
    destruct (hexdump_index_error_only sector_data u) as [-> | ->]; discriminate.
Qed.

Lemma handler_exit_terminates (h : Dump.handler) : terminates (Dump.handler_exit h).
Proof.
  intros u. destruct h; try discriminate. cbn [Dump.handler_exit].
  pose proof (detokenize_ends (Dump.data u) (Dump.stdout u)) as H.
  destruct (Applesoft.detokenize (Dump.data u) (Dump.stdout u)) as [r out]. exact H.
Qed.

Lemma with_handler_terminates (h : Dump.handler) (body : M (Disk.world Dump.session) unit) :
  terminates body -> terminates (Dump.with_handler h body).
Proof.
  intros Hb w. unfold Dump.with_handler.
  assert (H1 : terminates (Disk.on_user (Dump.handler_init h) ;;; body)).
  { apply terminates_bind; [|intros _; exact Hb].
    apply on_user_terminates. intros u. destruct h; discriminate. }
  specialize (H1 w).
  destruct ((Disk.on_user (Dump.handler_init h) ;;; body) w) as [r w1].
  pose proof (on_user_terminates _ (handler_exit_terminates h) w1) as H2.
  destruct (Disk.on_user (Dump.handler_exit h) w1) as [r2 w2].
  cbn [fst] in *. destruct r2; [exact H1 | discriminate | contradiction].
Qed.

Lemma print_terminates (s : string) : terminates (Command.print s).
Proof. intros u. discriminate. Qed.

Lemma print_entry_terminates (e : Catalog.entry) : terminates (Command.print_entry e).
Proof.
  intros u. rewrite print_entry_run. destruct (entry_line e); discriminate.
Qed.

(** X19.  Whatever the image, the name and the session, the two commands
    end: each returns or raises.  The hop limit ends the two walks, the de-
    tokenizer stops at the end of its buffer at the latest, and no loop
    needs more turns than it is given here. *)
Theorem commands_end (image : bytes) (file_name : string)
  (w : Disk.world Dump.session) :
  fst (Command.catalog image w) <> OutOfFuel
  /\ fst (Dump.dump image file_name w) <> OutOfFuel.
Proof.
  split.
  - revert w. change (terminates (Command.catalog image)). unfold Command.catalog.
    apply terminates_bind; [apply VTOC_init_terminates|]. intros vtoc_buffer.
    apply terminates_bind; [apply on_user_terminates, print_terminates|]. intros _.
    apply terminates_bind.
    { apply terminates_lift. unfold VTOC.disk_volume. apply getitem_returns. }
    intros disk_volume. apply terminates_bind.
    { apply terminates_lift.
      destruct (Z.leb_spec 0xC2 (len vtoc_buffer)) as [H|H].
      - destruct (free_sectors_long vtoc_buffer H) as (n & -> & _). discriminate.
      - unfold VTOC.free_sectors, Disk.TRACKS_PER_DISK.
        rewrite free_sectors_list_short; [discriminate | |].
        + intros t Ht. apply in_range_iff in Ht; lia.
        + exists 34. split; [apply in_range_iff; lia | lia]. }
    intros free_sectors.
    apply terminates_bind; [apply on_user_terminates, print_terminates|]. intros _.
    apply terminates_bind; [apply on_user_terminates, print_terminates|]. intros _.
    apply terminates_bind; [|intros _; apply on_user_terminates, print_terminates].
    unfold Catalog.walk_entries. apply terminates_bind.
    + apply terminates_lift. unfold VTOC.catalog_track_sector. ends.
    + intros ts. apply walk_entries_loop_terminates.
      * intros e. apply on_user_terminates, print_entry_terminates.
      * unfold MAX_HOPS. lia.
  - rewrite dump_after_lookup.
    pose proof (lookup_terminates image file_name w) as Ht.
    destruct (lookup image file_name w) as [[[[[track sector] file_type]|]|e|] w2];
      cbn [fst] in *; try discriminate; [|contradiction].
    apply with_handler_terminates. unfold Files.walk_sectors.
    apply walk_sectors_loop_terminates.
    + intros d. apply on_user_terminates, receive_sector_data_terminates.
    + unfold MAX_HOPS. lia.
Qed.
